(** * OpenFOAM_nozzle: contour engine, section framework and wedge mesh builder

    Shallow embedding of
      - [base/nozzle/parabolic_nozzle.py]  (ParabolicNozzle),
      - [base/nozzle/nozzle.py]            (LinearSection, CircularArcSection,
                                            HermiteSection),
      - [base/templates/openfoam/system/block_mesh.py]
                                           (_wedge_points, generate_block_mesh_dict).

    Numbers.  Python and numpy floats are modelled as extended reals
    ([float]): a finite value is a real number and arithmetic on finite values
    is exact; the IEEE special values +inf, -inf and NaN are kept, so that a
    division by zero or a zero raised to a negative power behaves as numpy
    does (a non-finite value and no exception).  Rounding and the sign of
    zero are not modelled there; module [B64] evaluates the same functions
    on binary64 numbers, for the calls in which rounding or overflow
    decides, and the properties that depend on magnitudes carry explicit
    bounds on them.

    Errors.  Python exceptions are modelled by the [result] monad. *)

From Stdlib Require Import Reals Lra Lia ZArith List Bool Psatz.
From Stdlib Require Import Sorted Permutation.
From Stdlib Require String.
From Stdlib Require Floats.
Import ListNotations.

Local Open Scope R_scope.

(* ------------------------------------------------------------------------- *)
(** ** Extended reals standing for IEEE floats *)

Module Float.

Inductive float : Type :=
| Fin (x : R)
| PInf
| NInf
| NaN.

Definition is_zero (x : R) : bool := if Req_dec_T x 0 then true else false.
Definition is_neg (x : R) : bool := if Rlt_dec x 0 then true else false.
Definition is_pos (x : R) : bool := if Rlt_dec 0 x then true else false.

(** [x] is an integer: it equals its own floor. *)
Definition is_int (x : R) : bool :=
  if Req_dec_T x (IZR (Int_part x)) then true else false.

Definition signed_inf (neg : bool) : float := if neg then NInf else PInf.

Definition is_finite (a : float) : bool :=
  match a with Fin _ => true | _ => false end.

Definition fopp (a : float) : float :=
  match a with
  | Fin x => Fin (- x)
  | PInf => NInf
  | NInf => PInf
  | NaN => NaN
  end.

Definition fadd (a b : float) : float :=
  match a, b with
  | NaN, _ | _, NaN => NaN
  | Fin x, Fin y => Fin (x + y)
  | PInf, NInf | NInf, PInf => NaN
  | PInf, _ | _, PInf => PInf
  | NInf, _ | _, NInf => NInf
  end.

Definition fsub (a b : float) : float := fadd a (fopp b).

(** Sign of a non-NaN value: [Some true] negative, [Some false] positive,
    [None] zero. *)
Definition sign_of (a : float) : option bool :=
  match a with
  | Fin x => if is_zero x then None else Some (is_neg x)
  | PInf => Some false
  | NInf => Some true
  | NaN => None
  end.

Definition fmul (a b : float) : float :=
  match a, b with
  | NaN, _ | _, NaN => NaN
  | Fin x, Fin y => Fin (x * y)
  | _, _ =>
      match sign_of a, sign_of b with
      | Some sa, Some sb => signed_inf (xorb sa sb)
      | _, _ => NaN                      (* 0 * inf *)
      end
  end.

(** numpy division: a zero divisor gives a non-finite value, never an
    exception. *)
Definition fdiv (a b : float) : float :=
  match a, b with
  | NaN, _ | _, NaN => NaN
  | Fin x, Fin y =>
      if is_zero y then
        (if is_zero x then NaN else signed_inf (is_neg x))
      else Fin (x / y)
  | Fin _, _ => Fin 0
  | _, Fin y => match sign_of a with
                | Some sa => signed_inf (xorb sa (is_neg y))
                | None => NaN
                end
  | _, _ => NaN                          (* inf / inf *)
  end.

Definition fsqrt (a : float) : float :=
  match a with
  | Fin x => if is_neg x then NaN else Fin (sqrt x)
  | PInf => PInf
  | NInf | NaN => NaN
  end.

Definition fcos (a : float) : float :=
  match a with Fin x => Fin (cos x) | _ => NaN end.

Definition fsin (a : float) : float :=
  match a with Fin x => Fin (sin x) | _ => NaN end.

Definition ftan (a : float) : float :=
  match a with Fin x => Fin (tan x) | _ => NaN end.

(** [x ** y] on finite operands (C [pow]). *)
Definition Rpow (x y : R) : float :=
  if is_zero y then Fin 1
  else if is_pos x then Fin (Rpower x y)
  else if is_zero x then (if is_pos y then Fin 0 else PInf)
  else if is_int y then Fin (powerRZ x (Int_part y))
  else NaN.

(** |x| compared with 1, for an infinite exponent. *)
Definition abs_cmp_one (a : float) : comparison :=
  match a with
  | Fin x => if Rlt_dec (Rabs x) 1 then Lt
             else if Req_dec_T (Rabs x) 1 then Eq else Gt
  | _ => Gt
  end.

Definition fpow (a b : float) : float :=
  match a, b with
  | _, Fin y =>
      if is_zero y then Fin 1
      else match a with
           | Fin x => Rpow x y
           | PInf => if is_pos y then PInf else Fin 0
           | NInf => if is_pos y
                     then (if is_int y && Z.odd (Int_part y) then NInf else PInf)
                     else Fin 0
           | NaN => NaN
           end
  | Fin x, NaN => if Req_dec_T x 1 then Fin 1 else NaN
  | _, NaN => NaN
  | NaN, _ => NaN
  | _, PInf => match abs_cmp_one a with
               | Lt => Fin 0 | Eq => Fin 1 | Gt => PInf end
  | _, NInf => match abs_cmp_one a with
               | Lt => PInf | Eq => Fin 1 | Gt => Fin 0 end
  end.

(** Comparisons: false as soon as a NaN is involved. *)
Definition flt (a b : float) : Prop :=
  match a, b with
  | NaN, _ | _, NaN => False
  | Fin x, Fin y => x < y
  | NInf, NInf => False
  | NInf, _ => True
  | _, PInf => match a with PInf => False | _ => True end
  | _, _ => False
  end.

Definition fle (a b : float) : Prop :=
  match a, b with
  | NaN, _ | _, NaN => False
  | _, _ => flt a b \/ a = b
  end.

(** Truncation toward zero of a real number (Python [int] on a float). *)
Definition Rtrunc (x : R) : Z :=
  if Rle_dec 0 x then Int_part x else (- Int_part (- x))%Z.

End Float.
Import Float.

Coercion Fin : R >-> float.

Declare Scope float_scope.
Delimit Scope float_scope with fl.
Infix "+" := fadd : float_scope.
Infix "-" := fsub : float_scope.
Infix "*" := fmul : float_scope.
Infix "/" := fdiv : float_scope.
Infix "**" := fpow (at level 30, right associativity) : float_scope.
Notation "- x" := (fopp x) : float_scope.

(* ------------------------------------------------------------------------- *)
(** ** Python exceptions, list indexing, [range]; numpy [linspace] *)

Module Py.

Inductive exn : Type :=
| ValueError
| IndexError
| ZeroDivisionError
| OverflowError.

Inductive result (A : Type) : Type :=
| Ok (a : A)
| Err (e : exn).
Arguments Ok {A} a.
Arguments Err {A} e.

Definition bind {A B : Type} (m : result A) (k : A -> result B) : result B :=
  match m with
  | Ok a => k a
  | Err e => Err e
  end.

Fixpoint mapM {A B : Type} (f : A -> result B) (l : list A)
  : result (list B) :=
  match l with
  | [] => Ok []
  | a :: l' =>
      bind (f a) (fun b => bind (mapM f l') (fun bs => Ok (b :: bs)))
  end.

(** [l[i]] with Python's negative indices. *)
Definition index {A : Type} (l : list A) (i : Z) : result A :=
  let n := Z.of_nat (length l) in
  let k := if (i <? 0)%Z then (i + n)%Z else i in
  if ((0 <=? k) && (k <? n))%Z
  then match nth_error l (Z.to_nat k) with
       | Some a => Ok a
       | None => Err IndexError
       end
  else Err IndexError.

(** [range(n)]: empty when [n <= 0]. *)
Definition range (n : Z) : list Z :=
  map Z.of_nat (seq 0 (Z.to_nat n)).

(** [len(l)] *)
Definition len {A : Type} (l : list A) : Z := Z.of_nat (length l).

(** Python float division: raises on a zero divisor. *)
Definition truediv (a b : float) : result float :=
  match b with
  | Fin y => if is_zero y then Err ZeroDivisionError else Ok (fdiv a b)
  | _ => Ok (fdiv a b)
  end.

(** [int(a)] for a float [a]. *)
Definition int (a : float) : result Z :=
  match a with
  | Fin x => Ok (Rtrunc x)
  | PInf | NInf => Err OverflowError
  | NaN => Err ValueError
  end.

End Py.
Import Py.

Notation "x <- m ;; k" := (bind m (fun x => k))
  (at level 61, m at next level, right associativity).
Notation "' pat <- m ;; k" := (bind m (fun x => match x with pat => k end))
  (at level 61, pat pattern, m at next level, right associativity).

Module Numpy.

(** [np.linspace(start, stop, num)] (endpoint included): [num < 0] raises
    ValueError; the samples are [i * step + start] with
    [step = (stop - start) / (num - 1)], and the last one is overwritten by
    [stop] when [num > 1]; for [num = 1] the only sample is
    [0 * (stop - start) + start]. *)
Definition linspace (start stop : float) (num : Z) : result (list float) :=
  if (num <? 0)%Z then Err ValueError
  else
    let delta := (stop - start)%fl in
    match Z.to_nat num with
    | O => Ok []
    | S O => Ok [(Fin 0 * delta + start)%fl]
    | S (S k) =>
        let step := (delta / Fin (IZR (num - 1)))%fl in
        Ok (map (fun i => (Fin (INR i) * step + start)%fl) (seq 0 (S k))
              ++ [stop])
    end.

Definition deg2rad (d : float) : float := (d * Fin (PI / 180))%fl.

(** [np.concatenate(arrays)]: raises ValueError on an empty list of
    arrays. *)
Definition concatenate {A : Type} (arrays : list (list A)) : result (list A) :=
  match arrays with
  | [] => Err ValueError
  | _ :: _ => Ok (concat arrays)
  end.

(** [a[idx]] for an array of indices [idx]. *)
Definition take {A : Type} (a : list A) (idx : list Z) : result (list A) :=
  mapM (index a) idx.

(** The order of numpy's sort: -inf, the finite values in increasing order,
    +inf, and NaN last. *)
Definition sort_le (a b : float) : bool :=
  match a, b with
  | _, NaN => true
  | NaN, _ => false
  | NInf, _ => true
  | _, NInf => false
  | _, PInf => true
  | PInf, _ => false
  | Fin x, Fin y => if Rle_dec x y then true else false
  end.

(** Two values that [np.unique] merges (NaN is merged with NaN). *)
Definition sort_eq (a b : float) : bool := sort_le a b && sort_le b a.

(** Stable insertion: [p] goes after every entry that is not larger. *)
Fixpoint insert_stable (p : float * Z) (l : list (float * Z))
  : list (float * Z) :=
  match l with
  | [] => [p]
  | q :: t =>
      if sort_le (fst q) (fst p) then q :: insert_stable p t
      else p :: q :: t
  end.

(** [x.argsort(kind='mergesort')] together with the sorted values: a stable
    sort of the values paired with their positions. *)
Definition argsort_stable (x : list float) : list (float * Z) :=
  fold_left (fun acc p => insert_stable p acc) (combine x (range (len x))) [].

(** The mask [aux[1:] != aux[:-1]] of [np.unique]: an entry is dropped when
    it equals the one before it. *)
Fixpoint mask_runs (prev : float) (l : list (float * Z))
  : list (float * Z) :=
  match l with
  | [] => []
  | q :: t =>
      if sort_eq prev (fst q) then mask_runs (fst q) t
      else q :: mask_runs (fst q) t
  end.

Definition first_of_runs (l : list (float * Z)) : list (float * Z) :=
  match l with
  | [] => []
  | p :: t => p :: mask_runs (fst p) t
  end.

(** [np.unique(x, return_index=True)]: the sorted unique values and, for
    each, the index of its first occurrence in [x]. *)
Definition unique_return_index (x : list float) : list float * list Z :=
  let u := first_of_runs (argsort_stable x) in
  (map fst u, map snd u).

End Numpy.
Import Numpy.

(* ------------------------------------------------------------------------- *)
(** ** base/nozzle/parabolic_nozzle.py *)

Module parabolic_nozzle.

Import String.StringSyntax.
Delimit Scope string_scope with string.

Record ParabolicNozzleParams : Type := mkParabolicNozzleParams {
  throat_radius : float;
  exit_radius : float;
  chamber_radius : float;
  convergent_power : float;
  divergent_power : float
}.

Record ParabolicNozzle : Type := mkParabolicNozzle {
  params : ParabolicNozzleParams;
  L_convergent : float;
  L_divergent : float
}.

(** [ParabolicNozzle.__init__] *)
Definition ParabolicNozzle_init (p : ParabolicNozzleParams) : ParabolicNozzle :=
  {| params := p;
     L_convergent := (Fin 1.5 * chamber_radius p)%fl;
     L_divergent :=
       (Fin 0.8 * (exit_radius p - throat_radius p)
          / ftan (deg2rad (Fin 15)))%fl |}.

Definition _convergent_section (self : ParabolicNozzle) (n_points : Z)
  : result (list float * list float) :=
  x <- linspace (- L_convergent self)%fl (Fin 0) n_points ;;
  let t := map (fun xi => ((xi + L_convergent self) / L_convergent self)%fl) x in
  let r := map (fun ti =>
                  (chamber_radius (params self)
                   - (chamber_radius (params self) - throat_radius (params self))
                     * ti ** convergent_power (params self))%fl) t in
  Ok (x, r).

Definition _divergent_section (self : ParabolicNozzle) (n_points : Z)
  : result (list float * list float) :=
  x <- linspace (Fin 0) (L_divergent self) n_points ;;
  let t := map (fun xi => (xi / L_divergent self)%fl) x in
  let r := map (fun ti =>
                  (throat_radius (params self)
                   + (exit_radius (params self) - throat_radius (params self))
                     * ti ** divergent_power (params self))%fl) t in
  Ok (x, r).

(** [int(n_points * 0.4)] is the truncation toward zero of the exact
    product (lemma [Rtrunc_two_fifths]: it is [(2 * n_points) quot 5]). *)
Definition generate_contour (self : ParabolicNozzle) (n_points : Z)
  : result (list float * list float) :=
  n_conv <- int (Fin (IZR n_points) * Fin 0.4)%fl ;;
  let n_div := (n_points - n_conv)%Z in
  '(x_conv, r_conv) <- _convergent_section self n_conv ;;
  '(x_div, r_div) <- _divergent_section self n_div ;;
  Ok (x_conv ++ tl x_div, r_conv ++ tl r_div).

Definition get_outer_wall (self : ParabolicNozzle) (n_points : Z)
  : result (list float * list float) :=
  generate_contour self n_points.

(** [r = np.zeros_like(x)] *)
Definition get_centerline (self : ParabolicNozzle) (n_points : Z)
  : result (list float * list float) :=
  '(x, _) <- generate_contour self n_points ;;
  Ok (x, map (fun _ => Fin 0) x).

(** The returned dict, as its list of items. *)
Definition get_both_sections (self : ParabolicNozzle) (n_points : Z)
  : result (list (String.string * (list float * list float))) :=
  '(x_wall, r_wall) <- get_outer_wall self n_points ;;
  '(x_center, r_center) <- get_centerline self n_points ;;
  Ok [("outer_wall"%string, (x_wall, r_wall));
      ("centerline"%string, (x_center, r_center))].

End parabolic_nozzle.
Import parabolic_nozzle.

(* ------------------------------------------------------------------------- *)
(** ** base/nozzle/nozzle.py *)

Module nozzle.

Record SectionParameters : Type := mkSectionParameters {
  start_x : float;
  end_x : float;
  start_r : float;
  end_r : float;
  n_points : Z
}.

(** [NozzleSection.generate_points], for a section whose radius function is
    [r_func] (applied elementwise to the sampled array). *)
Definition generate_points (params : SectionParameters)
    (r_func : float -> float) : result (list float * list float) :=
  x <- linspace (start_x params) (end_x params) (n_points params) ;;
  Ok (x, map r_func x).

(** *** LinearSection *)

Record LinearSection : Type := mkLinearSection {
  lin_params : SectionParameters;
  slope : float
}.

(** [LinearSection.__init__]: a Python float division, which raises when the
    section has zero length. *)
Definition LinearSection_init (params : SectionParameters)
  : result LinearSection :=
  s <- truediv (end_r params - start_r params)%fl
               (end_x params - start_x params)%fl ;;
  Ok {| lin_params := params; slope := s |}.

Definition LinearSection_get_radius_function (self : LinearSection)
  : float -> float :=
  fun x =>
    (start_r (lin_params self) + slope self * (x - start_x (lin_params self)))%fl.

(** *** CircularArcSection *)

Record CircularArcSection : Type := mkCircularArcSection {
  arc_params : SectionParameters;
  R_c : float;
  convex : bool
}.

Definition CircularArcSection_init (params : SectionParameters)
    (radius_of_curvature : float) (convex : bool) : CircularArcSection :=
  {| arc_params := params; R_c := radius_of_curvature; convex := convex |}.

(** The chord and the sagitta [h] are computed by the source and then left
    unused by [r_func]; they are kept here as the source has them. *)
Definition CircularArcSection_chord (self : CircularArcSection) : float :=
  let dx := (end_x (arc_params self) - start_x (arc_params self))%fl in
  let dr := (end_r (arc_params self) - start_r (arc_params self))%fl in
  fsqrt (dx ** Fin 2 + dr ** Fin 2)%fl.

Definition CircularArcSection_sign (self : CircularArcSection) : float :=
  if convex self then Fin 1 else Fin (-1).

Definition CircularArcSection_h (self : CircularArcSection) : float :=
  let chord := CircularArcSection_chord self in
  let sign := CircularArcSection_sign self in
  (R_c self - sign * fsqrt (R_c self ** Fin 2 - (chord / Fin 2) ** Fin 2))%fl.

Definition CircularArcSection_get_radius_function (self : CircularArcSection)
  : float -> float :=
  let dx := (end_x (arc_params self) - start_x (arc_params self))%fl in
  let dr := (end_r (arc_params self) - start_r (arc_params self))%fl in
  let sign := CircularArcSection_sign self in
  fun x =>
    let t := ((x - start_x (arc_params self)) / dx)%fl in
    let x_local := (t * dx)%fl in
    (start_r (arc_params self) + t * dr
     + sign * fsqrt (R_c self ** Fin 2 - (x_local - dx / Fin 2) ** Fin 2)
     - sign * fsqrt (R_c self ** Fin 2 - (dx / Fin 2) ** Fin 2))%fl.

(** *** HermiteSection *)

Record HermiteSection : Type := mkHermiteSection {
  her_params : SectionParameters;
  start_slope : float;
  end_slope : float
}.

Definition HermiteSection_init (params : SectionParameters)
    (start_slope end_slope : float) : HermiteSection :=
  {| her_params := params; start_slope := start_slope;
     end_slope := end_slope |}.

Definition HermiteSection_get_radius_function (self : HermiteSection)
  : float -> float :=
  let dx := (end_x (her_params self) - start_x (her_params self))%fl in
  fun x =>
    let t := ((x - start_x (her_params self)) / dx)%fl in
    let h00 := (Fin 2 * t ** Fin 3 - Fin 3 * t ** Fin 2 + Fin 1)%fl in
    let h10 := (t ** Fin 3 - Fin 2 * t ** Fin 2 + t)%fl in
    let h01 := (Fin (-2) * t ** Fin 3 + Fin 3 * t ** Fin 2)%fl in
    let h11 := (t ** Fin 3 - t ** Fin 2)%fl in
    (h00 * start_r (her_params self)
     + h10 * dx * start_slope self
     + h01 * end_r (her_params self)
     + h11 * dx * end_slope self)%fl.

(** *** LinearSection built on numpy scalars *)

(** [LinearSection.__init__] when [end_x - start_x] is a numpy scalar, as in
    [create_conical_nozzle] where the bounds come from [np.tan]: the
    division is numpy's and never raises. *)
Definition LinearSection_init_np (params : SectionParameters)
  : LinearSection :=
  {| lin_params := params;
     slope := ((end_r params - start_r params)
               / (end_x params - start_x params))%fl |}.

(** *** ParabolicSection *)

Record ParabolicSection : Type := mkParabolicSection {
  par_params : SectionParameters;
  curvature : float
}.

Definition ParabolicSection_init (params : SectionParameters)
    (curvature : float) : ParabolicSection :=
  {| par_params := params; curvature := curvature |}.

Definition ParabolicSection_get_radius_function (self : ParabolicSection)
  : float -> float :=
  fun x =>
    let t := ((x - start_x (par_params self))
              / (end_x (par_params self) - start_x (par_params self)))%fl in
    (start_r (par_params self)
     + (end_r (par_params self) - start_r (par_params self))
       * t ** curvature self)%fl.

(** *** FunctionBasedSection and the class hierarchy *)

Record FunctionBasedSection : Type := mkFunctionBasedSection {
  fun_params : SectionParameters;
  radius_function : list float -> list float
}.

(** The subclasses of [NozzleSection]. *)
Inductive NozzleSection : Type :=
| FunctionBased (s : FunctionBasedSection)
| Linear (s : LinearSection)
| CircularArc (s : CircularArcSection)
| Parabolic (s : ParabolicSection)
| Hermite (s : HermiteSection).

Definition section_params (s : NozzleSection) : SectionParameters :=
  match s with
  | FunctionBased f => fun_params f
  | Linear l => lin_params l
  | CircularArc c => arc_params c
  | Parabolic p => par_params p
  | Hermite h => her_params h
  end.

(** [get_radius_function], on arrays: the built-in sections apply their
    formula elementwise, a FunctionBasedSection hands the array to the
    caller's function. *)
Definition get_radius_function (s : NozzleSection)
  : list float -> list float :=
  match s with
  | FunctionBased f => radius_function f
  | Linear l => map (LinearSection_get_radius_function l)
  | CircularArc c => map (CircularArcSection_get_radius_function c)
  | Parabolic p => map (ParabolicSection_get_radius_function p)
  | Hermite h => map (HermiteSection_get_radius_function h)
  end.

(** [NozzleSection.generate_points] *)
Definition section_generate_points (s : NozzleSection)
  : result (list float * list float) :=
  x <- linspace (start_x (section_params s)) (end_x (section_params s))
                (n_points (section_params s)) ;;
  Ok (x, get_radius_function s x).

(** *** Nozzle *)

Record NozzleParameters : Type := mkNozzleParameters {
  throat_radius : float;
  exit_radius : float;
  chamber_radius : float;
  throat_position : float
}.

Record Nozzle : Type := mkNozzle {
  noz_params : NozzleParameters;
  sections : list NozzleSection
}.

Definition Nozzle_init (params : NozzleParameters) : Nozzle :=
  {| noz_params := params; sections := [] |}.

(** [list.insert(i, a)] for [0 <= i]: positions past the end append. *)
Definition list_insert {A : Type} (l : list A) (i : nat) (a : A) : list A :=
  firstn i l ++ a :: skipn i l.


Definition add_converging_section (self : Nozzle) (section : NozzleSection)
  : Nozzle :=
  {| noz_params := noz_params self;
     sections := list_insert (sections self) 0 section |}.

Definition add_throat_section (self : Nozzle) (section : NozzleSection)
  : Nozzle :=
  let insert_pos := if (0 <? len (sections self))%Z then 1%nat else 0%nat in
  {| noz_params := noz_params self;
     sections := list_insert (sections self) insert_pos section |}.

Definition add_diverging_section (self : Nozzle) (section : NozzleSection)
  : Nozzle :=
  {| noz_params := noz_params self; sections := sections self ++ [section] |}.

(** [Nozzle.generate_contour] *)
Definition Nozzle_generate_contour (self : Nozzle) (remove_duplicates : bool)
  : result (list float * list float) :=
  pts <- mapM section_generate_points (sections self) ;;
  x <- concatenate (map fst pts) ;;
  r <- concatenate (map snd pts) ;;
  if remove_duplicates then
    let unique_indices := snd (unique_return_index x) in
    x' <- take x unique_indices ;;
    r' <- take r unique_indices ;;
    Ok (x', r')
  else Ok (x, r).


(** *** Helper constructors *)

Definition create_conical_nozzle (params : NozzleParameters)
    (convergent_angle divergent_angle : float) (n_points_per_section : Z)
  : Nozzle :=
  let nozzle := Nozzle_init params in
  let theta_conv := deg2rad convergent_angle in
  let L_conv := ((chamber_radius params - throat_radius params)
                 / ftan theta_conv)%fl in
  let conv_params :=
    {| start_x := (throat_position params - L_conv)%fl;
       end_x := throat_position params;
       start_r := chamber_radius params;
       end_r := throat_radius params;
       n_points := n_points_per_section |} in
  let nozzle :=
    add_converging_section nozzle (Linear (LinearSection_init_np conv_params)) in
  let theta_div := deg2rad divergent_angle in
  let L_div := ((exit_radius params - throat_radius params)
                / ftan theta_div)%fl in
  let div_params :=
    {| start_x := throat_position params;
       end_x := (throat_position params + L_div)%fl;
       start_r := throat_radius params;
       end_r := exit_radius params;
       n_points := n_points_per_section |} in
  add_diverging_section nozzle (Linear (LinearSection_init_np div_params)).

Definition create_bell_nozzle (params : NozzleParameters)
    (percent_bell theta_n theta_e : float) (n_points_per_section : Z)
  : Nozzle :=
  let nozzle := Nozzle_init params in
  let L_conv := (Fin 1.5 * chamber_radius params)%fl in
  let conv_params :=
    {| start_x := (throat_position params - L_conv)%fl;
       end_x := throat_position params;
       start_r := chamber_radius params;
       end_r := throat_radius params;
       n_points := n_points_per_section |} in
  let nozzle :=
    add_converging_section nozzle
      (Parabolic (ParabolicSection_init conv_params (Fin 0.6))) in
  let L_ref := ((exit_radius params - throat_radius params)
                / ftan (deg2rad (Fin 15)))%fl in
  let L_div := (percent_bell / Fin 100 * L_ref)%fl in
  let div_params :=
    {| start_x := throat_position params;
       end_x := (throat_position params + L_div)%fl;
       start_r := throat_radius params;
       end_r := exit_radius params;
       n_points := (n_points_per_section * 2)%Z |} in
  add_diverging_section nozzle
    (Hermite (HermiteSection_init div_params
                (ftan (deg2rad theta_n)) (ftan (deg2rad theta_e)))).


End nozzle.

(* ------------------------------------------------------------------------- *)
(** ** base/templates/openfoam/system/block_mesh.py *)

Module block_mesh.

Import String.StringSyntax.
Delimit Scope string_scope with string.
Definition string : Type := String.string.

Record BlockMeshParams : Type := mkBlockMeshParams {
  wedge_angle_deg : float;
  n_axial : Z;
  n_radial : Z;
  axial_grading : float;
  radial_grading : float;
  inlet_patch : string;
  outlet_patch : string;
  wall_patch : string;
  wedge0_patch : string;
  wedge1_patch : string;
  convert_to_meters : float
}.

Definition BlockMeshParams_default : BlockMeshParams :=
  {| wedge_angle_deg := Fin 5; n_axial := 200; n_radial := 50;
     axial_grading := Fin 1; radial_grading := Fin 1;
     inlet_patch := "inlet"%string; outlet_patch := "outlet"%string; wall_patch := "wall"%string;
     wedge0_patch := "wedge0"%string; wedge1_patch := "wedge1"%string;
     convert_to_meters := Fin 1 |}.

Definition Vertex : Type := (float * float * float)%type.

(** The five lists grown by the loop of [_wedge_points]. *)
Record WedgePoints : Type := mkWedgePoints {
  verts : list Vertex;
  idx_axis_p0 : list Z;
  idx_wall_p0 : list Z;
  idx_axis_p1 : list Z;
  idx_wall_p1 : list Z
}.

(** One iteration of the loop [for xi, ri in zip(x, r)]. *)
Definition _wedge_points_step (c s : float) (st : WedgePoints)
    (xr : float * float) : WedgePoints :=
  let '(xi, ri) := xr in
  (* plane 0 (-theta_half) *)
  let a0 := idx_axis_p0 st ++ [len (verts st)] in
  let vs := verts st ++ [(xi, Fin 0, Fin 0)] in
  let w0 := idx_wall_p0 st ++ [len vs] in
  let vs := vs ++ [(xi, (ri * c)%fl, ((- ri) * s)%fl)] in
  (* plane 1 (+theta_half) *)
  let a1 := idx_axis_p1 st ++ [len vs] in
  let vs := vs ++ [(xi, Fin 0, Fin 0)] in
  let w1 := idx_wall_p1 st ++ [len vs] in
  let vs := vs ++ [(xi, (ri * c)%fl, (ri * s)%fl)] in
  {| verts := vs; idx_axis_p0 := a0; idx_wall_p0 := w0;
     idx_axis_p1 := a1; idx_wall_p1 := w1 |}.

Definition _wedge_points (x r : list float) (theta_half : float)
  : WedgePoints :=
  let c := fcos theta_half in
  let s := fsin theta_half in
  fold_left (_wedge_points_step c s) (combine x r)
    {| verts := []; idx_axis_p0 := []; idx_wall_p0 := [];
       idx_axis_p1 := []; idx_wall_p1 := [] |}.

(** A face: four vertex indices in winding order. *)
Definition Face : Type := (Z * Z * Z * Z)%type.

(** [hex (v0 .. v7) (1 n_radial 1) simpleGrading (ga gr 1)] *)
Record Block : Type := mkBlock {
  hex : list Z;
  cells : Z * Z * Z;
  simpleGrading : float * float * Z
}.

(** The content of the blockMeshDict text returned by the source: every
    list below is printed one entry per line, in this order, between the
    fixed headers of its block. *)
Record BlockMeshDict : Type := mkBlockMeshDict {
  convertToMeters : float;
  vertices : list Vertex;
  blocks : list Block;
  edges : list unit;
  inlet : string * list Face;
  outlet : string * list Face;
  wall : string * list Face;
  wedge0 : string * list Face;
  wedge1 : string * list Face;
  mergePatchPairs : list unit
}.

Definition generate_block_mesh_dict (nozzle : ParabolicNozzle)
    (params : BlockMeshParams) : result BlockMeshDict :=
  (* stations = n_axial + 1 => n_axial blocks *)
  '(x, r) <- get_outer_wall nozzle (n_axial params + 1)%Z ;;
  let theta := deg2rad (wedge_angle_deg params) in
  let theta_half := (Fin 0.5 * theta)%fl in
  let wp := _wedge_points x r theta_half in
  let a0 := idx_axis_p0 wp in
  let w0 := idx_wall_p0 wp in
  let a1 := idx_axis_p1 wp in
  let w1 := idx_wall_p1 wp in
  let grading := (axial_grading params, radial_grading params, 1%Z) in
  blocks <- mapM (fun i =>
      v0 <- index a0 i ;;
      v1 <- index a0 (i + 1)%Z ;;
      v2 <- index w0 (i + 1)%Z ;;
      v3 <- index w0 i ;;
      v4 <- index a1 i ;;
      v5 <- index a1 (i + 1)%Z ;;
      v6 <- index w1 (i + 1)%Z ;;
      v7 <- index w1 i ;;
      Ok {| hex := [v0; v1; v2; v3; v4; v5; v6; v7];
            cells := (1%Z, n_radial params, 1%Z);
            simpleGrading := grading |})
    (range (len x - 1)%Z) ;;
  (* Inlet face at first station *)
  i0 <- index a0 0%Z ;; i1 <- index a1 0%Z ;;
  i2 <- index w1 0%Z ;; i3 <- index w0 0%Z ;;
  let inlet_faces := [(i0, i1, i2, i3)] in
  (* Outlet face at last station *)
  let j := (len x - 1)%Z in
  o0 <- index a0 j ;; o1 <- index w0 j ;;
  o2 <- index w1 j ;; o3 <- index a1 j ;;
  let outlet_faces := [(o0, o1, o2, o3)] in
  (* For each axial strip, wall and wedge faces *)
  strips <- mapM (fun i =>
      wa <- index w0 i ;; wb <- index w0 (i + 1)%Z ;;
      wc <- index w1 (i + 1)%Z ;; wd <- index w1 i ;;
      p0a <- index a0 i ;; p0b <- index a0 (i + 1)%Z ;;
      p0c <- index w0 (i + 1)%Z ;; p0d <- index w0 i ;;
      p1a <- index a1 (i + 1)%Z ;; p1b <- index a1 i ;;
      p1c <- index w1 i ;; p1d <- index w1 (i + 1)%Z ;;
      Ok ((wa, wb, wc, wd), (p0a, p0b, p0c, p0d), (p1a, p1b, p1c, p1d)))
    (range (len x - 1)%Z) ;;
  let wall_faces := map (fun s => fst (fst s)) strips in
  let wedge0_faces := map (fun s => snd (fst s)) strips in
  let wedge1_faces := map (fun s => snd s) strips in
  Ok {| convertToMeters := convert_to_meters params;
        vertices := verts wp;
        blocks := blocks;
        edges := [];
        inlet := (inlet_patch params, inlet_faces);
        outlet := (outlet_patch params, outlet_faces);
        wall := (wall_patch params, wall_faces);
        wedge0 := (wedge0_patch params, wedge0_faces);
        wedge1 := (wedge1_patch params, wedge1_faces);
        mergePatchPairs := [] |}.

End block_mesh.

(* ------------------------------------------------------------------------- *)
(** ** Vocabulary of the properties *)

(** Every two neighbours of [l] are related by [rel]. *)
Fixpoint chain {A : Type} (rel : A -> A -> Prop) (l : list A) : Prop :=
  match l with
  | [] => True
  | a :: t =>
      match t with
      | [] => True
      | b :: _ => rel a b /\ chain rel t
      end
  end.

Definition strictly_increasing (l : list float) : Prop := chain flt l.

Definition all_nonneg (l : list float) : Prop := Forall (fle (Fin 0)) l.

Definition all_finite (l : list float) : Prop :=
  Forall (fun a => is_finite a = true) l.

(** The real samples of [linspace a b n] on finite bounds. *)
Definition linspaceR (a b : R) (n : nat) : list R :=
  match n with
  | O => []
  | S O => [0 * (b - a) + a]
  | S (S k) =>
      map (fun i => INR i * ((b - a) / INR (S k)) + a) (seq 0 (S k)) ++ [b]
  end.

(** The parameters of the end-to-end scenario of [parabolic_nozzle.py]. *)
Definition example_params : ParabolicNozzleParams :=
  {| throat_radius := Fin 0.05;
     exit_radius := Fin 0.15;
     chamber_radius := Fin 0.075;
     convergent_power := Fin 0.6;
     divergent_power := Fin 0.8 |}.

Definition finite_params (tr er cr cp dp : R) : ParabolicNozzleParams :=
  {| throat_radius := Fin tr;
     exit_radius := Fin er;
     chamber_radius := Fin cr;
     convergent_power := Fin cp;
     divergent_power := Fin dp |}.

(** Section lengths and radius laws of [ParabolicNozzle] on finite
    parameters, as real expressions. *)
Definition Lconv (cr : R) : R := 1.5 * cr.

Definition Ldiv (tr er : R) : R := 0.8 * (er - tr) / tan (15 * (PI / 180)).

Definition conv_radius (tr cr cp : R) (x : R) : float :=
  (Fin cr - (Fin cr - Fin tr)
            * ((Fin x + Fin (Lconv cr)) / Fin (Lconv cr)) ** Fin cp)%fl.

Definition div_radius (tr er dp : R) (x : R) : float :=
  (Fin tr + (Fin er - Fin tr) * (Fin x / Fin (Ldiv tr er)) ** Fin dp)%fl.

(** The point counts chosen by [generate_contour]. *)
Definition n_conv_of (n_points : Z) : Z := Z.quot (2 * n_points) 5.
Definition n_div_of (n_points : Z) : Z := (n_points - n_conv_of n_points)%Z.

(** *** Explicit form of the wedge mesh *)

(** The four vertices that one station adds, in storage order
    (axis-p0, wall-p0, axis-p1, wall-p1). *)
Definition station_vertices (c s : float) (xr : float * float)
  : list block_mesh.Vertex :=
  let '(xi, ri) := xr in
  [(xi, Fin 0, Fin 0); (xi, ri * c, (- ri) * s);
   (xi, Fin 0, Fin 0); (xi, ri * c, ri * s)]%fl.

(** Index array of [n] stations whose first entry is [base + off]. *)
Definition idx_from (base off : Z) (n : nat) : list Z :=
  map (fun k => (base + 4 * Z.of_nat k + off)%Z) (seq 0 n).

Definition block_at (bp : block_mesh.BlockMeshParams) (i : Z)
  : block_mesh.Block :=
  {| block_mesh.hex :=
       [4 * i; 4 * i + 4; 4 * i + 5; 4 * i + 1;
        4 * i + 2; 4 * i + 6; 4 * i + 7; 4 * i + 3]%Z;
     block_mesh.cells := (1%Z, block_mesh.n_radial bp, 1%Z);
     block_mesh.simpleGrading :=
       (block_mesh.axial_grading bp, block_mesh.radial_grading bp, 1%Z) |}.

Definition wall_face_at (i : Z) : block_mesh.Face :=
  (4 * i + 1, 4 * i + 5, 4 * i + 7, 4 * i + 3)%Z.
Definition wedge0_face_at (i : Z) : block_mesh.Face :=
  (4 * i, 4 * i + 4, 4 * i + 5, 4 * i + 1)%Z.
Definition wedge1_face_at (i : Z) : block_mesh.Face :=
  (4 * i + 6, 4 * i + 2, 4 * i + 3, 4 * i + 7)%Z.
Definition inlet_face : block_mesh.Face := (0, 2, 3, 1)%Z.
Definition outlet_face_at (j : Z) : block_mesh.Face :=
  (4 * j, 4 * j + 1, 4 * j + 3, 4 * j + 2)%Z.

(** The mesh built from [k + 1] stations [(x, r)]. *)
Definition mesh_of_stations (bp : block_mesh.BlockMeshParams)
    (stations : list (float * float)) : block_mesh.BlockMeshDict :=
  let theta_half :=
    (Fin 0.5 * deg2rad (block_mesh.wedge_angle_deg bp))%fl in
  let segs := range (len stations - 1) in
  {| block_mesh.convertToMeters := block_mesh.convert_to_meters bp;
     block_mesh.vertices :=
       flat_map (station_vertices (fcos theta_half) (fsin theta_half))
                stations;
     block_mesh.blocks := map (block_at bp) segs;
     block_mesh.edges := [];
     block_mesh.inlet := (block_mesh.inlet_patch bp, [inlet_face]);
     block_mesh.outlet :=
       (block_mesh.outlet_patch bp, [outlet_face_at (len stations - 1)]);
     block_mesh.wall := (block_mesh.wall_patch bp, map wall_face_at segs);
     block_mesh.wedge0 :=
       (block_mesh.wedge0_patch bp, map wedge0_face_at segs);
     block_mesh.wedge1 :=
       (block_mesh.wedge1_patch bp, map wedge1_face_at segs);
     block_mesh.mergePatchPairs := [] |}.

(** [dataclasses.replace(bp, n_axial=n)] *)
Definition with_n_axial (bp : block_mesh.BlockMeshParams) (n : Z)
  : block_mesh.BlockMeshParams :=
  {| block_mesh.wedge_angle_deg := block_mesh.wedge_angle_deg bp;
     block_mesh.n_axial := n;
     block_mesh.n_radial := block_mesh.n_radial bp;
     block_mesh.axial_grading := block_mesh.axial_grading bp;
     block_mesh.radial_grading := block_mesh.radial_grading bp;
     block_mesh.inlet_patch := block_mesh.inlet_patch bp;
     block_mesh.outlet_patch := block_mesh.outlet_patch bp;
     block_mesh.wall_patch := block_mesh.wall_patch bp;
     block_mesh.wedge0_patch := block_mesh.wedge0_patch bp;
     block_mesh.wedge1_patch := block_mesh.wedge1_patch bp;
     block_mesh.convert_to_meters := block_mesh.convert_to_meters bp |}.

(** *** Winding of faces *)

Definition face_reverse (f : block_mesh.Face) : block_mesh.Face :=
  let '(a, b, c, d) := f in (d, c, b, a).

Definition face_map (g : Z -> Z) (f : block_mesh.Face) : block_mesh.Face :=
  let '(a, b, c, d) := f in (g a, g b, g c, g d).

Definition face_rotate (f : block_mesh.Face) : block_mesh.Face :=
  let '(a, b, c, d) := f in (b, c, d, a).

(** [g] lists the same vertices as [f] in the same cyclic order. *)
Definition same_cycle (f g : block_mesh.Face) : Prop :=
  g = f \/ g = face_rotate f \/ g = face_rotate (face_rotate f)
  \/ g = face_rotate (face_rotate (face_rotate f)).

(** Position-wise lookup of [v] in [from], answering with the entry of [to]
    at the same station. *)
Fixpoint lookup_pair (from to : list Z) (v : Z) : option Z :=
  match from, to with
  | f :: fs, t :: ts => if (f =? v)%Z then Some t else lookup_pair fs ts v
  | _, _ => None
  end.

(** The plane-1 counterpart of a plane-0 vertex index, read from the four
    index arrays of [_wedge_points]. *)
Definition plane_swap (wp : block_mesh.WedgePoints) (v : Z) : Z :=
  match lookup_pair (block_mesh.idx_axis_p0 wp) (block_mesh.idx_axis_p1 wp) v
  with
  | Some t => t
  | None =>
      match lookup_pair (block_mesh.idx_wall_p0 wp)
                        (block_mesh.idx_wall_p1 wp) v with
      | Some t => t
      | None => v
      end
  end.

(** *** Orientation of faces *)

Definition vec : Type := (R * R * R)%type.

Definition vsub (p q : vec) : vec :=
  let '(a, b, c) := p in let '(d, e, f) := q in (a - d, b - e, c - f).

Definition vadd (p q : vec) : vec :=
  let '(a, b, c) := p in let '(d, e, f) := q in (a + d, b + e, c + f).

Definition vscale (k : R) (p : vec) : vec :=
  let '(a, b, c) := p in (k * a, k * b, k * c).

Definition cross (p q : vec) : vec :=
  let '(a, b, c) := p in
  let '(d, e, f) := q in
  (b * f - c * e, c * d - a * f, a * e - b * d).

Definition dot (p q : vec) : R :=
  let '(a, b, c) := p in let '(d, e, f) := q in a * d + b * e + c * f.

Definition centroid (l : list vec) : vec :=
  vscale (/ INR (length l)) (fold_right vadd (0, 0, 0) l).

(** Twice the vector area of the quadrilateral [p0 p1 p2 p3]; by the
    right-hand rule it points to the side from which the vertices are seen
    counter-clockwise. *)
Definition area_vector (f : list vec) : vec :=
  match f with
  | [p0; p1; p2; p3] => cross (vsub p2 p0) (vsub p3 p1)
  | _ => (0, 0, 0)
  end.

(** Positive when the right-hand normal of [face] points away from the
    centre of the block [blk], negative when it points into the block. *)
Definition outward_flux (blk face : list vec) : R :=
  dot (area_vector face) (vsub (centroid face) (centroid blk)).

Definition coords (v : block_mesh.Vertex) : option vec :=
  match v with
  | (Fin a, Fin b, Fin c) => Some (a, b, c)
  | _ => None
  end.

Fixpoint points_of (vs : list block_mesh.Vertex) (idx : list Z)
  : option (list vec) :=
  match idx with
  | [] => Some []
  | i :: rest =>
      match nth_error vs (Z.to_nat i), points_of vs rest with
      | Some v, Some ps =>
          match coords v with
          | Some p => Some (p :: ps)
          | None => None
          end
      | _, _ => None
      end
  end.

Definition face_indices (f : block_mesh.Face) : list Z :=
  let '(a, b, c, d) := f in [a; b; c; d].

(** *** Sections of [nozzle.py] on finite parameters *)

(** The point [(x, r)] lies on the circle of centre [(cx, cr)] and radius
    [rad]. *)
Definition on_circle (cx cr rad : R) (x r : R) : Prop :=
  (x - cx) ^ 2 + (r - cr) ^ 2 = rad ^ 2.

(** The real function computed by the radius function of a HermiteSection
    with finite parameters. *)
Definition hermite_radius (sx ex sr er s0 s1 : R) (x : R) : R :=
  let dx := ex - sx in
  let t := (x - sx) / dx in
  (2 * t ^ 3 - 3 * t ^ 2 + 1) * sr
  + (t ^ 3 - 2 * t ^ 2 + t) * dx * s0
  + (-2 * t ^ 3 + 3 * t ^ 2) * er
  + (t ^ 3 - t ^ 2) * dx * s1.

(** The real function computed by the radius function of a
    CircularArcSection with finite parameters, where both square roots are
    defined. *)
Definition arc_radius (sx ex sr er Rc sign : R) (x : R) : R :=
  let dx := ex - sx in
  let dr := er - sr in
  let t := (x - sx) / dx in
  sr + t * dr + sign * sqrt (Rc ^ 2 - (t * dx - dx / 2) ^ 2)
  - sign * sqrt (Rc ^ 2 - (dx / 2) ^ 2).

(** *** Order of [np.unique] *)

(** Strictly before, in the order of numpy's sort. *)
Definition sort_lt (a b : float) : Prop :=
  sort_le a b = true /\ sort_le b a = false.

(** Order of the (value, position) pairs after a stable sort: by value, and
    by position among equal values. *)
Definition lex_lt (p q : float * Z) : Prop :=
  sort_le (fst p) (fst q) = true /\
  (sort_le (fst q) (fst p) = true -> (snd p < snd q)%Z).

Definition key_lt (p q : float * Z) : Prop := sort_lt (fst p) (fst q).

(** A section that samples finite axial bounds with a non-negative number
    of points and whose radius function returns one radius per position
    (every built-in section does). *)
Definition regular_section (s : nozzle.NozzleSection) : Prop :=
  (exists a b, nozzle.start_x (nozzle.section_params s) = Fin a /\
               nozzle.end_x (nozzle.section_params s) = Fin b) /\
  (0 <= nozzle.n_points (nozzle.section_params s))%Z /\
  (forall xs, length (nozzle.get_radius_function s xs) = length xs).


(** The axial position [tp] of a junction lies within [10^6] lengths [L]
    of the origin, so that stations spaced by [L / 10^6] or more around it
    stay distinct in binary64. *)
Definition resolves (tp L : R) : Prop := Rabs tp <= 1e6 * L.

(* ------------------------------------------------------------------------- *)
(** ** The same code on binary64

    The extended reals above compute exactly.  The functions below evaluate
    the same source on the kernel's IEEE 754 binary64 numbers, with the
    operations the interpreter and numpy perform ([+], [-], [*], [/],
    comparisons, round to nearest even), so that a concrete call can be
    traced with its rounding and its overflow.  What is not an IEEE
    operation is taken as follows:
      - [x ** y]: the values that C (Annex F) and numpy fix for special
        operands (a zero or unit exponent, a NaN, a base 1 or +0); any
        other power is [Unspecified];
      - [np.tan(np.deg2rad(15))], the only tangent of
        [parabolic_nozzle.py]: the constant [tan_deg2rad_15]. *)

Module B64.

#[local] Set Warnings "-inexact-float,-notation-overridden".
Import PrimFloat.
Local Open Scope float_scope.

Inductive outcome (A : Type) : Type :=
| Value (a : A)
| Raises (e : Py.exn)
| Unspecified.
Arguments Value {A} a.
Arguments Raises {A} e.
Arguments Unspecified {A}.

Definition bind {A B : Type} (m : outcome A) (k : A -> outcome B)
  : outcome B :=
  match m with
  | Value a => k a
  | Raises e => Raises e
  | Unspecified => Unspecified
  end.

Fixpoint mapM {A B : Type} (f : A -> outcome B) (l : list A)
  : outcome (list B) :=
  match l with
  | [] => Value []
  | a :: l' =>
      bind (f a) (fun b => bind (mapM f l') (fun bs => Value (b :: bs)))
  end.

(** A Python int as a float (exact below 2^53; meant for [|n| < 2^63]). *)
Definition of_int (n : Z) : float :=
  if (n <? 0)%Z then - of_uint63 (Uint63.of_Z (- n))
  else of_uint63 (Uint63.of_Z n).

(** [int(a)] for a float [a]: truncation toward zero. *)
Definition int (a : float) : outcome Z :=
  match FloatOps.Prim2SF a with
  | SpecFloat.S754_nan => Raises Py.ValueError
  | SpecFloat.S754_infinity _ => Raises Py.OverflowError
  | SpecFloat.S754_zero _ => Value 0%Z
  | SpecFloat.S754_finite s m e =>
      let v := if (0 <=? e)%Z then (Z.pos m * 2 ^ e)%Z
               else Z.quot (Z.pos m) (2 ^ (- e)) in
      Value (if s then (- v)%Z else v)
  end.

(** [x ** y] where its value is fixed. *)
Definition pow (x y : float) : outcome float :=
  if y =? 0 then Value 1
  else if y =? 1 then Value x
  else if x =? 1 then Value 1
  else if is_nan x || is_nan y then Value nan
  else match classify x with
       | FloatClass.PZero => Value (if 0 <? y then 0 else infinity)
       | _ => Unspecified
       end.

(** [np.linspace(start, stop, num)], with numpy's branch for a step that
    underflows to zero. *)
Definition linspace (start stop : float) (num : Z) : outcome (list float) :=
  if (num <? 0)%Z then Raises Py.ValueError
  else
    let div := (num - 1)%Z in
    let delta := stop - start in
    let y := map of_int (Py.range num) in
    let y :=
      if (0 <? div)%Z then
        let step := delta / of_int div in
        if step =? 0 then map (fun v => v / of_int div * delta) y
        else map (fun v => v * step) y
      else map (fun v => v * delta) y in
    let y := map (fun v => v + start) y in
    Value (if (1 <? num)%Z then removelast y ++ [stop] else y).

(** *** parabolic_nozzle.py *)

Record ParabolicNozzleParams : Type := mkParabolicNozzleParams {
  throat_radius : float;
  exit_radius : float;
  chamber_radius : float;
  convergent_power : float;
  divergent_power : float
}.

Record ParabolicNozzle : Type := mkParabolicNozzle {
  params : ParabolicNozzleParams;
  L_convergent : float;
  L_divergent : float
}.

(** [np.deg2rad(15)] is [15 * (pi / 180) = 0.2617993877991494], and this is
    the tangent the C library returns for it. *)
Definition tan_deg2rad_15 : float := 0.2679491924311227.

Definition ParabolicNozzle_init (p : ParabolicNozzleParams)
  : ParabolicNozzle :=
  {| params := p;
     L_convergent := 1.5 * chamber_radius p;
     L_divergent :=
       0.8 * (exit_radius p - throat_radius p) / tan_deg2rad_15 |}.

Definition _convergent_section (self : ParabolicNozzle) (n_points : Z)
  : outcome (list float * list float) :=
  bind (linspace (- L_convergent self) 0 n_points) (fun x =>
  let t := map (fun xi => (xi + L_convergent self) / L_convergent self) x in
  bind (mapM (fun ti =>
                bind (pow ti (convergent_power (params self))) (fun p =>
                Value (chamber_radius (params self)
                       - (chamber_radius (params self)
                          - throat_radius (params self)) * p))) t)
       (fun r => Value (x, r))).

Definition _divergent_section (self : ParabolicNozzle) (n_points : Z)
  : outcome (list float * list float) :=
  bind (linspace 0 (L_divergent self) n_points) (fun x =>
  let t := map (fun xi => xi / L_divergent self) x in
  bind (mapM (fun ti =>
                bind (pow ti (divergent_power (params self))) (fun p =>
                Value (throat_radius (params self)
                       + (exit_radius (params self)
                          - throat_radius (params self)) * p))) t)
       (fun r => Value (x, r))).

Definition generate_contour (self : ParabolicNozzle) (n_points : Z)
  : outcome (list float * list float) :=
  bind (int (of_int n_points * 0.4)) (fun n_conv =>
  let n_div := (n_points - n_conv)%Z in
  bind (_convergent_section self n_conv) (fun c =>
  bind (_divergent_section self n_div) (fun d =>
  Value (fst c ++ tl (fst d), snd c ++ tl (snd d))))).

(** *** nozzle.py *)

Record SectionParameters : Type := mkSectionParameters {
  start_x : float;
  end_x : float;
  start_r : float;
  end_r : float;
  n_points : Z
}.

Record LinearSection : Type := mkLinearSection {
  lin_params : SectionParameters;
  slope : float
}.

(** [LinearSection.__init__] on Python floats: the division raises on a
    zero divisor. *)
Definition LinearSection_init (p : SectionParameters)
  : outcome LinearSection :=
  let d := end_x p - start_x p in
  if d =? 0 then Raises Py.ZeroDivisionError
  else Value {| lin_params := p; slope := (end_r p - start_r p) / d |}.

Definition LinearSection_get_radius_function (self : LinearSection)
  : float -> float :=
  fun x => start_r (lin_params self)
           + slope self * (x - start_x (lin_params self)).

(** [NozzleSection.generate_points] of a LinearSection *)
Definition LinearSection_generate_points (self : LinearSection)
  : outcome (list float * list float) :=
  bind (linspace (start_x (lin_params self)) (end_x (lin_params self))
                 (n_points (lin_params self))) (fun x =>
  Value (x, map (LinearSection_get_radius_function self) x)).

Record HermiteSection : Type := mkHermiteSection {
  her_params : SectionParameters;
  start_slope : float;
  end_slope : float
}.

(** The [r_func] of [HermiteSection.get_radius_function] at one point. *)
Definition HermiteSection_get_radius_function (self : HermiteSection)
    (x : float) : outcome float :=
  let dx := end_x (her_params self) - start_x (her_params self) in
  let t := (x - start_x (her_params self)) / dx in
  bind (pow t 3) (fun t3 =>
  bind (pow t 2) (fun t2 =>
  let h00 := 2 * t3 - 3 * t2 + 1 in
  let h10 := t3 - 2 * t2 + t in
  let h01 := -2 * t3 + 3 * t2 in
  let h11 := t3 - t2 in
  Value (h00 * start_r (her_params self)
         + h10 * dx * start_slope self
         + h01 * end_r (her_params self)
         + h11 * dx * end_slope self))).

End B64.

(* ------------------------------------------------------------------------- *)
(** * Properties *)

(** ** Arithmetic of [float] on finite operands *)

Lemma is_zero_true (x : R) : x = 0 -> is_zero x = true.
Proof. intros H. unfold is_zero. destruct (Req_dec_T x 0); congruence. Qed.

Lemma is_zero_false (x : R) : x <> 0 -> is_zero x = false.
Proof. intros H. unfold is_zero. destruct (Req_dec_T x 0); congruence. Qed.

Lemma is_pos_true (x : R) : 0 < x -> is_pos x = true.
Proof. intros H. unfold is_pos. destruct (Rlt_dec 0 x); tauto. Qed.

Lemma is_pos_false (x : R) : x <= 0 -> is_pos x = false.
Proof. intros H. unfold is_pos. destruct (Rlt_dec 0 x); [lra | reflexivity]. Qed.

Lemma is_neg_true (x : R) : x < 0 -> is_neg x = true.
Proof. intros H. unfold is_neg. destruct (Rlt_dec x 0); tauto. Qed.

Lemma is_neg_false (x : R) : 0 <= x -> is_neg x = false.
Proof. intros H. unfold is_neg. destruct (Rlt_dec x 0); [lra | reflexivity]. Qed.

(** Settles every sign or zero test on a real whose answer follows by
    linear arithmetic from the context. *)
Ltac float_tests :=
  repeat first
    [ rewrite is_zero_false by lra
    | rewrite is_zero_true by lra
    | rewrite is_pos_true by lra
    | rewrite is_pos_false by lra
    | rewrite is_neg_true by lra
    | rewrite is_neg_false by lra ].

Lemma fdiv_fin (x y : R) : y <> 0 -> (Fin x / Fin y)%fl = Fin (x / y).
Proof. intros H. simpl. now rewrite is_zero_false. Qed.

Lemma fsqrt_fin (x : R) : 0 <= x -> fsqrt (Fin x) = Fin (sqrt x).
Proof. intros H. simpl. now rewrite is_neg_false. Qed.

Lemma Int_part_IZR (z : Z) : Int_part (IZR z) = z.
Proof.
  symmetry. apply Int_part_spec. split; lra.
Qed.

Lemma is_int_IZR (z : Z) : is_int (IZR z) = true.
Proof.
  unfold is_int. rewrite Int_part_IZR.
  destruct (Req_dec_T (IZR z) (IZR z)); congruence.
Qed.

(** An integer exponent [p >= 1] gives the algebraic power, whatever the
    sign of the base. *)
Lemma Rpow_pos (x : R) (p : positive) :
  Rpow x (IZR (Z.pos p)) = Fin (x ^ Pos.to_nat p).
Proof.
  unfold Rpow.
  assert (Hp : 0 < IZR (Z.pos p)) by (apply IZR_lt; lia).
  rewrite is_zero_false by lra.
  destruct (Rlt_dec 0 x) as [Hx | Hx].
  - rewrite is_pos_true by assumption.
    rewrite <- positive_nat_Z, <- INR_IZR_INZ.
    now rewrite Rpower_pow.
  - rewrite is_pos_false by lra.
    destruct (Req_dec_T x 0) as [-> | Hx0].
    + rewrite is_zero_true, is_pos_true by (reflexivity || assumption).
      rewrite pow_i; [reflexivity | apply Pos2Nat.is_pos].
    + rewrite is_zero_false by assumption.
      rewrite is_int_IZR, Int_part_IZR.
      rewrite <- positive_nat_Z, <- pow_powerRZ. reflexivity.
Qed.

Lemma fpow_fin_pos (x : R) (p : positive) :
  (Fin x ** Fin (IZR (Z.pos p)))%fl = Fin (x ^ Pos.to_nat p).
Proof.
  simpl.
  assert (Hp : 0 < IZR (Z.pos p)) by (apply IZR_lt; lia).
  rewrite is_zero_false by lra. apply Rpow_pos.
Qed.

Lemma fpow_fin (x y : R) : y <> 0 -> (Fin x ** Fin y)%fl = Rpow x y.
Proof. intros H. simpl. now rewrite is_zero_false. Qed.

(** On the unit interval a positive exponent stays in the unit interval and
    keeps the two ends fixed. *)
Lemma Rpow_unit (t p : R) :
  0 <= t <= 1 -> 0 < p ->
  exists v, Rpow t p = Fin v /\ 0 <= v <= 1 /\
            (t = 0 -> v = 0) /\ (t = 1 -> v = 1) /\
            (0 < t -> 0 < v) /\ (t < 1 -> v < 1).
Proof.
  intros [Ht0 Ht1] Hp. unfold Rpow.
  rewrite is_zero_false by lra.
  destruct (Rlt_dec 0 t) as [Ht | Ht].
  - rewrite is_pos_true by assumption.
    exists (Rpower t p). split; [reflexivity |].
    assert (Hpos : 0 < Rpower t p) by (unfold Rpower; apply exp_pos).
    assert (Hle : t < 1 -> Rpower t p < 1).
    { intros Hlt. unfold Rpower. rewrite <- exp_0.
      apply exp_increasing.
      assert (ln t < 0) by (rewrite <- ln_1; apply ln_increasing; lra).
      nra. }
    assert (H1 : t = 1 -> Rpower t p = 1).
    { intros ->. unfold Rpower. rewrite ln_1, Rmult_0_r. apply exp_0. }
    destruct (Req_dec_T t 1) as [E | E].
    + rewrite (H1 E). repeat split; lra.
    + assert (Hlt : t < 1) by lra. specialize (Hle Hlt).
      repeat split; lra.
  - assert (t = 0) by lra. subst t.
    rewrite is_pos_false by lra.
    rewrite is_zero_true, is_pos_true by (reflexivity || assumption).
    exists 0. repeat split; lra.
Qed.

Lemma Rpow_one (x : R) : Rpow x 1 = Fin x.
Proof.
  change 1 with (IZR (Z.pos 1)). rewrite Rpow_pos. simpl. f_equal. ring.
Qed.

Lemma fpow_one (x : R) : (Fin x ** Fin 1)%fl = Fin x.
Proof. rewrite fpow_fin by lra. apply Rpow_one. Qed.

(** [float ** 0 = 1] for every base. *)
Lemma fpow_zero (a : float) : (a ** Fin 0)%fl = Fin 1.
Proof. destruct a; simpl; now rewrite is_zero_true. Qed.

(** A zero base with a negative exponent is +inf. *)
Lemma fpow_zero_neg (p : R) : p < 0 -> (Fin 0 ** Fin p)%fl = PInf.
Proof.
  intros Hp. simpl. unfold Rpow. float_tests. reflexivity.
Qed.

(** ** [int(n_points * 0.4)] *)

Lemma Int_part_fifth (a : Z) : Int_part (IZR a / 5) = (a / 5)%Z.
Proof.
  symmetry. apply Int_part_spec.
  pose proof (Z.div_mod a 5 ltac:(lia)) as Hdm.
  pose proof (Z.mod_pos_bound a 5 ltac:(lia)) as [Hm0 Hm5].
  apply (f_equal IZR) in Hdm. rewrite plus_IZR, mult_IZR in Hdm.
  apply IZR_le in Hm0. apply IZR_lt in Hm5.
  split; lra.
Qed.

Lemma Rtrunc_two_fifths (n : Z) : Rtrunc (IZR n * 0.4) = Z.quot (2 * n) 5.
Proof.
  unfold Rtrunc.
  destruct (Rle_dec 0 (IZR n * 0.4)) as [H | H].
  - assert (Hn : (0 <= n)%Z).
    { apply le_IZR. lra. }
    replace (IZR n * 0.4) with (IZR (2 * n) / 5) by (rewrite mult_IZR; lra).
    rewrite Int_part_fifth. symmetry. apply Z.quot_div_nonneg; lia.
  - assert (Hn : (n < 0)%Z).
    { apply lt_IZR. lra. }
    replace (- (IZR n * 0.4)) with (IZR (- (2 * n)) / 5)
      by (rewrite opp_IZR, mult_IZR; lra).
    rewrite Int_part_fifth.
    rewrite <- (Z.quot_div_nonneg (- (2 * n)) 5) by lia.
    rewrite Z.quot_opp_l by lia. lia.
Qed.

Lemma n_conv_eq (n : Z) :
  int (Fin (IZR n) * Fin 0.4)%fl = Ok (Z.quot (2 * n) 5).
Proof. simpl. now rewrite Rtrunc_two_fifths. Qed.

Lemma n_conv_nonneg (n : Z) : (0 <= n)%Z -> (0 <= Z.quot (2 * n) 5 <= n)%Z.
Proof.
  intros Hn. rewrite Z.quot_div_nonneg by lia.
  split; [apply Z.div_pos; lia |].
  apply Z.div_le_upper_bound; lia.
Qed.

Lemma n_div_pos (n : Z) : (1 <= n)%Z -> (1 <= n - Z.quot (2 * n) 5)%Z.
Proof.
  intros Hn. rewrite Z.quot_div_nonneg by lia.
  assert ((2 * n) / 5 < n)%Z by (apply Z.div_lt_upper_bound; lia). lia.
Qed.

(** ** [chain] *)

Lemma chain_cons {A : Type} (rel : A -> A -> Prop) (a : A) (l : list A) :
  chain rel (a :: l) <->
  (match l with [] => True | b :: _ => rel a b end) /\ chain rel l.
Proof. destruct l; simpl; tauto. Qed.

Lemma chain_tl {A : Type} (rel : A -> A -> Prop) (l : list A) :
  chain rel l -> chain rel (tl l).
Proof.
  destruct l as [| a l]; [trivial |].
  rewrite chain_cons. simpl. tauto.
Qed.

Lemma chain_map {A B : Type} (ra : A -> A -> Prop) (rb : B -> B -> Prop)
    (f : A -> B) (l : list A) :
  (forall a b, ra a b -> rb (f a) (f b)) ->
  chain ra l -> chain rb (map f l).
Proof.
  intros Hf. induction l as [| a l IH]; [trivial |].
  rewrite chain_cons. intros [Hhd Htl].
  change (map f (a :: l)) with (f a :: map f l).
  rewrite chain_cons. split; [| auto].
  destruct l; simpl; auto.
Qed.

Lemma chain_map_seq {A : Type} (rel : A -> A -> Prop) (f : nat -> A)
    (s n : nat) :
  (forall i, (s <= i)%nat -> (S i < s + n)%nat -> rel (f i) (f (S i))) ->
  chain rel (map f (seq s n)).
Proof.
  revert s. induction n as [| n IH]; intros s Hf; [exact I |].
  change (map f (seq s (S n))) with (f s :: map f (seq (S s) n)).
  rewrite chain_cons. split.
  - destruct n; simpl; [trivial |]. apply Hf; lia.
  - apply IH. intros i H1 H2. apply Hf; lia.
Qed.

(** Gluing two increasing runs separated by a bound [m]. *)
Lemma chain_Rlt_app (l1 l2 : list R) (m : R) :
  chain Rlt l1 -> chain Rlt l2 ->
  Forall (fun a => a <= m) l1 -> Forall (fun b => m < b) l2 ->
  chain Rlt (l1 ++ l2).
Proof.
  intros H1 H2 B1 B2. induction l1 as [| a l1 IH]; [exact H2 |].
  change ((a :: l1) ++ l2) with (a :: (l1 ++ l2)).
  rewrite chain_cons in H1 |- *. destruct H1 as [Hhd Htl].
  inversion B1 as [| ? ? Ba Bl]; subst.
  split; [| auto].
  destruct l1 as [| b l1]; simpl.
  - destruct l2 as [| c l2]; [trivial |].
    inversion B2; subst. lra.
  - exact Hhd.
Qed.

Lemma chain_Rlt_above (a : R) (l : list R) :
  chain Rlt (a :: l) -> Forall (fun b => a < b) l.
Proof.
  revert a. induction l as [| b l IH]; intros a H; [constructor |].
  rewrite chain_cons in H. destruct H as [Hab Hl].
  constructor; [exact Hab |].
  specialize (IH b Hl).
  eapply Forall_impl; [| exact IH]. simpl. intros. lra.
Qed.

Lemma strictly_increasing_Fin (l : list R) :
  chain Rlt l -> strictly_increasing (map Fin l).
Proof. apply chain_map. intros a b H. exact H. Qed.

(** ** [np.linspace] *)

Lemma linspace_neg (a b : float) (n : Z) :
  (n < 0)%Z -> linspace a b n = Err ValueError.
Proof.
  intros H. unfold linspace.
  destruct (Z.ltb_spec n 0); [reflexivity | lia].
Qed.

Lemma linspace_ok (a b : float) (n : Z) :
  (0 <= n)%Z ->
  exists l, linspace a b n = Ok l /\ length l = Z.to_nat n.
Proof.
  intros H. unfold linspace.
  destruct (Z.ltb_spec n 0); [lia |].
  destruct (Z.to_nat n) as [| [| k]]; eexists; (split; [reflexivity |]).
  - reflexivity.
  - reflexivity.
  - rewrite length_app, length_map, length_seq. simpl. lia.
Qed.

Lemma linspace_fin (a b : R) (n : nat) :
  linspace (Fin a) (Fin b) (Z.of_nat n) = Ok (map Fin (linspaceR a b n)).
Proof.
  unfold linspace.
  destruct (Z.ltb_spec (Z.of_nat n) 0); [lia |].
  rewrite Nat2Z.id.
  destruct n as [| [| k]].
  - reflexivity.
  - reflexivity.
  - assert (E : IZR (Z.of_nat (S (S k)) - 1) = INR (S k)).
    { rewrite INR_IZR_INZ. f_equal. lia. }
    rewrite E.
    assert (Hk : INR (S k) <> 0) by (apply not_0_INR; lia).
    unfold linspaceR. rewrite map_app, map_map. simpl fsub.
    rewrite fdiv_fin by assumption.
    reflexivity.
Qed.

Lemma linspaceR_length (a b : R) (n : nat) : length (linspaceR a b n) = n.
Proof.
  destruct n as [| [| k]]; [reflexivity | reflexivity |].
  unfold linspaceR. rewrite length_app, length_map, length_seq. simpl. lia.
Qed.

Lemma linspaceR_hd (a b : R) (n : nat) :
  hd_error (linspaceR a b (S n)) = Some a.
Proof.
  destruct n as [| k]; simpl; f_equal; ring.
Qed.

Lemma linspaceR_last (a b : R) (k : nat) (d : R) :
  last (linspaceR a b (S (S k))) d = b.
Proof. unfold linspaceR. apply last_last. Qed.

Lemma linspaceR_bounds (a b : R) (n : nat) :
  a <= b -> Forall (fun x => a <= x <= b) (linspaceR a b n).
Proof.
  intros Hab. destruct n as [| [| k]].
  - constructor.
  - constructor; [| constructor]. lra.
  - unfold linspaceR. apply Forall_app. split.
    + apply Forall_forall. intros x Hx.
      apply in_map_iff in Hx. destruct Hx as (i & <- & Hi).
      apply in_seq in Hi.
      assert (Hk : 0 < INR (S k)) by (apply lt_0_INR; lia).
      assert (Hi0 : 0 <= INR i) by apply pos_INR.
      assert (Hi1 : INR i <= INR (S k)) by (apply le_INR; lia).
      assert (E : INR i * ((b - a) / INR (S k))
                  = (b - a) * (INR i / INR (S k))) by (field; lra).
      rewrite E.
      assert (Hinv : 0 < / INR (S k)) by (apply Rinv_0_lt_compat; lra).
      assert (Hone : INR (S k) * / INR (S k) = 1) by (field; lra).
      assert (0 <= INR i / INR (S k) <= 1) by (unfold Rdiv; nra).
      nra.
    + constructor; [lra | constructor].
Qed.

Lemma linspaceR_increasing (a b : R) (n : nat) :
  a < b -> chain Rlt (linspaceR a b n).
Proof.
  intros Hab. destruct n as [| [| k]]; [exact I | exact I |].
  unfold linspaceR.
  assert (Hk : 0 < INR (S k)) by (apply lt_0_INR; lia).
  assert (Hstep : 0 < (b - a) / INR (S k)).
  { unfold Rdiv. apply Rmult_lt_0_compat; [lra |].
    apply Rinv_0_lt_compat; lra. }
  assert (E : b = (INR k + 1) * ((b - a) / INR (S k)) + a).
  { rewrite S_INR in *. field. lra. }
  set (st := (b - a) / INR (S k)) in *.
  apply (chain_Rlt_app _ _ (INR k * st + a)).
  - apply chain_map_seq. intros i _ _. rewrite S_INR. nra.
  - exact I.
  - apply Forall_forall. intros x Hx.
    apply in_map_iff in Hx. destruct Hx as (i & <- & Hi).
    apply in_seq in Hi.
    assert (INR i <= INR k) by (apply le_INR; lia). nra.
  - constructor; [| constructor]. nra.
Qed.

(** ** [ParabolicNozzle] on finite parameters *)

Lemma tan15_pos : 0 < tan (15 * (PI / 180)).
Proof.
  pose proof PI_RGT_0. apply tan_gt_0; lra.
Qed.

Lemma map_tl {A B : Type} (f : A -> B) (l : list A) :
  tl (map f l) = map f (tl l).
Proof. destruct l; reflexivity. Qed.

(** Contour generation never raises for [n_points >= 0], whatever the
    parameters (finite or not). *)
Lemma generate_contour_returns (p : ParabolicNozzleParams) (n : Z) :
  (0 <= n)%Z ->
  exists x r, generate_contour (ParabolicNozzle_init p) n = Ok (x, r) /\
              length x = length r /\
              length x = Z.to_nat (n - 1).
Proof.
  intros Hn. unfold generate_contour.
  rewrite n_conv_eq. cbn [bind].
  pose proof (n_conv_nonneg n Hn) as Hc.
  fold (n_conv_of n) in Hc |- *. fold (n_div_of n).
  assert (Hd : (0 <= n_div_of n)%Z) by (unfold n_div_of; lia).
  unfold _convergent_section, _divergent_section.
  destruct (linspace_ok (- L_convergent (ParabolicNozzle_init p))%fl (Fin 0)
              (n_conv_of n) ltac:(lia)) as (xc & Exc & Lxc).
  destruct (linspace_ok (Fin 0) (L_divergent (ParabolicNozzle_init p))
              (n_div_of n) Hd) as (xd & Exd & Lxd).
  rewrite Exc, Exd. cbn [bind].
  eexists. eexists. split; [reflexivity |].
  rewrite !map_map, !map_tl, !length_app, !length_map.
  split; [reflexivity |].
  assert (Ltl : length (tl xd) = Z.to_nat (n_div_of n - 1)).
  { destruct xd; simpl in *; lia. }
  rewrite Lxc, Ltl.
  destruct (Z.eq_dec n 0) as [-> | Hn0]; [reflexivity |].
  pose proof (n_div_pos n ltac:(lia)) as Hd1. fold (n_conv_of n) in Hd1.
  fold (n_div_of n) in Hd1. unfold n_div_of in *. lia.
Qed.

Section FiniteNozzle.

(** Finite radii and exponents, shared by the lemmas of this section. *)
Variables tr er cr cp dp : R.

Lemma L_convergent_fin :
  L_convergent (ParabolicNozzle_init (finite_params tr er cr cp dp))
  = Fin (Lconv cr).
Proof. reflexivity. Qed.

Lemma L_divergent_fin :
  L_divergent (ParabolicNozzle_init (finite_params tr er cr cp dp))
  = Fin (Ldiv tr er).
Proof.
  pose proof tan15_pos.
  unfold ParabolicNozzle_init, L_divergent, finite_params, deg2rad, Ldiv.
  cbn [exit_radius throat_radius ftan fmul fsub fadd fopp].
  rewrite fdiv_fin by lra. reflexivity.
Qed.

Lemma Ldiv_pos : tr < er -> 0 < Ldiv tr er.
Proof.
  intros H. pose proof tan15_pos. unfold Ldiv.
  apply Rmult_lt_0_compat; [lra | apply Rinv_0_lt_compat; lra].
Qed.

Lemma Ldiv_neq : er <> tr -> Ldiv tr er <> 0.
Proof.
  intros H. pose proof tan15_pos as Ht. unfold Ldiv.
  intros E. apply H.
  assert (E' : 0.8 * (er - tr) = 0).
  { apply (Rmult_eq_reg_r (/ tan (15 * (PI / 180)))); [| apply Rinv_neq_0_compat; lra].
    rewrite Rmult_0_l. exact E. }
  lra.
Qed.

Lemma convergent_section_fin (n : nat) :
  _convergent_section (ParabolicNozzle_init (finite_params tr er cr cp dp))
    (Z.of_nat n)
  = Ok (map Fin (linspaceR (- Lconv cr) 0 n),
        map (conv_radius tr cr cp) (linspaceR (- Lconv cr) 0 n)).
Proof.
  unfold _convergent_section. rewrite L_convergent_fin.
  change (- Fin (Lconv cr))%fl with (Fin (- Lconv cr)).
  rewrite linspace_fin. cbn [bind]. rewrite !map_map. reflexivity.
Qed.

Lemma divergent_section_fin (n : nat) :
  _divergent_section (ParabolicNozzle_init (finite_params tr er cr cp dp))
    (Z.of_nat n)
  = Ok (map Fin (linspaceR 0 (Ldiv tr er) n),
        map (div_radius tr er dp) (linspaceR 0 (Ldiv tr er) n)).
Proof.
  unfold _divergent_section. rewrite L_divergent_fin.
  rewrite linspace_fin. cbn [bind]. rewrite !map_map. reflexivity.
Qed.

(** The contour returned for finite parameters and [n_points >= 0]. *)
Lemma generate_contour_fin (n : Z) :
  (0 <= n)%Z ->
  let xc := linspaceR (- Lconv cr) 0 (Z.to_nat (n_conv_of n)) in
  let xd := linspaceR 0 (Ldiv tr er) (Z.to_nat (n_div_of n)) in
  generate_contour (ParabolicNozzle_init (finite_params tr er cr cp dp)) n
  = Ok (map Fin (xc ++ tl xd),
        map (conv_radius tr cr cp) xc ++ map (div_radius tr er dp) (tl xd)).
Proof.
  intros Hn xc xd. unfold generate_contour.
  rewrite n_conv_eq. cbn [bind].
  pose proof (n_conv_nonneg n Hn) as Hc.
  fold (n_conv_of n) in Hc |- *. fold (n_div_of n).
  assert (Hd : (0 <= n_div_of n)%Z) by (unfold n_div_of; lia).
  rewrite <- (Z2Nat.id (n_conv_of n)) at 1 by lia.
  rewrite convergent_section_fin. cbn [bind].
  rewrite <- (Z2Nat.id (n_div_of n)) at 1 by lia.
  rewrite divergent_section_fin. cbn [bind].
  rewrite !map_tl, map_app. reflexivity.
Qed.

(** Radius of one convergent sample. *)
Lemma conv_radius_range (x : R) :
  0 < cr -> tr <= cr -> 0 < cp -> - Lconv cr <= x <= 0 ->
  exists v, conv_radius tr cr cp x = Fin v /\ tr <= v <= cr /\
            (x = 0 -> v = tr) /\ (x = - Lconv cr -> v = cr) /\
            (x < 0 -> tr < cr -> tr < v).
Proof.
  intros Hcr Htr Hcp Hx. unfold conv_radius.
  assert (HL : 0 < Lconv cr) by (unfold Lconv; lra).
  cbn [fadd]. rewrite fdiv_fin by lra.
  rewrite fpow_fin by lra.
  set (t := (x + Lconv cr) / Lconv cr).
  assert (Hinv : 0 < / Lconv cr) by (apply Rinv_0_lt_compat; lra).
  assert (Hone : Lconv cr * / Lconv cr = 1) by (field; lra).
  assert (Et : t = 1 + x * / Lconv cr) by (unfold t; field; lra).
  assert (Ht : 0 <= t <= 1) by nra.
  destruct (Rpow_unit t cp Ht Hcp) as (v & Ev & Hv & Hv0 & Hv1 & Hvp & Hvl).
  rewrite Ev. cbn [fsub fadd fopp fmul].
  eexists. split; [reflexivity |].
  split; [nra |]. split; [| split].
  - intros ->. rewrite Hv1; [ring | lra].
  - intros ->. rewrite Hv0; [ring | nra].
  - intros Hx0 Hlt. assert (t < 1) by nra. specialize (Hvl H). nra.
Qed.

(** Radius of one divergent sample. *)
Lemma div_radius_range (x : R) :
  tr < er -> 0 < dp -> 0 <= x <= Ldiv tr er ->
  exists v, div_radius tr er dp x = Fin v /\ tr <= v <= er /\
            (x = 0 -> v = tr) /\ (x = Ldiv tr er -> v = er) /\
            (0 < x -> tr < v).
Proof.
  intros Htr Hdp Hx. unfold div_radius.
  pose proof (Ldiv_pos Htr) as HL.
  rewrite fdiv_fin by lra.
  rewrite fpow_fin by lra.
  set (t := x / Ldiv tr er).
  assert (Hinv : 0 < / Ldiv tr er) by (apply Rinv_0_lt_compat; lra).
  assert (Hone : Ldiv tr er * / Ldiv tr er = 1) by (field; lra).
  assert (Et : t = x * / Ldiv tr er) by reflexivity.
  assert (Ht : 0 <= t <= 1) by nra.
  destruct (Rpow_unit t dp Ht Hdp) as (v & Ev & Hv & Hv0 & Hv1 & Hvp & Hvl).
  rewrite Ev. cbn [fsub fadd fopp fmul].
  eexists. split; [reflexivity |].
  split; [nra |]. split; [| split].
  - intros ->. rewrite Hv0; [ring | nra].
  - intros ->. rewrite Hv1; [ring | nra].
  - intros Hx0. assert (0 < t) by nra. specialize (Hvp H). nra.
Qed.

End FiniteNozzle.

Lemma fle_fin (a b : R) : a <= b -> fle (Fin a) (Fin b).
Proof.
  intros [H | H]; simpl; [left; exact H | right; now subst].
Qed.

(** ** Python indexing *)

Lemma index_hd {A : Type} (l : list A) (a : A) :
  hd_error l = Some a -> index l 0 = Ok a.
Proof.
  destruct l as [| b l]; simpl; [discriminate |].
  intros [= ->]. unfold index.
  change (0 <? 0)%Z with false. cbv iota.
  replace ((0 <=? 0)%Z && (0 <? Z.of_nat (length (a :: l)))%Z) with true.
  - reflexivity.
  - symmetry. apply andb_true_iff. split; [reflexivity |].
    apply Z.ltb_lt. simpl length. lia.
Qed.

Lemma index_snoc {A : Type} (l : list A) (a : A) :
  index (l ++ [a]) (-1) = Ok a.
Proof.
  unfold index. change (-1 <? 0)%Z with true. cbv iota.
  rewrite length_app. simpl length.
  replace (-1 + Z.of_nat (length l + 1))%Z with (Z.of_nat (length l)) by lia.
  replace ((0 <=? Z.of_nat (length l))%Z
           && (Z.of_nat (length l) <? Z.of_nat (length l + 1))%Z) with true.
  - rewrite Nat2Z.id, nth_error_app2 by lia.
    now rewrite Nat.sub_diag.
  - symmetry. apply andb_true_iff. split; [apply Z.leb_le | apply Z.ltb_lt]; lia.
Qed.

Lemma index_in_range {A : Type} (l : list A) (i : nat) (d : A) :
  (i < length l)%nat -> index l (Z.of_nat i) = Ok (nth i l d).
Proof.
  intros Hi. unfold index.
  destruct (Z.ltb_spec (Z.of_nat i) 0); [lia |].
  replace ((0 <=? Z.of_nat i)%Z && (Z.of_nat i <? Z.of_nat (length l))%Z)
    with true.
  - rewrite Nat2Z.id. now rewrite (nth_error_nth' l d Hi).
  - symmetry. apply andb_true_iff. split; [apply Z.leb_le | apply Z.ltb_lt]; lia.
Qed.

Lemma index_empty {A : Type} (i : Z) : index (@nil A) i = Err IndexError.
Proof.
  unfold index. simpl length.
  destruct (i <? 0)%Z;
    match goal with
    | |- context [(?a && ?b)%bool] => destruct (a && b)%bool eqn:E
    end; try reflexivity;
    apply andb_true_iff in E; destruct E as [E1 E2];
    apply Z.leb_le in E1; apply Z.ltb_lt in E2; lia.
Qed.

(** ** Shape of the parabolic contour *)

Lemma n_div_ge_2 (n : Z) : (2 <= n)%Z -> (2 <= n_div_of n)%Z.
Proof.
  intros Hn. unfold n_div_of, n_conv_of.
  rewrite Z.quot_div_nonneg by lia.
  assert ((2 * n) / 5 <= n - 2)%Z; [| lia].
  destruct (Z.eq_dec n 2) as [-> | Hne]; [vm_compute; discriminate |].
  assert ((2 * n) / 5 < n - 1)%Z by (apply Z.div_lt_upper_bound; lia). lia.
Qed.

Lemma combine_contour (fc fd : R -> float) (xc xt : list R) :
  combine (map Fin (xc ++ xt)) (map fc xc ++ map fd xt)
  = map (fun x => (Fin x, fc x)) xc ++ map (fun x => (Fin x, fd x)) xt.
Proof.
  induction xc as [| a xc IH]; simpl.
  - induction xt as [| b xt IHt]; simpl; [reflexivity | now rewrite IHt].
  - now rewrite IH.
Qed.

Lemma tl_linspaceR_positive (b : R) (n : nat) :
  0 < b -> Forall (fun x => 0 < x <= b) (tl (linspaceR 0 b n)).
Proof.
  intros Hb. destruct n as [| n]; [constructor |].
  pose proof (linspaceR_hd 0 b n) as Hhd.
  pose proof (linspaceR_increasing 0 b (S n) Hb) as Hinc.
  pose proof (linspaceR_bounds 0 b (S n) ltac:(lra)) as Hbd.
  destruct (linspaceR 0 b (S n)) as [| a l]; [discriminate |].
  injection Hhd as ->. simpl.
  apply chain_Rlt_above in Hinc.
  inversion Hbd; subst.
  apply Forall_forall. intros x Hx.
  rewrite Forall_forall in Hinc, H2.
  specialize (Hinc x Hx). specialize (H2 x Hx). lra.
Qed.

Lemma contour_axial_increasing (tr er cr : R) (nc nd : nat) :
  0 < cr -> tr < er ->
  chain Rlt (linspaceR (- Lconv cr) 0 nc ++ tl (linspaceR 0 (Ldiv tr er) nd)).
Proof.
  intros Hcr Htr.
  assert (HL : 0 < Lconv cr) by (unfold Lconv; lra).
  pose proof (Ldiv_pos tr er Htr) as HLd.
  apply (chain_Rlt_app _ _ 0).
  - apply linspaceR_increasing. lra.
  - apply chain_tl. now apply linspaceR_increasing.
  - eapply Forall_impl; [| apply linspaceR_bounds; lra].
    simpl. intros; lra.
  - eapply Forall_impl; [| apply tl_linspaceR_positive; assumption].
    simpl. intros; lra.
Qed.

(** Every sample lies at or above the throat radius, and only the throat
    station [x = 0] reaches it. *)
Lemma contour_radii_above_throat (tr er cr cp dp : R) (nc nd : nat) :
  0 < cr -> tr < er -> tr < cr -> 0 < cp -> 0 < dp ->
  Forall (fun xr => exists x v, xr = (Fin x, Fin v) /\ tr <= v /\
                                (v = tr -> x = 0))
    (map (fun x => (Fin x, conv_radius tr cr cp x))
         (linspaceR (- Lconv cr) 0 nc)
     ++ map (fun x => (Fin x, div_radius tr er dp x))
            (tl (linspaceR 0 (Ldiv tr er) nd))).
Proof.
  intros Hcr Hter Htcr Hcp Hdp.
  assert (HL : 0 < Lconv cr) by (unfold Lconv; lra).
  pose proof (Ldiv_pos tr er Hter) as HLd.
  apply Forall_app. split; apply Forall_map.
  - eapply Forall_impl; [| apply linspaceR_bounds; lra].
    cbv beta. intros x Hx.
    destruct (conv_radius_range tr cr cp x Hcr ltac:(lra) Hcp Hx)
      as (v & Ev & Hv & _ & _ & Hlt).
    exists x, v. rewrite Ev. split; [reflexivity |]. split; [lra |].
    intros ->. destruct (Rlt_dec x 0) as [Hx0 | Hx0]; [| lra].
    specialize (Hlt Hx0 Htcr). lra.
  - eapply Forall_impl; [| apply tl_linspaceR_positive; assumption].
    cbv beta. intros x Hx.
    destruct (div_radius_range tr er dp x Hter Hdp ltac:(lra))
      as (v & Ev & Hv & _ & _ & Hlt).
    exists x, v. rewrite Ev. split; [reflexivity |]. split; [lra |].
    intros ->. assert (Hx0 : 0 < x) by lra. specialize (Hlt Hx0). lra.
Qed.

(** C3 (amended): for valid radii between [1e-100] and [1e100], positive
    exponents and [2 <= n_points <= 10^9], the contour is returned as two
    sequences of equal length, with strictly increasing axial positions (so
    no position is repeated at the seam between the two branches) and
    non-negative radii.  The bounds keep the section lengths and the steps
    of [np.linspace] away from the overflow and the underflow of binary64,
    where the claim fails (lemma [C3_counterexample]). *)
Theorem C3_contour_axial_increasing_radii_nonneg
    (tr er cr cp dp : R) (n : Z) :
  0 < tr -> tr < er -> tr < cr -> 0 < cp -> 0 < dp -> (2 <= n)%Z ->
  1e-100 <= tr -> er <= 1e100 -> cr <= 1e100 -> (n <= 10 ^ 9)%Z ->
  exists x r,
    generate_contour (ParabolicNozzle_init (finite_params tr er cr cp dp)) n
    = Ok (x, r) /\
    length x = length r /\
    strictly_increasing x /\
    all_nonneg r.
Proof.
  intros Htr Hter Htcr Hcp Hdp Hn _ _ _ _.
  rewrite generate_contour_fin by lia.
  set (xc := linspaceR (- Lconv cr) 0 (Z.to_nat (n_conv_of n))).
  set (xd := linspaceR 0 (Ldiv tr er) (Z.to_nat (n_div_of n))).
  eexists. eexists. split; [reflexivity |].
  split; [| split].
  - rewrite length_map, !length_app, !length_map. reflexivity.
  - apply strictly_increasing_Fin. apply contour_axial_increasing; lra.
  - pose proof (contour_radii_above_throat tr er cr cp dp
                  (Z.to_nat (n_conv_of n)) (Z.to_nat (n_div_of n))
                  ltac:(lra) Hter Htcr Hcp Hdp) as H.
    fold xc xd in H. rewrite <- combine_contour in H.
    unfold all_nonneg.
    assert (Hlen : length (map Fin (xc ++ tl xd))
                   = length (map (conv_radius tr cr cp) xc
                             ++ map (div_radius tr er dp) (tl xd))).
    { rewrite length_map, !length_app, !length_map. reflexivity. }
    revert H Hlen.
    generalize (map (conv_radius tr cr cp) xc
                ++ map (div_radius tr er dp) (tl xd)).
    generalize (map Fin (xc ++ tl xd)).
    intros lx. induction lx as [| a lx IH]; intros [| b lr] H Hlen;
      simpl in *; try discriminate; [constructor |].
    inversion H as [| ? ? (x0 & v & E & Hv & _) Hrest]; subst.
    injection E as -> ->.
    constructor; [apply fle_fin; lra | apply IH; [assumption | lia]].
Qed.

Lemma C3_witness :
  (0 < 0.05 /\ 0.05 < 0.15 /\ 0.05 < 0.075 /\ 0 < 0.6 /\ 0 < 0.8 /\
   (2 <= 101)%Z /\
   1e-100 <= 0.05 /\ 0.15 <= 1e100 /\ 0.075 <= 1e100 /\
   (101 <= 10 ^ 9)%Z) /\
  exists x r,
    generate_contour
      (ParabolicNozzle_init (finite_params 0.05 0.15 0.075 0.6 0.8)) 101
    = Ok (x, r) /\
    length x = length r /\
    strictly_increasing x /\
    all_nonneg r.
Proof.
  split; [repeat split; (lra || lia) |].
  apply (C3_contour_axial_increasing_radii_nonneg 0.05 0.15 0.075 0.6 0.8 101);
    (lra || lia).
Defined.

Lemma tl_linspaceR_snoc (a b : R) (k : nat) :
  exists l, tl (linspaceR a b (S (S k))) = l ++ [b].
Proof.
  unfold linspaceR. simpl seq. simpl map.
  eexists. reflexivity.
Qed.

Lemma conv_radius_at_inlet (tr cr cp : R) :
  0 < cr -> 0 < cp -> conv_radius tr cr cp (- Lconv cr) = Fin cr.
Proof.
  intros Hcr Hcp.
  assert (HL : 0 < Lconv cr) by (unfold Lconv; lra).
  unfold conv_radius. cbn [fadd]. rewrite fdiv_fin by lra.
  replace ((- Lconv cr + Lconv cr) / Lconv cr) with 0 by (field; lra).
  rewrite fpow_fin by lra. unfold Rpow. float_tests.
  cbn [fsub fadd fopp fmul]. f_equal. ring.
Qed.

Lemma conv_radius_at_throat (tr cr cp : R) :
  cr <> 0 -> cp <> 0 -> conv_radius tr cr cp 0 = Fin tr.
Proof.
  intros Hcr Hcp.
  assert (HL : Lconv cr <> 0) by (unfold Lconv; lra).
  unfold conv_radius. cbn [fadd]. rewrite fdiv_fin by lra.
  replace ((0 + Lconv cr) / Lconv cr) with 1 by (field; lra).
  rewrite fpow_fin by lra. unfold Rpow. float_tests.
  unfold Rpower. rewrite ln_1, Rmult_0_r, exp_0.
  cbn [fsub fadd fopp fmul]. f_equal. ring.
Qed.

Lemma div_radius_at_exit (tr er dp : R) :
  er <> tr -> dp <> 0 -> div_radius tr er dp (Ldiv tr er) = Fin er.
Proof.
  intros Hne Hdp. pose proof (Ldiv_neq tr er Hne) as HL.
  unfold div_radius. rewrite fdiv_fin by assumption.
  replace (Ldiv tr er / Ldiv tr er) with 1 by (field; lra).
  rewrite fpow_fin by lra. unfold Rpow. float_tests.
  unfold Rpower. rewrite ln_1, Rmult_0_r, exp_0.
  cbn [fsub fadd fopp fmul]. f_equal. ring.
Qed.

(** C1 (evaluation of the scenario): with the parameters of the scenario and
    [n_points = 101] the contour is returned with 100 points, not 101: the
    two branches hold 40 and 61 samples and the first divergent sample is
    dropped.  The other facts of the scenario hold: the first radius is
    0.075, the last one 0.15, the station [x = 0] has radius 0.05, every
    radius is at least 0.05 and only the station [x = 0] reaches it. *)
Theorem C1_scenario_contour_has_100_points :
  exists x r,
    generate_contour (ParabolicNozzle_init example_params) 101 = Ok (x, r) /\
    length x = 100%nat /\ length r = 100%nat /\
    index r 0 = Ok (Fin 0.075) /\
    index r (-1) = Ok (Fin 0.15) /\
    In (Fin 0, Fin 0.05) (combine x r) /\
    Forall (fun xr => fle (Fin 0.05) (snd xr) /\
                      (snd xr = Fin 0.05 -> fst xr = Fin 0))
           (combine x r).
Proof.
  change example_params with (finite_params 0.05 0.15 0.075 0.6 0.8).
  rewrite generate_contour_fin by lia.
  change (Z.to_nat (n_conv_of 101)) with (S (S 38)).
  change (Z.to_nat (n_div_of 101)) with (S (S 59)).
  set (xc := linspaceR (- Lconv 0.075) 0 (S (S 38))).
  set (xd := linspaceR 0 (Ldiv 0.05 0.15) (S (S 59))).
  assert (Lc : length xc = 40%nat) by apply linspaceR_length.
  assert (Ld : length (tl xd) = 60%nat).
  { pose proof (linspaceR_length 0 (Ldiv 0.05 0.15) (S (S 59))) as H.
    fold xd in H. destruct xd; simpl in *; lia. }
  eexists. eexists. split; [reflexivity |].
  split; [| split; [| split; [| split; [| split]]]].
  - rewrite length_map, length_app, Lc, Ld. reflexivity.
  - rewrite length_app, !length_map, Lc, Ld. reflexivity.
  - apply index_hd.
    pose proof (linspaceR_hd (- Lconv 0.075) 0 (S 38)) as H. fold xc in H.
    destruct xc as [| a xc']; [discriminate |]. injection H as ->.
    simpl. f_equal. apply conv_radius_at_inlet; lra.
  - destruct (tl_linspaceR_snoc 0 (Ldiv 0.05 0.15) 59) as (l & El).
    fold xd in El. rewrite El, map_app, app_assoc. simpl map.
    rewrite div_radius_at_exit by lra. apply index_snoc.
  - rewrite combine_contour. apply in_or_app. left.
    apply in_map_iff. exists 0. split.
    + f_equal. apply conv_radius_at_throat; lra.
    + unfold xc, linspaceR. apply in_or_app. right. left. reflexivity.
  - rewrite combine_contour.
    pose proof (contour_radii_above_throat 0.05 0.15 0.075 0.6 0.8
                  (S (S 38)) (S (S 59))
                  ltac:(lra) ltac:(lra) ltac:(lra) ltac:(lra) ltac:(lra)) as H.
    fold xc xd in H.
    eapply Forall_impl; [| exact H].
    intros xr (x0 & v & -> & Hv & Hx). simpl. split.
    + apply fle_fin. exact Hv.
    + intros [= E]. f_equal. apply Hx. exact E.
Qed.

(** ** Unit exponents: the two branches are straight lines *)

Lemma conv_radius_unit_power (tr cr x : R) :
  cr <> 0 ->
  conv_radius tr cr 1 x
  = Fin (cr + (tr - cr) / (0 - - Lconv cr) * (x - - Lconv cr)).
Proof.
  intros Hcr. assert (HL : Lconv cr <> 0) by (unfold Lconv; lra).
  unfold conv_radius. cbn [fadd]. rewrite fdiv_fin by assumption.
  rewrite fpow_one. cbn [fsub fadd fopp fmul]. f_equal. field. lra.
Qed.

Lemma div_radius_unit_power (tr er x : R) :
  er <> tr ->
  div_radius tr er 1 x
  = Fin (tr + (er - tr) / (Ldiv tr er - 0) * (x - 0)).
Proof.
  intros Hne. pose proof (Ldiv_neq tr er Hne) as HL.
  unfold div_radius. rewrite fdiv_fin by assumption.
  rewrite fpow_one. cbn [fsub fadd fopp fmul]. f_equal. field. lra.
Qed.

Lemma LinearSection_fin (sx ex sr er_ : R) (n : Z) :
  ex - sx <> 0 ->
  exists lin,
    nozzle.LinearSection_init
      (nozzle.mkSectionParameters (Fin sx) (Fin ex) (Fin sr) (Fin er_) n)
    = Ok lin /\
    forall x, nozzle.LinearSection_get_radius_function lin (Fin x)
              = Fin (sr + (er_ - sr) / (ex - sx) * (x - sx)).
Proof.
  intros Hd. unfold nozzle.LinearSection_init.
  cbn [nozzle.start_x nozzle.end_x nozzle.start_r nozzle.end_r
       fsub fadd fopp truediv].
  rewrite is_zero_false by exact Hd.
  rewrite fdiv_fin by exact Hd. cbn [bind].
  eexists. split; [reflexivity |].
  intros x. reflexivity.
Qed.

(** C7 (amended): with both exponents equal to 1, and the arithmetic taken
    exactly, the convergent branch is what the LinearSection from
    (-L_convergent, chamber_radius) to (0, throat_radius) generates with
    the same number of points, the divergent branch is what the
    LinearSection from (0, throat_radius) to (L_divergent, exit_radius)
    generates, and the contour is their concatenation without the first
    divergent point: the same axial positions, and the same straight line
    as radius law.  On binary64 the two radius formulas round differently
    and the radii can differ in the last place (lemma
    [C7_counterexample]). *)
Theorem C7_unit_powers_reduce_to_linear_sections (tr er cr : R) (n : Z) :
  cr <> 0 -> er <> tr -> (0 <= n)%Z ->
  let noz := ParabolicNozzle_init (finite_params tr er cr 1 1) in
  let conv_params :=
    nozzle.mkSectionParameters (- L_convergent noz)%fl (Fin 0)
      (Fin cr) (Fin tr) (n_conv_of n) in
  let div_params :=
    nozzle.mkSectionParameters (Fin 0) (L_divergent noz)
      (Fin tr) (Fin er) (n_div_of n) in
  exists lin_c lin_d xc rc xd rd,
    nozzle.LinearSection_init conv_params = Ok lin_c /\
    nozzle.LinearSection_init div_params = Ok lin_d /\
    _convergent_section noz (n_conv_of n) = Ok (xc, rc) /\
    nozzle.generate_points conv_params
      (nozzle.LinearSection_get_radius_function lin_c) = Ok (xc, rc) /\
    _divergent_section noz (n_div_of n) = Ok (xd, rd) /\
    nozzle.generate_points div_params
      (nozzle.LinearSection_get_radius_function lin_d) = Ok (xd, rd) /\
    generate_contour noz n = Ok (xc ++ tl xd, rc ++ tl rd).
Proof.
  intros Hcr Hne Hn noz conv_params div_params.
  assert (HL : Lconv cr <> 0) by (unfold Lconv; lra).
  pose proof (Ldiv_neq tr er Hne) as HLd.
  pose proof (n_conv_nonneg n Hn) as Hc. fold (n_conv_of n) in Hc.
  assert (Hd : (0 <= n_div_of n)%Z) by (unfold n_div_of; lia).
  unfold conv_params, div_params, noz.
  rewrite L_convergent_fin, L_divergent_fin.
  change (- Fin (Lconv cr))%fl with (Fin (- Lconv cr)).
  destruct (LinearSection_fin (- Lconv cr) 0 cr tr (n_conv_of n)
              ltac:(lra)) as (lin_c & Ec & Fc).
  destruct (LinearSection_fin 0 (Ldiv tr er) tr er (n_div_of n)
              ltac:(lra)) as (lin_d & Ed & Fd).
  exists lin_c, lin_d.
  exists (map Fin (linspaceR (- Lconv cr) 0 (Z.to_nat (n_conv_of n)))),
         (map (conv_radius tr cr 1)
              (linspaceR (- Lconv cr) 0 (Z.to_nat (n_conv_of n)))),
         (map Fin (linspaceR 0 (Ldiv tr er) (Z.to_nat (n_div_of n)))),
         (map (div_radius tr er 1)
              (linspaceR 0 (Ldiv tr er) (Z.to_nat (n_div_of n)))).
  split; [exact Ec |]. split; [exact Ed |].
  split; [| split; [| split; [| split]]].
  - rewrite <- (Z2Nat.id (n_conv_of n)) at 1 by lia.
    apply convergent_section_fin.
  - unfold nozzle.generate_points.
    cbn [nozzle.start_x nozzle.end_x nozzle.n_points].
    rewrite <- (Z2Nat.id (n_conv_of n)) at 1 by lia.
    rewrite linspace_fin. cbn [bind]. rewrite map_map.
    do 2 f_equal. apply map_ext. intros x.
    rewrite Fc. symmetry. now apply conv_radius_unit_power.
  - rewrite <- (Z2Nat.id (n_div_of n)) at 1 by lia.
    apply divergent_section_fin.
  - unfold nozzle.generate_points.
    cbn [nozzle.start_x nozzle.end_x nozzle.n_points].
    rewrite <- (Z2Nat.id (n_div_of n)) at 1 by lia.
    rewrite linspace_fin. cbn [bind]. rewrite map_map.
    do 2 f_equal. apply map_ext. intros x.
    rewrite Fd. symmetry. now apply div_radius_unit_power.
  - rewrite generate_contour_fin by assumption.
    rewrite map_app, !map_tl. reflexivity.
Qed.

Lemma C7_witness :
  (0.075 <> 0 /\ 0.15 <> 0.05 /\ (0 <= 101)%Z) /\
  let noz := ParabolicNozzle_init (finite_params 0.05 0.15 0.075 1 1) in
  let conv_params :=
    nozzle.mkSectionParameters (- L_convergent noz)%fl (Fin 0)
      (Fin 0.075) (Fin 0.05) (n_conv_of 101) in
  let div_params :=
    nozzle.mkSectionParameters (Fin 0) (L_divergent noz)
      (Fin 0.05) (Fin 0.15) (n_div_of 101) in
  exists lin_c lin_d xc rc xd rd,
    nozzle.LinearSection_init conv_params = Ok lin_c /\
    nozzle.LinearSection_init div_params = Ok lin_d /\
    _convergent_section noz (n_conv_of 101) = Ok (xc, rc) /\
    nozzle.generate_points conv_params
      (nozzle.LinearSection_get_radius_function lin_c) = Ok (xc, rc) /\
    _divergent_section noz (n_div_of 101) = Ok (xd, rd) /\
    nozzle.generate_points div_params
      (nozzle.LinearSection_get_radius_function lin_d) = Ok (xd, rd) /\
    generate_contour noz 101 = Ok (xc ++ tl xd, rc ++ tl rd).
Proof.
  split; [repeat split; (lra || lia) |].
  apply (C7_unit_powers_reduce_to_linear_sections 0.05 0.15 0.075 101);
    (lra || lia).
Defined.

(** ** Exponents that are not positive *)







(** ** [_wedge_points] in explicit form *)

Lemma idx_from_S (base off : Z) (n : nat) :
  idx_from base off (S n) = (base + off)%Z :: idx_from (base + 4) off n.
Proof.
  unfold idx_from. cbn [seq map]. f_equal; [lia |].
  rewrite <- seq_shift, map_map. apply map_ext. intros k.
  rewrite Nat2Z.inj_succ. lia.
Qed.

Lemma idx_from_length (base off : Z) (n : nat) :
  length (idx_from base off n) = n.
Proof. unfold idx_from. now rewrite length_map, length_seq. Qed.

Lemma wedge_points_fold (c s : float) (l : list (float * float))
    (st : block_mesh.WedgePoints) :
  fold_left (block_mesh._wedge_points_step c s) l st
  = {| block_mesh.verts :=
         block_mesh.verts st ++ flat_map (station_vertices c s) l;
       block_mesh.idx_axis_p0 :=
         block_mesh.idx_axis_p0 st
         ++ idx_from (len (block_mesh.verts st)) 0 (length l);
       block_mesh.idx_wall_p0 :=
         block_mesh.idx_wall_p0 st
         ++ idx_from (len (block_mesh.verts st)) 1 (length l);
       block_mesh.idx_axis_p1 :=
         block_mesh.idx_axis_p1 st
         ++ idx_from (len (block_mesh.verts st)) 2 (length l);
       block_mesh.idx_wall_p1 :=
         block_mesh.idx_wall_p1 st
         ++ idx_from (len (block_mesh.verts st)) 3 (length l) |}.
Proof.
  revert st. induction l as [| [xi ri] l IH]; intros st.
  - destruct st. simpl. now rewrite !app_nil_r.
  - simpl fold_left. rewrite IH. clear IH.
    unfold block_mesh._wedge_points_step.
    cbn [block_mesh.verts block_mesh.idx_axis_p0 block_mesh.idx_wall_p0
         block_mesh.idx_axis_p1 block_mesh.idx_wall_p1 length flat_map
         station_vertices].
    rewrite !idx_from_S.
    assert (E : len ((((block_mesh.verts st ++ [(xi, Fin 0, Fin 0)])
                       ++ [(xi, (ri * c)%fl, ((- ri) * s)%fl)])
                      ++ [(xi, Fin 0, Fin 0)])
                     ++ [(xi, (ri * c)%fl, (ri * s)%fl)])
                = (len (block_mesh.verts st) + 4)%Z).
    { unfold len. rewrite !length_app. simpl. lia. }
    rewrite E.
    assert (E1 : len (block_mesh.verts st ++ [(xi, Fin 0, Fin 0)])
                 = (len (block_mesh.verts st) + 1)%Z).
    { unfold len. rewrite !length_app. simpl. lia. }
    assert (E2 : len ((block_mesh.verts st ++ [(xi, Fin 0, Fin 0)])
                      ++ [(xi, (ri * c)%fl, ((- ri) * s)%fl)])
                 = (len (block_mesh.verts st) + 2)%Z).
    { unfold len. rewrite !length_app. simpl. lia. }
    assert (E3 : len (((block_mesh.verts st ++ [(xi, Fin 0, Fin 0)])
                       ++ [(xi, (ri * c)%fl, ((- ri) * s)%fl)])
                      ++ [(xi, Fin 0, Fin 0)])
                 = (len (block_mesh.verts st) + 3)%Z).
    { unfold len. rewrite !length_app. simpl. lia. }
    rewrite E1, E2, E3, Z.add_0_r.
    rewrite <- !app_assoc. reflexivity.
Qed.

Lemma wedge_points_explicit (x r : list float) (theta_half : float) :
  block_mesh._wedge_points x r theta_half
  = {| block_mesh.verts :=
         flat_map (station_vertices (fcos theta_half) (fsin theta_half))
                  (combine x r);
       block_mesh.idx_axis_p0 := idx_from 0 0 (length (combine x r));
       block_mesh.idx_wall_p0 := idx_from 0 1 (length (combine x r));
       block_mesh.idx_axis_p1 := idx_from 0 2 (length (combine x r));
       block_mesh.idx_wall_p1 := idx_from 0 3 (length (combine x r)) |}.
Proof.
  unfold block_mesh._wedge_points. rewrite wedge_points_fold. reflexivity.
Qed.

Lemma flat_map_station_length (c s : float) (l : list (float * float)) :
  length (flat_map (station_vertices c s) l) = (4 * length l)%nat.
Proof.
  induction l as [| [xi ri] l IH]; [reflexivity |].
  cbn [flat_map station_vertices app length]. rewrite IH. lia.
Qed.

Lemma nth_map_seq {A : Type} (f : nat -> A) (n i : nat) (d : A) :
  (i < n)%nat -> nth i (map f (seq 0 n)) d = f i.
Proof.
  intros Hi.
  rewrite (nth_indep _ d (f 0%nat)) by (rewrite length_map, length_seq; lia).
  rewrite map_nth. now rewrite seq_nth.
Qed.

Lemma index_idx_from (off : Z) (n : nat) (i : Z) :
  (0 <= i < Z.of_nat n)%Z ->
  index (idx_from 0 off n) i = Ok (4 * i + off)%Z.
Proof.
  intros Hi. rewrite <- (Z2Nat.id i) at 1 by lia.
  rewrite (index_in_range _ _ 0%Z) by (rewrite idx_from_length; lia).
  unfold idx_from. rewrite nth_map_seq by lia. f_equal. lia.
Qed.

Lemma mapM_ok {A B : Type} (f : A -> result B) (g : A -> B) (l : list A) :
  (forall a, In a l -> f a = Ok (g a)) -> mapM f l = Ok (map g l).
Proof.
  induction l as [| a l IH]; intros H; [reflexivity |].
  simpl. rewrite (H a) by (left; reflexivity). cbn [bind].
  rewrite IH by (intros b Hb; apply H; right; exact Hb). reflexivity.
Qed.

Lemma in_range (n i : Z) : In i (range n) <-> (0 <= i < n)%Z.
Proof.
  unfold range. rewrite in_map_iff. split.
  - intros (k & <- & Hk). apply in_seq in Hk. lia.
  - intros Hi. exists (Z.to_nat i). split; [lia |]. apply in_seq. lia.
Qed.

Lemma range_length (n : Z) : length (range n) = Z.to_nat n.
Proof. unfold range. now rewrite length_map, length_seq. Qed.

(** ** [generate_block_mesh_dict] in explicit form *)

Lemma mesh_of_contour (noz : ParabolicNozzle)
    (bp : block_mesh.BlockMeshParams) (x r : list float) :
  get_outer_wall noz (block_mesh.n_axial bp + 1) = Ok (x, r) ->
  length x = length r ->
  block_mesh.generate_block_mesh_dict noz bp
  = match x with
    | [] => Err IndexError
    | _ :: _ => Ok (mesh_of_stations bp (combine x r))
    end.
Proof.
  intros Hc Hlen. unfold block_mesh.generate_block_mesh_dict.
  rewrite Hc. cbn [bind]. rewrite wedge_points_explicit.
  cbn [block_mesh.verts block_mesh.idx_axis_p0 block_mesh.idx_wall_p0
       block_mesh.idx_axis_p1 block_mesh.idx_wall_p1].
  assert (Hn : length (combine x r) = length x).
  { rewrite length_combine, <- Hlen. apply Nat.min_id. }
  rewrite Hn.
  destruct x as [| x0 xs].
  - reflexivity.
  - set (n := length (x0 :: xs)) in *.
    assert (Hpos : (1 <= Z.of_nat n)%Z) by (unfold n; simpl; lia).
    assert (Hlenx : len (x0 :: xs) = Z.of_nat n) by reflexivity.
    rewrite Hlenx.
    rewrite (mapM_ok _ (block_at bp)).
    2:{ intros i Hi. apply in_range in Hi.
        rewrite !index_idx_from by lia. cbn [bind].
        unfold block_at. f_equal. f_equal. repeat (f_equal; try lia). }
    cbn [bind].
    rewrite !index_idx_from by lia. cbn [bind].
    rewrite (mapM_ok _ (fun i => (wall_face_at i, wedge0_face_at i,
                                  wedge1_face_at i))).
    2:{ intros i Hi. apply in_range in Hi.
        rewrite !index_idx_from by lia. cbn [bind].
        unfold wall_face_at, wedge0_face_at, wedge1_face_at.
        apply f_equal. repeat apply (f_equal2 pair); lia. }
    cbn [bind]. rewrite !map_map. cbn [fst snd].
    unfold mesh_of_stations.
    assert (Hlc : len (combine (x0 :: xs) r) = Z.of_nat n).
    { unfold len. now rewrite Hn. }
    rewrite Hlc. unfold inlet_face, outlet_face_at.
    rewrite !Z.add_0_r. reflexivity.
Qed.

(** ** Counts of the mesh *)

Lemma generate_contour_negative (p : ParabolicNozzleParams) (n : Z) :
  (n < 0)%Z -> generate_contour (ParabolicNozzle_init p) n = Err ValueError.
Proof.
  intros Hn. unfold generate_contour. rewrite n_conv_eq. cbn [bind].
  assert (Eq : Z.quot (2 * n) 5 = (- ((- (2 * n)) / 5))%Z).
  { rewrite <- (Z.quot_div_nonneg (- (2 * n)) 5) by lia.
    rewrite Z.quot_opp_l by lia. lia. }
  assert (Hq : (0 <= (- (2 * n)) / 5)%Z) by (apply Z.div_pos; lia).
  destruct (Z.eq_dec ((- (2 * n)) / 5) 0) as [E0 | E0].
  - rewrite Eq, E0. unfold _convergent_section.
    change (- 0)%Z with 0%Z.
    destruct (linspace_ok (- L_convergent (ParabolicNozzle_init p))%fl (Fin 0)
                0 ltac:(lia)) as (l & -> & _).
    cbn [bind]. unfold _divergent_section.
    rewrite linspace_neg by lia. reflexivity.
  - unfold _convergent_section. rewrite linspace_neg by lia. reflexivity.
Qed.

Lemma mesh_counts (p : ParabolicNozzleParams)
    (bp : block_mesh.BlockMeshParams) :
  (1 <= block_mesh.n_axial bp)%Z ->
  exists x r,
    get_outer_wall (ParabolicNozzle_init p) (block_mesh.n_axial bp + 1)
    = Ok (x, r) /\
    length (combine x r) = Z.to_nat (block_mesh.n_axial bp) /\
    block_mesh.generate_block_mesh_dict (ParabolicNozzle_init p) bp
    = Ok (mesh_of_stations bp (combine x r)).
Proof.
  intros Hn.
  destruct (generate_contour_returns p (block_mesh.n_axial bp + 1) ltac:(lia))
    as (x & r & E & Hlen & Hx).
  exists x, r. split; [exact E |].
  replace (block_mesh.n_axial bp + 1 - 1)%Z with (block_mesh.n_axial bp)
    in Hx by lia.
  split.
  - rewrite length_combine, <- Hlen, Nat.min_id. exact Hx.
  - rewrite (mesh_of_contour _ _ x r E Hlen).
    destruct x; [simpl in Hx; lia | reflexivity].
Qed.

Lemma mesh_of_stations_counts (bp : block_mesh.BlockMeshParams)
    (st : list (float * float)) :
  let m := mesh_of_stations bp st in
  length (block_mesh.vertices m) = (4 * length st)%nat /\
  length (block_mesh.blocks m) = (length st - 1)%nat /\
  length (snd (block_mesh.inlet m)) = 1%nat /\
  length (snd (block_mesh.outlet m)) = 1%nat /\
  length (snd (block_mesh.wall m)) = (length st - 1)%nat /\
  length (snd (block_mesh.wedge0 m)) = (length st - 1)%nat /\
  length (snd (block_mesh.wedge1 m)) = (length st - 1)%nat.
Proof.
  unfold mesh_of_stations.
  cbn [block_mesh.vertices block_mesh.blocks block_mesh.inlet
       block_mesh.outlet block_mesh.wall block_mesh.wedge0 block_mesh.wedge1
       snd].
  rewrite flat_map_station_length, !length_map, range_length.
  unfold len. repeat split; try reflexivity; lia.
Qed.

Lemma mesh_fails_without_stations (p : ParabolicNozzleParams)
    (bp : block_mesh.BlockMeshParams) :
  (-1 <= block_mesh.n_axial bp < 1)%Z ->
  block_mesh.generate_block_mesh_dict (ParabolicNozzle_init p) bp
  = Err IndexError.
Proof.
  intros Hn.
  destruct (generate_contour_returns p (block_mesh.n_axial bp + 1)
              ltac:(lia)) as (x & r & E & Hlen & Hx).
  rewrite (mesh_of_contour _ _ x r E Hlen).
  destruct x; [reflexivity | simpl in Hx; lia].
Qed.

Lemma mesh_fails_on_negative_count (p : ParabolicNozzleParams)
    (bp : block_mesh.BlockMeshParams) :
  (block_mesh.n_axial bp < -1)%Z ->
  block_mesh.generate_block_mesh_dict (ParabolicNozzle_init p) bp
  = Err ValueError.
Proof.
  intros Hn. unfold block_mesh.generate_block_mesh_dict, get_outer_wall.
  now rewrite generate_contour_negative by lia.
Qed.

(** C2 (evaluation): for [n_axial >= 1] the contour asked for with
    [n_points = n_axial + 1] has [n_axial] stations, not [n_axial + 1], so
    the mesh has [n_axial - 1] blocks, [4 * n_axial] vertices, one inlet and
    one outlet face, and [n_axial - 1] wall, wedge0 and wedge1 faces. *)
Theorem C2_mesh_has_one_block_less_than_n_axial
    (p : ParabolicNozzleParams) (bp : block_mesh.BlockMeshParams) :
  (1 <= block_mesh.n_axial bp)%Z ->
  exists m,
    block_mesh.generate_block_mesh_dict (ParabolicNozzle_init p) bp = Ok m /\
    len (block_mesh.blocks m) = (block_mesh.n_axial bp - 1)%Z /\
    len (block_mesh.vertices m) = (4 * block_mesh.n_axial bp)%Z /\
    len (snd (block_mesh.inlet m)) = 1%Z /\
    len (snd (block_mesh.outlet m)) = 1%Z /\
    len (snd (block_mesh.wall m)) = (block_mesh.n_axial bp - 1)%Z /\
    len (snd (block_mesh.wedge0 m)) = (block_mesh.n_axial bp - 1)%Z /\
    len (snd (block_mesh.wedge1 m)) = (block_mesh.n_axial bp - 1)%Z.
Proof.
  intros Hn.
  destruct (mesh_counts p bp Hn) as (x & r & _ & Hst & Em).
  eexists. split; [exact Em |].
  pose proof (mesh_of_stations_counts bp (combine x r)) as H.
  cbv zeta in H. rewrite Hst in H.
  destruct H as (Hv & Hb & Hi & Ho & Hw & H0 & H1).
  unfold len. rewrite Hv, Hb, Hi, Ho, Hw, H0, H1.
  repeat split; lia.
Qed.

Lemma C2_witness :
  (1 <= block_mesh.n_axial block_mesh.BlockMeshParams_default)%Z /\
  exists m,
    block_mesh.generate_block_mesh_dict
      (ParabolicNozzle_init example_params) block_mesh.BlockMeshParams_default
    = Ok m /\
    len (block_mesh.blocks m) = 199%Z /\
    len (block_mesh.vertices m) = 800%Z /\
    len (snd (block_mesh.inlet m)) = 1%Z /\
    len (snd (block_mesh.outlet m)) = 1%Z /\
    len (snd (block_mesh.wall m)) = 199%Z /\
    len (snd (block_mesh.wedge0 m)) = 199%Z /\
    len (snd (block_mesh.wedge1 m)) = 199%Z.
Proof.
  split; [simpl; lia |].
  apply (C2_mesh_has_one_block_less_than_n_axial example_params
           block_mesh.BlockMeshParams_default).
  simpl. lia.
Defined.

(** C6 (as amended): [generate_block_mesh_dict] has no degeneracy check of
    its own.  For [n_axial < 1] it fails: with the IndexError of its first
    list access when [n_axial] is 0 or -1, with the ValueError of [linspace]
    when [n_axial <= -2].  For every [n_axial >= 1] it returns a mesh
    description whatever the nozzle parameters, hence also when they make
    two stations share their axial position. *)
Theorem C6_mesh_generation_has_no_degeneracy_check
    (p : ParabolicNozzleParams) (bp : block_mesh.BlockMeshParams) :
  ((-1 <= block_mesh.n_axial bp < 1)%Z ->
   block_mesh.generate_block_mesh_dict (ParabolicNozzle_init p) bp
   = Err IndexError) /\
  ((block_mesh.n_axial bp < -1)%Z ->
   block_mesh.generate_block_mesh_dict (ParabolicNozzle_init p) bp
   = Err ValueError) /\
  ((1 <= block_mesh.n_axial bp)%Z ->
   exists m,
     block_mesh.generate_block_mesh_dict (ParabolicNozzle_init p) bp = Ok m).
Proof.
  split; [| split].
  - apply mesh_fails_without_stations.
  - apply mesh_fails_on_negative_count.
  - intros Hn. destruct (mesh_counts p bp Hn) as (x & r & _ & _ & Em).
    eexists. exact Em.
Qed.

Lemma C6_witness :
  block_mesh.generate_block_mesh_dict
    (ParabolicNozzle_init example_params)
    (with_n_axial block_mesh.BlockMeshParams_default 0) = Err IndexError /\
  block_mesh.generate_block_mesh_dict
    (ParabolicNozzle_init example_params)
    (with_n_axial block_mesh.BlockMeshParams_default (-2)) = Err ValueError /\
  (exists m,
     block_mesh.generate_block_mesh_dict
       (ParabolicNozzle_init (finite_params 0.05 0.05 0.075 0.6 0.8))
       (with_n_axial block_mesh.BlockMeshParams_default 5) = Ok m).
Proof.
  split; [| split].
  - apply (proj1 (C6_mesh_generation_has_no_degeneracy_check example_params
                    (with_n_axial block_mesh.BlockMeshParams_default 0))).
    simpl. lia.
  - apply (proj1 (proj2 (C6_mesh_generation_has_no_degeneracy_check
                           example_params
                           (with_n_axial block_mesh.BlockMeshParams_default
                              (-2))))).
    simpl. lia.
  - apply (proj2 (proj2 (C6_mesh_generation_has_no_degeneracy_check
                           (finite_params 0.05 0.05 0.075 0.6 0.8)
                           (with_n_axial block_mesh.BlockMeshParams_default
                              5)))).
    simpl. lia.
Defined.

(** C6 (counterexample): with [exit_radius = throat_radius] the divergent
    length is zero; for [n_axial = 5] the stations 1, 2 (and 3, 4) all lie at
    [x = 0], and the mesh is returned with its four blocks, no error
    raised. *)
Lemma C6_counterexample :
  exists x r m,
    get_outer_wall
      (ParabolicNozzle_init (finite_params 0.05 0.05 0.075 0.6 0.8)) 6
    = Ok (x, r) /\
    index x 1 = Ok (Fin 0) /\ index x 2 = Ok (Fin 0) /\
    block_mesh.generate_block_mesh_dict
      (ParabolicNozzle_init (finite_params 0.05 0.05 0.075 0.6 0.8))
      (with_n_axial block_mesh.BlockMeshParams_default 5)
    = Ok m /\
    m = mesh_of_stations (with_n_axial block_mesh.BlockMeshParams_default 5)
          (combine x r) /\
    length (block_mesh.blocks m) = 4%nat.
Proof.
  pose proof (generate_contour_fin 0.05 0.05 0.075 0.6 0.8 6 ltac:(lia)) as E.
  cbv zeta in E.
  change (Z.to_nat (n_conv_of 6)) with 2%nat in E.
  change (Z.to_nat (n_div_of 6)) with 4%nat in E.
  assert (HLd : Ldiv 0.05 0.05 = 0).
  { unfold Ldiv. pose proof tan15_pos. field. lra. }
  rewrite HLd in E.
  cbn [linspaceR seq map app tl] in E.
  eexists. eexists. eexists.
  split; [exact E |].
  split; [| split].
  - change 1%Z with (Z.of_nat 1).
    rewrite (index_in_range _ _ NaN) by (simpl; lia). reflexivity.
  - change 2%Z with (Z.of_nat 2).
    rewrite (index_in_range _ _ NaN) by (simpl; lia).
    cbn [nth]. do 2 apply f_equal. simpl INR. field.
  - split; [| split; [reflexivity |]].
    + rewrite (mesh_of_contour
                 (ParabolicNozzle_init (finite_params 0.05 0.05 0.075 0.6 0.8))
                 (with_n_axial block_mesh.BlockMeshParams_default 5)
                 _ _ E) by reflexivity.
      reflexivity.
    + reflexivity.
Qed.

(** ** Stations of [_wedge_points] *)

Lemma nth_error_flat_map_station (c s : float) (l : list (float * float))
    (i k : nat) (xr : float * float) :
  nth_error l i = Some xr -> (k < 4)%nat ->
  nth_error (flat_map (station_vertices c s) l) (4 * i + k)
  = nth_error (station_vertices c s xr) k.
Proof.
  revert i. induction l as [| a l IH]; intros i Hi Hk.
  - destruct i; discriminate.
  - assert (Hlen : length (station_vertices c s a) = 4%nat)
      by (destruct a; reflexivity).
    cbn [flat_map]. destruct i as [| i].
    + injection Hi as ->. rewrite nth_error_app1 by lia.
      f_equal.
    + rewrite nth_error_app2 by lia. rewrite Hlen.
      replace (4 * S i + k - 4)%nat with (4 * i + k)%nat by lia.
      apply IH; assumption.
Qed.

Lemma index_station_vertex (c s : float) (l : list (float * float))
    (i k : nat) (xr : float * float) (v : block_mesh.Vertex) :
  nth_error l i = Some xr ->
  nth_error (station_vertices c s xr) k = Some v ->
  index (flat_map (station_vertices c s) l) (4 * Z.of_nat i + Z.of_nat k)
  = Ok v.
Proof.
  intros Hi Hv.
  assert (Hk : (k < 4)%nat).
  { assert (H : (k < length (station_vertices c s xr))%nat)
      by (apply nth_error_Some; rewrite Hv; discriminate).
    destruct xr. exact H. }
  assert (Hil : (i < length l)%nat)
    by (apply nth_error_Some; rewrite Hi; discriminate).
  replace (4 * Z.of_nat i + Z.of_nat k)%Z with (Z.of_nat (4 * i + k)) by lia.
  rewrite (index_in_range _ _ v)
    by (rewrite flat_map_station_length; lia).
  f_equal. apply nth_error_nth.
  rewrite (nth_error_flat_map_station c s l i k xr Hi Hk). exact Hv.
Qed.

Lemma idx_from_in_range (off : Z) (n : nat) :
  (0 <= off < 4)%Z ->
  Forall (fun v => (0 <= v < 4 * Z.of_nat n)%Z) (idx_from 0 off n).
Proof.
  intros Hoff. apply Forall_forall. intros v Hv.
  unfold idx_from in Hv. apply in_map_iff in Hv.
  destruct Hv as (k & <- & Hk). apply in_seq in Hk. lia.
Qed.

(** C10 (as amended): every index recorded in the four per-station arrays is
    in range of the vertex list; at every station the two axis vertices are
    stored with the same coordinates (x, 0, 0); and when the radius [r] of
    the station and the half-angle are finite with [r * sin(theta_half) <> 0]
    the axis point and the two wall points are pairwise different, so the
    station holds 4 vertices with exactly 3 distinct coordinates. *)
Theorem C10_axis_vertices_coincide_and_indices_in_range
    (x r : list float) (theta_half : float) :
  let wp := block_mesh._wedge_points x r theta_half in
  Forall (fun v => (0 <= v < len (block_mesh.verts wp))%Z)
         (block_mesh.idx_axis_p0 wp ++ block_mesh.idx_wall_p0 wp
          ++ block_mesh.idx_axis_p1 wp ++ block_mesh.idx_wall_p1 wp) /\
  forall (i : nat) (xi ri : float),
    nth_error (combine x r) i = Some (xi, ri) ->
    exists va0 vw0 va1 vw1,
      (v <- index (block_mesh.idx_axis_p0 wp) (Z.of_nat i) ;;
       index (block_mesh.verts wp) v) = Ok va0 /\
      (v <- index (block_mesh.idx_wall_p0 wp) (Z.of_nat i) ;;
       index (block_mesh.verts wp) v) = Ok vw0 /\
      (v <- index (block_mesh.idx_axis_p1 wp) (Z.of_nat i) ;;
       index (block_mesh.verts wp) v) = Ok va1 /\
      (v <- index (block_mesh.idx_wall_p1 wp) (Z.of_nat i) ;;
       index (block_mesh.verts wp) v) = Ok vw1 /\
      va0 = (xi, Fin 0, Fin 0) /\ va1 = va0 /\
      (forall rr tt, ri = Fin rr -> theta_half = Fin tt ->
                     rr * sin tt <> 0 -> NoDup [va0; vw0; vw1]).
Proof.
  intros wp. unfold wp. rewrite wedge_points_explicit.
  cbn [block_mesh.verts block_mesh.idx_axis_p0 block_mesh.idx_wall_p0
       block_mesh.idx_axis_p1 block_mesh.idx_wall_p1].
  set (c := fcos theta_half). set (s := fsin theta_half).
  set (l := combine x r).
  assert (Hlen : len (flat_map (station_vertices c s) l)
                 = (4 * Z.of_nat (length l))%Z).
  { unfold len. rewrite flat_map_station_length. lia. }
  split.
  - rewrite Hlen. repeat (apply Forall_app; split);
      apply idx_from_in_range; lia.
  - intros i xi ri Hi.
    assert (Hil : (i < length l)%nat)
      by (apply nth_error_Some; rewrite Hi; discriminate).
    rewrite !index_idx_from by lia. cbn [bind].
    exists (xi, Fin 0, Fin 0), (xi, (ri * c)%fl, ((- ri) * s)%fl),
           (xi, Fin 0, Fin 0), (xi, (ri * c)%fl, (ri * s)%fl).
    split; [apply (index_station_vertex c s l i 0 _ _ Hi); reflexivity |].
    split; [apply (index_station_vertex c s l i 1 _ _ Hi); reflexivity |].
    split; [apply (index_station_vertex c s l i 2 _ _ Hi); reflexivity |].
    split; [apply (index_station_vertex c s l i 3 _ _ Hi); reflexivity |].
    split; [reflexivity |]. split; [reflexivity |].
    intros rr tt -> -> Hne. unfold c, s. cbn [fcos fsin fmul fopp].
    repeat constructor; simpl; intros H;
      repeat match goal with
             | H : _ \/ _ |- _ => destruct H
             | H : False |- _ => contradiction
             end;
      match goal with
      | H : (_, _, _) = (_, _, _) |- _ => inversion H; lra
      end.
Qed.

Lemma C10_witness :
  exists va0 vw0 va1 vw1,
    let wp := block_mesh._wedge_points [Fin 1] [Fin 2] (Fin (PI / 72)) in
    (v <- index (block_mesh.idx_axis_p0 wp) 0 ;;
     index (block_mesh.verts wp) v) = Ok va0 /\
    (v <- index (block_mesh.idx_wall_p0 wp) 0 ;;
     index (block_mesh.verts wp) v) = Ok vw0 /\
    (v <- index (block_mesh.idx_axis_p1 wp) 0 ;;
     index (block_mesh.verts wp) v) = Ok va1 /\
    (v <- index (block_mesh.idx_wall_p1 wp) 0 ;;
     index (block_mesh.verts wp) v) = Ok vw1 /\
    va1 = va0 /\ NoDup [va0; vw0; vw1].
Proof.
  destruct (proj2 (C10_axis_vertices_coincide_and_indices_in_range
                     [Fin 1] [Fin 2] (Fin (PI / 72)))
                  0%nat (Fin 1) (Fin 2) eq_refl)
    as (va0 & vw0 & va1 & vw1 & H0 & H1 & H2 & H3 & _ & E & Hd).
  exists va0, vw0, va1, vw1.
  repeat (split; [assumption |]).
  apply (Hd 2 (PI / 72)); [reflexivity | reflexivity |].
  pose proof PI_RGT_0.
  assert (0 < sin (PI / 72)) by (apply sin_gt_0; lra).
  lra.
Defined.

(** C10 (counterexample): a station of radius 0 stores four vertices with
    one and the same coordinate: the wall vertices coincide with the axis
    vertices. *)
Lemma C10_counterexample :
  exists v : block_mesh.Vertex,
    block_mesh.verts (block_mesh._wedge_points [Fin 1] [Fin 0] (Fin (PI / 72)))
    = [v; v; v; v].
Proof.
  exists (Fin 1, Fin 0, Fin 0).
  rewrite wedge_points_explicit.
  cbn [block_mesh.verts combine flat_map station_vertices app
       fcos fsin fmul fopp].
  repeat (f_equal; try ring).
Qed.

(** ** Winding of the wedge faces *)

Lemma lookup_pair_hit (o1 o2 : Z) (n : nat) (b i : Z) :
  (0 <= i < Z.of_nat n)%Z ->
  lookup_pair (idx_from b o1 n) (idx_from b o2 n) (b + 4 * i + o1)
  = Some (b + 4 * i + o2)%Z.
Proof.
  revert b i. induction n as [| n IH]; intros b i Hi; [lia |].
  rewrite !idx_from_S. cbn [lookup_pair].
  destruct (Z.eqb_spec (b + o1) (b + 4 * i + o1)) as [E | E].
  - f_equal. lia.
  - replace (b + 4 * i + o1)%Z with (b + 4 + 4 * (i - 1) + o1)%Z by lia.
    rewrite IH by lia. f_equal. lia.
Qed.

Lemma lookup_pair_miss (o1 o2 : Z) (n : nat) (b v : Z) :
  (forall k, v <> b + 4 * k + o1)%Z ->
  lookup_pair (idx_from b o1 n) (idx_from b o2 n) v = None.
Proof.
  revert b. induction n as [| n IH]; intros b Hv; [reflexivity |].
  rewrite !idx_from_S. cbn [lookup_pair].
  destruct (Z.eqb_spec (b + o1) v) as [E | E].
  - exfalso. apply (Hv 0%Z). lia.
  - apply IH. intros k Hk. apply (Hv (k + 1)%Z). lia.
Qed.

Lemma plane_swap_axis (x r : list float) (th : float) (i : Z) :
  (0 <= i < Z.of_nat (length (combine x r)))%Z ->
  plane_swap (block_mesh._wedge_points x r th) (4 * i) = (4 * i + 2)%Z.
Proof.
  intros Hi. unfold plane_swap. rewrite wedge_points_explicit.
  cbn [block_mesh.idx_axis_p0 block_mesh.idx_axis_p1].
  replace (4 * i)%Z with (0 + 4 * i + 0)%Z at 1 by lia.
  rewrite lookup_pair_hit by assumption. lia.
Qed.

Lemma plane_swap_wall (x r : list float) (th : float) (i : Z) :
  (0 <= i < Z.of_nat (length (combine x r)))%Z ->
  plane_swap (block_mesh._wedge_points x r th) (4 * i + 1) = (4 * i + 3)%Z.
Proof.
  intros Hi. unfold plane_swap. rewrite wedge_points_explicit.
  cbn [block_mesh.idx_axis_p0 block_mesh.idx_axis_p1
       block_mesh.idx_wall_p0 block_mesh.idx_wall_p1].
  rewrite lookup_pair_miss by (intros k; lia).
  replace (4 * i + 1)%Z with (0 + 4 * i + 1)%Z at 1 by lia.
  rewrite lookup_pair_hit by assumption. lia.
Qed.

(** For every axial segment, reversing the wedge0 face and replacing each
    plane-0 index by its plane-1 counterpart gives the wedge1 face, as the
    same oriented cycle (rotated by two places). *)
Lemma wedge_faces_mirror (x r : list float) (th : float) (i : Z) :
  (0 <= i < Z.of_nat (length (combine x r)) - 1)%Z ->
  same_cycle
    (face_map (plane_swap (block_mesh._wedge_points x r th))
              (face_reverse (wedge0_face_at i)))
    (wedge1_face_at i).
Proof.
  intros Hi. unfold wedge0_face_at, wedge1_face_at, face_reverse, face_map.
  replace (4 * i + 4)%Z with (4 * (i + 1))%Z by lia.
  replace (4 * i + 5)%Z with (4 * (i + 1) + 1)%Z by lia.
  rewrite !plane_swap_axis, !plane_swap_wall by lia.
  right. right. left. unfold face_rotate.
  repeat apply (f_equal2 pair); lia.
Qed.

(** The same relation on the face lists of every mesh that is returned. *)
Lemma mesh_wedge_faces_mirror (p : ParabolicNozzleParams)
    (bp : block_mesh.BlockMeshParams) :
  (1 <= block_mesh.n_axial bp)%Z ->
  exists m x r,
    get_outer_wall (ParabolicNozzle_init p) (block_mesh.n_axial bp + 1)
    = Ok (x, r) /\
    block_mesh.generate_block_mesh_dict (ParabolicNozzle_init p) bp = Ok m /\
    length (snd (block_mesh.wedge0 m)) = length (snd (block_mesh.wedge1 m)) /\
    forall (i : nat) (f0 f1 : block_mesh.Face),
      nth_error (snd (block_mesh.wedge0 m)) i = Some f0 ->
      nth_error (snd (block_mesh.wedge1 m)) i = Some f1 ->
      same_cycle
        (face_map
           (plane_swap
              (block_mesh._wedge_points x r
                 (Fin 0.5 * deg2rad (block_mesh.wedge_angle_deg bp))%fl))
           (face_reverse f0))
        f1.
Proof.
  intros Hn. destruct (mesh_counts p bp Hn) as (x & r & E & Hst & Em).
  exists (mesh_of_stations bp (combine x r)), x, r.
  split; [exact E |]. split; [exact Em |].
  unfold mesh_of_stations. cbn [block_mesh.wedge0 block_mesh.wedge1 snd].
  split; [now rewrite !length_map |].
  intros i f0 f1 H0 H1.
  rewrite nth_error_map in H0, H1.
  destruct (nth_error (range (len (combine x r) - 1)) i) as [k |] eqn:Ek;
    [| discriminate].
  injection H0 as <-. injection H1 as <-.
  apply nth_error_In in Ek. apply in_range in Ek.
  apply wedge_faces_mirror. unfold len in Ek. lia.
Qed.

(** ** Orientation of the boundary faces of one block *)

Lemma contour_three_points (tr er cr cp dp : R) :
  0 < cr -> er <> tr -> 0 < cp -> dp <> 0 ->
  generate_contour (ParabolicNozzle_init (finite_params tr er cr cp dp)) 3
  = Ok ([Fin (- Lconv cr); Fin (Ldiv tr er)], [Fin cr; Fin er]).
Proof.
  intros Hcr Hne Hcp Hdp.
  rewrite generate_contour_fin by lia.
  change (Z.to_nat (n_conv_of 3)) with 1%nat.
  change (Z.to_nat (n_div_of 3)) with 2%nat.
  cbn [linspaceR seq map app tl].
  replace (0 * (0 - - Lconv cr) + - Lconv cr) with (- Lconv cr) by ring.
  rewrite conv_radius_at_inlet by lra.
  rewrite div_radius_at_exit by assumption.
  reflexivity.
Qed.

(** The block between two stations [x0 < x1] of positive radii, for a
    half-angle with positive sine and cosine: the right-hand normals of the
    wall, wedge0 and wedge1 faces point into the block, those of the inlet
    and outlet faces point out of it. *)
Lemma wedge_block_orientation (bp : block_mesh.BlockMeshParams)
    (x0 x1 r0 r1 c s : R) :
  x0 < x1 -> 0 < r0 -> 0 < r1 -> 0 < c -> 0 < s ->
  let vs := flat_map (station_vertices (Fin c) (Fin s))
                     [(Fin x0, Fin r0); (Fin x1, Fin r1)] in
  exists blk f0 f1 fw fi fo,
    points_of vs (block_mesh.hex (block_at bp 0)) = Some blk /\
    points_of vs (face_indices (wedge0_face_at 0)) = Some f0 /\
    points_of vs (face_indices (wedge1_face_at 0)) = Some f1 /\
    points_of vs (face_indices (wall_face_at 0)) = Some fw /\
    points_of vs (face_indices inlet_face) = Some fi /\
    points_of vs (face_indices (outlet_face_at 1)) = Some fo /\
    outward_flux blk f0 < 0 /\ outward_flux blk f1 < 0 /\
    outward_flux blk fw < 0 /\
    0 < outward_flux blk fi /\ 0 < outward_flux blk fo.
Proof.
  intros Hx H0 H1 Hc Hs vs. unfold vs.
  cbn [flat_map station_vertices app fmul fopp].
  do 6 eexists.
  repeat (split; [reflexivity |]).
  assert (Hd : 0 < x1 - x0) by lra.
  assert (Hcs : 0 < c * s) by (apply Rmult_lt_0_compat; assumption).
  assert (Hk : 0 < (x1 - x0) * (c * s)) by (apply Rmult_lt_0_compat; assumption).
  assert (Hr : 0 < (r0 + r1) * (r0 + r1)) by (apply Rmult_lt_0_compat; lra).
  assert (Hr0 : 0 < r0 * r0) by (apply Rmult_lt_0_compat; lra).
  assert (Hr1 : 0 < r1 * r1) by (apply Rmult_lt_0_compat; lra).
  unfold outward_flux, centroid, area_vector, cross, dot, vsub, vscale.
  cbn [fold_right vadd length INR].
  split; [| split; [| split; [| split]]].
  - replace (_ + _ + _) with
      (- ((x1 - x0) * (c * s) * ((r0 + r1) * (r0 + r1))) / 4) by field.
    assert (0 < (x1 - x0) * (c * s) * ((r0 + r1) * (r0 + r1)))
      by (apply Rmult_lt_0_compat; assumption).
    lra.
  - replace (_ + _ + _) with
      (- ((x1 - x0) * (c * s) * ((r0 + r1) * (r0 + r1))) / 4) by field.
    assert (0 < (x1 - x0) * (c * s) * ((r0 + r1) * (r0 + r1)))
      by (apply Rmult_lt_0_compat; assumption).
    lra.
  - replace (_ + _ + _) with
      (- ((x1 - x0) * (c * s) * ((r0 + r1) * (r0 + r1))) / 2) by field.
    assert (0 < (x1 - x0) * (c * s) * ((r0 + r1) * (r0 + r1)))
      by (apply Rmult_lt_0_compat; assumption).
    lra.
  - replace (_ + _ + _) with ((x1 - x0) * (c * s) * (r0 * r0)) by field.
    apply Rmult_lt_0_compat; assumption.
  - replace (_ + _ + _) with ((x1 - x0) * (c * s) * (r1 * r1)) by field.
    apply Rmult_lt_0_compat; assumption.
Qed.

(** ** HermiteSection *)

Lemma derivable_pt_lim_pointwise (f g : R -> R) (x l : R) :
  (forall y, f y = g y) -> derivable_pt_lim f x l -> derivable_pt_lim g x l.
Proof.
  intros E H eps Heps. destruct (H eps Heps) as [d Hd].
  exists d. intros h Hh Hlt. rewrite <- !E. now apply Hd.
Qed.

Lemma derivable_pt_lim_value (f : R -> R) (x l l' : R) :
  l = l' -> derivable_pt_lim f x l -> derivable_pt_lim f x l'.
Proof. intros ->. trivial. Qed.

Lemma cubic_derivative (a b c d x : R) :
  derivable_pt_lim (fun y => a + b * y + c * y ^ 2 + d * y ^ 3) x
                   (b + 2 * c * x + 3 * d * x ^ 2).
Proof.
  replace (b + 2 * c * x + 3 * d * x ^ 2)
    with (0 + b * 1 + c * (INR 2 * x ^ pred 2) + d * (INR 3 * x ^ pred 3))
    by (simpl; ring).
  apply (derivable_pt_lim_plus (fun y => a + b * y + c * y ^ 2)
                               (fun y => d * y ^ 3)).
  - apply (derivable_pt_lim_plus (fun y => a + b * y) (fun y => c * y ^ 2)).
    + apply (derivable_pt_lim_plus (fun _ => a) (fun y => b * y)).
      * apply derivable_pt_lim_const.
      * apply (derivable_pt_lim_scal id b). apply derivable_pt_lim_id.
    + apply (derivable_pt_lim_scal (fun y => y ^ 2) c).
      apply derivable_pt_lim_pow.
  - apply (derivable_pt_lim_scal (fun y => y ^ 3) d).
    apply derivable_pt_lim_pow.
Qed.

Lemma hermite_radius_derivative (sx ex sr er s0 s1 x : R) :
  ex - sx <> 0 ->
  let dx := ex - sx in
  let t := (x - sx) / dx in
  let B := dx * s0 in
  let C := -3 * sr - 2 * dx * s0 + 3 * er - dx * s1 in
  let D := 2 * sr + dx * s0 - 2 * er + dx * s1 in
  derivable_pt_lim (hermite_radius sx ex sr er s0 s1) x
                   ((B + 2 * C * t + 3 * D * t ^ 2) * / dx).
Proof.
  intros Hdx dx t B C D.
  apply (derivable_pt_lim_pointwise
           (comp (fun y => sr + B * y + C * y ^ 2 + D * y ^ 3)
                 (fun y => (- sx / dx) + / dx * y + 0 * y ^ 2 + 0 * y ^ 3))).
  - intros y. unfold comp, hermite_radius. fold dx.
    replace (- sx / dx + / dx * y + 0 * y ^ 2 + 0 * y ^ 3)
      with ((y - sx) / dx) by (field; exact Hdx).
    unfold B, C, D. ring.
  - apply derivable_pt_lim_comp.
    + apply (derivable_pt_lim_value _ _ (/ dx + 2 * 0 * x + 3 * 0 * x ^ 2));
        [ring | apply cubic_derivative].
    + replace (- sx / dx + / dx * x + 0 * x ^ 2 + 0 * x ^ 3) with t
        by (unfold t; field; exact Hdx).
      apply cubic_derivative.
Qed.

Lemma HermiteSection_fin (sx ex sr er s0 s1 : R) (n : Z) (x : R) :
  ex - sx <> 0 ->
  nozzle.HermiteSection_get_radius_function
    (nozzle.HermiteSection_init
       (nozzle.mkSectionParameters (Fin sx) (Fin ex) (Fin sr) (Fin er) n)
       (Fin s0) (Fin s1)) (Fin x)
  = Fin (hermite_radius sx ex sr er s0 s1 x).
Proof.
  intros Hdx.
  unfold nozzle.HermiteSection_get_radius_function, nozzle.HermiteSection_init.
  cbn [nozzle.her_params nozzle.start_x nozzle.end_x nozzle.start_r
       nozzle.end_r nozzle.start_slope nozzle.end_slope fsub fadd fopp].
  rewrite fdiv_fin by exact Hdx.
  rewrite !(fpow_fin_pos _ 3), !(fpow_fin_pos _ 2).
  cbn [fsub fadd fopp fmul]. unfold hermite_radius.
  f_equal; simpl Pos.to_nat; unfold Rminus, Rdiv; ring.
Qed.

(** C8 (amended): for a HermiteSection with [start_x < end_x] (finite
    parameters) whose length [end_x - start_x] is at most [1e308], so that
    it does not overflow in binary64 (lemma [C8_counterexample]), the radius
    function takes exactly the value [start_r] at [start_x] and [end_r] at
    [end_x], and its derivative dr/dx equals [start_slope] at [start_x] and
    [end_slope] at [end_x]. *)
Theorem C8_hermite_endpoints_and_slopes (sx ex sr er s0 s1 : R) (n : Z) :
  sx < ex -> ex - sx <= 1e308 ->
  let f := nozzle.HermiteSection_get_radius_function
             (nozzle.HermiteSection_init
                (nozzle.mkSectionParameters (Fin sx) (Fin ex) (Fin sr) (Fin er) n)
                (Fin s0) (Fin s1)) in
  f (Fin sx) = Fin sr /\
  f (Fin ex) = Fin er /\
  exists g : R -> R,
    (forall x, f (Fin x) = Fin (g x)) /\
    derivable_pt_lim g sx s0 /\
    derivable_pt_lim g ex s1.
Proof.
  intros Hlt _ f. assert (Hdx : ex - sx <> 0) by lra.
  unfold f. split; [| split].
  - rewrite HermiteSection_fin by exact Hdx. f_equal.
    unfold hermite_radius. field. exact Hdx.
  - rewrite HermiteSection_fin by exact Hdx. f_equal.
    unfold hermite_radius. field. exact Hdx.
  - exists (hermite_radius sx ex sr er s0 s1). split; [| split].
    + intros x. now apply HermiteSection_fin.
    + pose proof (hermite_radius_derivative sx ex sr er s0 s1 sx Hdx) as H.
      cbv zeta in H.
      eapply derivable_pt_lim_value; [| exact H]. field. exact Hdx.
    + pose proof (hermite_radius_derivative sx ex sr er s0 s1 ex Hdx) as H.
      cbv zeta in H.
      eapply derivable_pt_lim_value; [| exact H]. field. exact Hdx.
Qed.

Lemma C8_witness :
  (0 < 2 /\ 2 - 0 <= 1e308) /\
  let f := nozzle.HermiteSection_get_radius_function
             (nozzle.HermiteSection_init
                (nozzle.mkSectionParameters (Fin 0) (Fin 2) (Fin 1) (Fin 3) 50)
                (Fin (1 / 2)) (Fin (1 / 4))) in
  f (Fin 0) = Fin 1 /\
  f (Fin 2) = Fin 3 /\
  exists g : R -> R,
    (forall x, f (Fin x) = Fin (g x)) /\
    derivable_pt_lim g 0 (1 / 2) /\
    derivable_pt_lim g 2 (1 / 4).
Proof.
  split; [split; lra |].
  apply (C8_hermite_endpoints_and_slopes 0 2 1 3 (1 / 2) (1 / 4) 50); lra.
Defined.

(** C9 (evaluation): in the mesh of the scenario nozzle with [n_axial = 2]
    (two stations, one block) the wedge1 face is the reversed wedge0 face
    with every plane-0 index swapped for its plane-1 counterpart, as the
    same oriented cycle, so the two faces wind oppositely.  Their right-hand
    normals, however, both point into the block, whereas those of the inlet
    and outlet faces of the same mesh point out of it. *)
Theorem C9_wedge_faces_mirrored_but_wound_inward :
  let noz := ParabolicNozzle_init example_params in
  let bp := with_n_axial block_mesh.BlockMeshParams_default 2 in
  exists m x r blk f0 f1 fi fo,
    get_outer_wall noz 3 = Ok (x, r) /\
    block_mesh.generate_block_mesh_dict noz bp = Ok m /\
    snd (block_mesh.wedge0 m) = [(0, 4, 5, 1)%Z] /\
    snd (block_mesh.wedge1 m) = [(6, 2, 3, 7)%Z] /\
    snd (block_mesh.inlet m) = [(0, 2, 3, 1)%Z] /\
    snd (block_mesh.outlet m) = [(4, 5, 7, 6)%Z] /\
    same_cycle
      (face_map
         (plane_swap
            (block_mesh._wedge_points x r
               (Fin 0.5 * deg2rad (block_mesh.wedge_angle_deg bp))%fl))
         (face_reverse (0, 4, 5, 1)%Z))
      (6, 2, 3, 7)%Z /\
    (exists b, block_mesh.blocks m = [b] /\
               points_of (block_mesh.vertices m) (block_mesh.hex b)
               = Some blk) /\
    points_of (block_mesh.vertices m) [0; 4; 5; 1]%Z = Some f0 /\
    points_of (block_mesh.vertices m) [6; 2; 3; 7]%Z = Some f1 /\
    points_of (block_mesh.vertices m) [0; 2; 3; 1]%Z = Some fi /\
    points_of (block_mesh.vertices m) [4; 5; 7; 6]%Z = Some fo /\
    outward_flux blk f0 < 0 /\ outward_flux blk f1 < 0 /\
    0 < outward_flux blk fi /\ 0 < outward_flux blk fo.
Proof.
  intros noz bp.
  pose proof (contour_three_points 0.05 0.15 0.075 0.6 0.8
                ltac:(lra) ltac:(lra) ltac:(lra) ltac:(lra)) as E.
  change (finite_params 0.05 0.15 0.075 0.6 0.8) with example_params in E.
  fold noz in E.
  pose proof (mesh_of_contour noz bp _ _ E eq_refl) as Em.
  cbv iota in Em.
  set (th := 0.5 * (5 * (PI / 180))).
  pose proof PI_RGT_0 as Hpi.
  assert (Hc : 0 < cos th) by (apply cos_gt_0; unfold th; lra).
  assert (Hs : 0 < sin th) by (apply sin_gt_0; unfold th; lra).
  assert (HL : 0 < Lconv 0.075) by (unfold Lconv; lra).
  assert (HLd : 0 < Ldiv 0.05 0.15) by (apply Ldiv_pos; lra).
  destruct (wedge_block_orientation bp (- Lconv 0.075) (Ldiv 0.05 0.15)
              0.075 0.15 (cos th) (sin th)
              ltac:(lra) ltac:(lra) ltac:(lra) Hc Hs)
    as (blk & f0 & f1 & fw & fi & fo & Pb & P0 & P1 & _ & Pi & Po
        & F0 & F1 & _ & Fi & Fo).
  exists (mesh_of_stations bp
            (combine [Fin (- Lconv 0.075); Fin (Ldiv 0.05 0.15)]
                     [Fin 0.075; Fin 0.15])),
         [Fin (- Lconv 0.075); Fin (Ldiv 0.05 0.15)],
         [Fin 0.075; Fin 0.15], blk, f0, f1, fi, fo.
  split; [exact E |]. split; [exact Em |].
  split; [reflexivity |]. split; [reflexivity |].
  split; [reflexivity |]. split; [reflexivity |].
  split.
  { apply (wedge_faces_mirror
             [Fin (- Lconv 0.075); Fin (Ldiv 0.05 0.15)]
             [Fin 0.075; Fin 0.15] _ 0). simpl. lia. }
  split.
  { exists (block_at bp 0). split; [reflexivity | exact Pb]. }
  split; [exact P0 |]. split; [exact P1 |].
  split; [exact Pi |]. split; [exact Po |].
  repeat split; assumption.
Qed.

(** ** CircularArcSection *)

Lemma fadd_fin (a b : R) : (Fin a + Fin b)%fl = Fin (a + b).
Proof. reflexivity. Qed.

Lemma fsub_fin (a b : R) : (Fin a - Fin b)%fl = Fin (a - b).
Proof. reflexivity. Qed.

Lemma fmul_fin (a b : R) : (Fin a * Fin b)%fl = Fin (a * b).
Proof. reflexivity. Qed.

Lemma CircularArcSection_fin (sx ex sr er Rc : R) (n : Z) (cvx : bool) (x : R) :
  ex - sx <> 0 ->
  0 <= Rc ^ 2 - ((x - sx) / (ex - sx) * (ex - sx) - (ex - sx) / 2) ^ 2 ->
  0 <= Rc ^ 2 - ((ex - sx) / 2) ^ 2 ->
  nozzle.CircularArcSection_get_radius_function
    (nozzle.CircularArcSection_init
       (nozzle.mkSectionParameters (Fin sx) (Fin ex) (Fin sr) (Fin er) n)
       (Fin Rc) cvx) (Fin x)
  = Fin (arc_radius sx ex sr er Rc (if cvx then 1 else -1) x).
Proof.
  intros Hdx H1 H2.
  unfold nozzle.CircularArcSection_get_radius_function,
         nozzle.CircularArcSection_init, nozzle.CircularArcSection_sign.
  cbn [nozzle.arc_params nozzle.start_x nozzle.end_x nozzle.start_r
       nozzle.end_r nozzle.R_c nozzle.convex].
  rewrite !fsub_fin.
  rewrite (fdiv_fin (x - sx)) by exact Hdx.
  rewrite (fdiv_fin _ 2) by lra.
  rewrite !fmul_fin, !fsub_fin, !(fpow_fin_pos _ 2), !fsub_fin.
  change (Pos.to_nat 2) with 2%nat.
  rewrite (fsqrt_fin _ H1), (fsqrt_fin _ H2).
  destruct cvx; rewrite !fmul_fin, !fadd_fin, !fsub_fin; reflexivity.
Qed.

(** The part of the claim that holds: the radius function passes exactly
    through both end points as soon as the section has a non-zero axial
    length and [R >= |dx| / 2]. *)
Lemma CircularArcSection_endpoints (sx ex sr er Rc : R) (n : Z) (cvx : bool) :
  ex - sx <> 0 -> ((ex - sx) / 2) ^ 2 <= Rc ^ 2 ->
  let f := nozzle.CircularArcSection_get_radius_function
             (nozzle.CircularArcSection_init
                (nozzle.mkSectionParameters (Fin sx) (Fin ex) (Fin sr) (Fin er) n)
                (Fin Rc) cvx) in
  f (Fin sx) = Fin sr /\ f (Fin ex) = Fin er.
Proof.
  intros Hdx HR f. unfold f.
  assert (E0 : (sx - sx) / (ex - sx) * (ex - sx) - (ex - sx) / 2
               = - ((ex - sx) / 2)) by (field; exact Hdx).
  assert (E1 : (ex - sx) / (ex - sx) * (ex - sx) - (ex - sx) / 2
               = (ex - sx) / 2) by (field; exact Hdx).
  assert (Hsq : (- ((ex - sx) / 2)) ^ 2 = ((ex - sx) / 2) ^ 2) by ring.
  assert (H2 : 0 <= Rc ^ 2 - ((ex - sx) / 2) ^ 2) by lra.
  split.
  - rewrite CircularArcSection_fin;
      [| exact Hdx | rewrite E0, Hsq; exact H2 | exact H2].
    f_equal. unfold arc_radius. rewrite E0, Hsq. field. exact Hdx.
  - rewrite CircularArcSection_fin;
      [| exact Hdx | rewrite E1; exact H2 | exact H2].
    f_equal. unfold arc_radius. rewrite E1. field. exact Hdx.
Qed.

Lemma sqrt_25 : sqrt 25 = 5.
Proof. replace 25 with (5 * 5) by ring. apply sqrt_square. lra. Qed.

Lemma sqrt_16 : sqrt 16 = 4.
Proof. replace 16 with (4 * 4) by ring. apply sqrt_square. lra. Qed.

(** C4 (evaluation): the convex arc section from (0, 0) to (6, 2) with
    radius of curvature 5 (the chord is sqrt 40, so [R >= c/2]) sampled at
    three points gives (0, 0), (3, 2), (6, 2): the end points are met
    exactly, but no circle of radius 5 passes through the three samples; the
    radius function is the chord (linear interpolation) plus the bulge of an
    arc over a horizontal chord. *)
Theorem C4_arc_samples_not_on_a_circle :
  let sec := nozzle.CircularArcSection_init
               (nozzle.mkSectionParameters (Fin 0) (Fin 6) (Fin 0) (Fin 2) 3)
               (Fin 5) true in
  nozzle.generate_points (nozzle.arc_params sec)
    (nozzle.CircularArcSection_get_radius_function sec)
  = Ok ([Fin 0; Fin 3; Fin 6], [Fin 0; Fin 2; Fin 2]) /\
  (exists c, nozzle.CircularArcSection_chord sec = Fin c /\ c / 2 <= 5) /\
  ~ (exists cx cr,
       on_circle cx cr 5 0 0 /\ on_circle cx cr 5 3 2 /\ on_circle cx cr 5 6 2).
Proof.
  intros sec. split; [| split].
  - unfold nozzle.generate_points, sec, nozzle.CircularArcSection_init.
    cbn [nozzle.arc_params nozzle.start_x nozzle.end_x nozzle.n_points].
    change (linspace (Fin 0) (Fin 6) 3)
      with (linspace (Fin 0) (Fin 6) (Z.of_nat 3)).
    rewrite linspace_fin. cbn [bind].
    cbn [linspaceR seq map app]. simpl INR.
    replace (0 * ((6 - 0) / (1 + 1)) + 0) with 0 by field.
    replace (1 * ((6 - 0) / (1 + 1)) + 0) with 3 by field.
    fold (nozzle.CircularArcSection_init
            (nozzle.mkSectionParameters (Fin 0) (Fin 6) (Fin 0) (Fin 2) 3)
            (Fin 5) true).
    assert (A0 : (0 - 0) / (6 - 0) * (6 - 0) - (6 - 0) / 2 = - 3) by field.
    assert (A3 : (3 - 0) / (6 - 0) * (6 - 0) - (6 - 0) / 2 = 0) by field.
    assert (A6 : (6 - 0) / (6 - 0) * (6 - 0) - (6 - 0) / 2 = 3) by field.
    assert (B : (6 - 0) / 2 = 3) by field.
    assert (S0 : sqrt (5 ^ 2 - (- 3) ^ 2) = 4).
    { replace (5 ^ 2 - (- 3) ^ 2) with 16 by ring. apply sqrt_16. }
    assert (S3 : sqrt (5 ^ 2 - 0 ^ 2) = 5).
    { replace (5 ^ 2 - 0 ^ 2) with 25 by ring. apply sqrt_25. }
    assert (S6 : sqrt (5 ^ 2 - 3 ^ 2) = 4).
    { replace (5 ^ 2 - 3 ^ 2) with 16 by ring. apply sqrt_16. }
    rewrite (CircularArcSection_fin 0 6 0 2 5 _ true 0);
      [| lra | rewrite A0; nra | rewrite B; nra].
    rewrite (CircularArcSection_fin 0 6 0 2 5 _ true 3);
      [| lra | rewrite A3; nra | rewrite B; nra].
    rewrite (CircularArcSection_fin 0 6 0 2 5 _ true 6);
      [| lra | rewrite A6; nra | rewrite B; nra].
    unfold arc_radius. rewrite A0, A3, A6, B, S0, S3, S6.
    repeat f_equal; field.
  - unfold nozzle.CircularArcSection_chord, sec, nozzle.CircularArcSection_init.
    cbn [nozzle.arc_params nozzle.start_x nozzle.end_x nozzle.start_r
         nozzle.end_r fsub fadd fopp].
    rewrite !(fpow_fin_pos _ 2). cbn [fadd].
    rewrite fsqrt_fin by (simpl; nra).
    eexists. split; [reflexivity |].
    simpl Pos.to_nat.
    match goal with
    | |- sqrt ?a / 2 <= 5 =>
        assert (H : sqrt a <= sqrt (10 * 10))
          by (apply sqrt_le_1_alt; simpl; lra)
    end.
    rewrite sqrt_square in H by lra. lra.
  - intros (cx & cr & H0 & H1 & H2). unfold on_circle in *. nra.
Qed.

(* ------------------------------------------------------------------------- *)
(** * Evaluations on binary64 *)

Section Binary64.

#[local] Set Warnings "-inexact-float,-notation-overridden".
Import PrimFloat.

(** C3 (evaluation on binary64): the radii 1e308, 1.7e308 and 1.5e308 with
    the default exponents satisfy every condition of the claim, and
    [generate_contour(5)] returns the axial positions [nan, 0, inf, inf]
    with four NaN radii: [1.5 * 1.5e308] overflows.  The first position is
    not below the second one and no radius is non-negative. *)
Lemma C3_counterexample :
  let p := B64.mkParabolicNozzleParams 1e308 1.7e308 1.5e308 0.6 0.8 in
  ((0 <? B64.throat_radius p)
   && (B64.throat_radius p <? B64.exit_radius p)
   && (B64.throat_radius p <? B64.chamber_radius p)
   && (0 <? B64.convergent_power p)
   && (0 <? B64.divergent_power p))%float = true /\
  (2 <= 5)%Z /\
  B64.generate_contour (B64.ParabolicNozzle_init p) 5
  = B64.Value ([nan; 0; infinity; infinity], [nan; nan; nan; nan])%float /\
  (nan <? 0)%float = false /\
  (0 <=? nan)%float = false.
Proof. cbv zeta. repeat split; vm_compute; (reflexivity || lia || discriminate). Qed.

(** C7 (evaluation on binary64): for the scenario radii with both
    exponents 1 and [n_points = 101], the convergent branch has 40 points;
    it and the LinearSection from (-L_convergent, 0.075) to (0, 0.05)
    sample the same axial positions, but their radii at index 35 are
    0.052564102564102565 and 0.05256410256410257. *)
Lemma C7_counterexample :
  let noz :=
    B64.ParabolicNozzle_init
      (B64.mkParabolicNozzleParams 0.05 0.15 0.075 1 1) in
  let conv_params :=
    B64.mkSectionParameters (- B64.L_convergent noz) 0 0.075 0.05 40 in
  exists lin x r r',
    B64.int (B64.of_int 101 * 0.4)%float = B64.Value 40%Z /\
    B64._convergent_section noz 40 = B64.Value (x, r) /\
    B64.LinearSection_init conv_params = B64.Value lin /\
    B64.LinearSection_generate_points lin = B64.Value (x, r') /\
    nth 35 r 0%float = 0.052564102564102565%float /\
    nth 35 r' 0%float = 0.05256410256410257%float /\
    (nth 35 r 0 =? nth 35 r' 0)%float = false.
Proof.
  cbv zeta. do 4 eexists.
  split; [vm_compute; reflexivity |].
  split; [vm_compute; reflexivity |].
  split; [vm_compute; reflexivity |].
  repeat split; vm_compute; reflexivity.
Qed.

(** C8 (evaluation on binary64): the HermiteSection from (-1e308, 1) to
    (1e308, 2) has [start_x < end_x], yet its radius function returns NaN,
    not [start_r], at [start_x]: [end_x - start_x] overflows and
    [h10 * dx] is [0 * inf]. *)
Lemma C8_counterexample :
  let h :=
    B64.mkHermiteSection
      (B64.mkSectionParameters (-1e308) 1e308 1 2 50) 0.5 0.25 in
  (B64.start_x (B64.her_params h) <? B64.end_x (B64.her_params h))%float
  = true /\
  B64.HermiteSection_get_radius_function h
    (B64.start_x (B64.her_params h)) = B64.Value nan /\
  (nan =? B64.start_r (B64.her_params h))%float = false.
Proof. cbv zeta. repeat split; vm_compute; reflexivity. Qed.

End Binary64.

(* ------------------------------------------------------------------------- *)
(** * Further properties *)

Import String.StringSyntax.
Delimit Scope string_scope with string.

(** ** ParabolicNozzle: number of points, ends, throat *)

(** X1: Contour generation raises ValueError for a negative [n_points] and
    otherwise returns two sequences of [n_points - 1] samples (none for
    [n_points = 0]), whatever the parameters. *)
Theorem contour_point_count (p : ParabolicNozzleParams) (n : Z) :
  ((n < 0)%Z ->
   generate_contour (ParabolicNozzle_init p) n = Err ValueError) /\
  ((0 <= n)%Z ->
   exists x r,
     generate_contour (ParabolicNozzle_init p) n = Ok (x, r) /\
     len x = Z.max 0 (n - 1) /\ len r = len x).
Proof.
  split.
  - apply generate_contour_negative.
  - intros Hn.
    destruct (generate_contour_returns p n Hn) as (x & r & E & Hlen & Hx).
    exists x, r. split; [exact E |]. unfold len. rewrite <- Hlen, Hx. lia.
Qed.

Lemma index_middle {A : Type} (l1 l2 : list A) (a : A) :
  index (l1 ++ a :: l2) (len l1) = Ok a.
Proof.
  unfold len. rewrite (index_in_range _ _ a)
    by (rewrite length_app; simpl; lia).
  f_equal. rewrite app_nth2 by lia. now rewrite Nat.sub_diag.
Qed.

Lemma n_conv_ge_2 (n : Z) : (5 <= n)%Z -> (2 <= n_conv_of n)%Z.
Proof.
  intros Hn. unfold n_conv_of. rewrite Z.quot_div_nonneg by lia.
  apply Z.div_le_lower_bound; lia.
Qed.

Lemma n_conv_le_1 (n : Z) : (0 <= n <= 4)%Z -> (0 <= n_conv_of n <= 1)%Z.
Proof.
  intros Hn. unfold n_conv_of. rewrite Z.quot_div_nonneg by lia.
  split; [apply Z.div_pos; lia |].
  assert ((2 * n) / 5 < 2)%Z by (apply Z.div_lt_upper_bound; lia). lia.
Qed.

Lemma linspaceR_snoc (a b : R) (k : nat) :
  exists l, linspaceR a b (S (S k)) = l ++ [b] /\ length l = S k.
Proof.
  unfold linspaceR. eexists. split; [reflexivity |].
  now rewrite length_map, length_seq.
Qed.

(** X2: For valid radii between [1e-100] and [1e100], positive exponents
    and [5 <= n_points <= 10^9] the contour starts at
    [(-L_convergent, chamber_radius)], ends at the axial position
    [L_divergent], and holds the throat station [x = 0] at index
    [int(0.4 * n_points) - 1]. *)
Theorem contour_end_and_throat_stations (tr er cr cp dp : R) (n : Z) :
  0 < tr -> tr < er -> tr < cr -> 0 < cp -> 0 < dp -> (5 <= n)%Z ->
  1e-100 <= tr -> er <= 1e100 -> cr <= 1e100 -> (n <= 10 ^ 9)%Z ->
  let noz := ParabolicNozzle_init (finite_params tr er cr cp dp) in
  exists x r,
    generate_contour noz n = Ok (x, r) /\
    index x 0 = Ok (- L_convergent noz)%fl /\ index r 0 = Ok (Fin cr) /\
    index x (-1) = Ok (L_divergent noz) /\
    index x (Z.quot (2 * n) 5 - 1) = Ok (Fin 0).
Proof.
  intros Htr Hter Htcr Hcp Hdp Hn _ _ _ _ noz. unfold noz.
  rewrite L_convergent_fin, L_divergent_fin.
  rewrite generate_contour_fin by lia.
  pose proof (n_conv_ge_2 n Hn) as Hc.
  pose proof (n_div_ge_2 n ltac:(lia)) as Hd.
  fold (n_conv_of n).
  destruct (Z.to_nat (n_conv_of n)) as [| [| kc]] eqn:Ec; try lia.
  destruct (Z.to_nat (n_div_of n)) as [| [| kd]] eqn:Ed; try lia.
  set (xc := linspaceR (- Lconv cr) 0 (S (S kc))).
  set (xd := linspaceR 0 (Ldiv tr er) (S (S kd))).
  destruct (linspaceR_snoc (- Lconv cr) 0 kc) as (lc & Elc & Llc).
  fold xc in Elc.
  destruct (tl_linspaceR_snoc 0 (Ldiv tr er) kd) as (ld & Eld).
  fold xd in Eld.
  pose proof (linspaceR_hd (- Lconv cr) 0 (S kc)) as Hhd. fold xc in Hhd.
  eexists. eexists. split; [reflexivity |].
  split; [| split; [| split]].
  - apply index_hd. destruct xc; [discriminate |].
    injection Hhd as ->. reflexivity.
  - apply index_hd. destruct xc; [discriminate |].
    injection Hhd as ->. simpl. f_equal. apply conv_radius_at_inlet; lra.
  - rewrite Eld, app_assoc, map_app. apply index_snoc.
  - rewrite Elc, <- app_assoc, map_app. simpl app. simpl map.
    replace (n_conv_of n - 1)%Z with (len (map Fin lc))
      by (unfold len; rewrite length_map; lia).
    apply index_middle.
Qed.

Lemma contour_end_and_throat_stations_witness :
  (0 < 0.05 /\ 0.05 < 0.15 /\ 0.05 < 0.075 /\ 0 < 0.6 /\ 0 < 0.8 /\
   (5 <= 101)%Z /\
   1e-100 <= 0.05 /\ 0.15 <= 1e100 /\ 0.075 <= 1e100 /\
   (101 <= 10 ^ 9)%Z) /\
  let noz := ParabolicNozzle_init (finite_params 0.05 0.15 0.075 0.6 0.8) in
  exists x r,
    generate_contour noz 101 = Ok (x, r) /\
    index x 0 = Ok (- L_convergent noz)%fl /\ index r 0 = Ok (Fin 0.075) /\
    index x (-1) = Ok (L_divergent noz) /\
    index x (Z.quot (2 * 101) 5 - 1) = Ok (Fin 0).
Proof.
  split; [repeat split; (lra || lia) |].
  apply (contour_end_and_throat_stations 0.05 0.15 0.075 0.6 0.8 101);
    (lra || lia).
Defined.

Lemma flt_fle (a b : float) : flt a b -> fle a b.
Proof. destruct a, b; simpl; tauto. Qed.

(** X3: For valid radii between [1e-100] and [1e100] and positive
    exponents, a contour asked for with at most four points has no station
    at the throat: no axial position is 0.  Its radii are not below the
    throat radius. *)
Theorem coarse_contour_omits_throat (tr er cr cp dp : R) (n : Z) :
  0 < tr -> tr < er -> tr < cr -> 0 < cp -> 0 < dp -> (0 <= n <= 4)%Z ->
  1e-100 <= tr -> er <= 1e100 -> cr <= 1e100 ->
  exists x r,
    generate_contour (ParabolicNozzle_init (finite_params tr er cr cp dp)) n
    = Ok (x, r) /\
    ~ In (Fin 0) x /\
    Forall (fle (Fin tr)) r.
Proof.
  intros Htr Hter Htcr Hcp Hdp Hn _ _ _.
  rewrite generate_contour_fin by lia.
  assert (HL : 0 < Lconv cr) by (unfold Lconv; lra).
  pose proof (Ldiv_pos tr er Hter) as HLd.
  pose proof (n_conv_le_1 n Hn) as Hc.
  set (xc := linspaceR (- Lconv cr) 0 (Z.to_nat (n_conv_of n))).
  set (xd := linspaceR 0 (Ldiv tr er) (Z.to_nat (n_div_of n))).
  assert (Hxc : Forall (fun x => - Lconv cr <= x < 0) xc).
  { unfold xc. destruct (Z.to_nat (n_conv_of n)) as [| [| k]] eqn:E; try lia.
    - constructor.
    - constructor; [| constructor]. lra. }
  pose proof (tl_linspaceR_positive (Ldiv tr er) (Z.to_nat (n_div_of n)) HLd)
    as Hxd. fold xd in Hxd.
  eexists. eexists. split; [reflexivity |]. split.
  - intros Hin. apply in_map_iff in Hin. destruct Hin as (x0 & E0 & Hin).
    injection E0 as ->. apply in_app_or in Hin. destruct Hin as [Hin | Hin].
    + rewrite Forall_forall in Hxc. specialize (Hxc _ Hin). lra.
    + rewrite Forall_forall in Hxd. specialize (Hxd _ Hin). lra.
  - apply Forall_app. split; apply Forall_map.
    + eapply Forall_impl; [| exact Hxc]. cbv beta. intros x0 Hx0.
      destruct (conv_radius_range tr cr cp x0 ltac:(lra) ltac:(lra) Hcp
                  ltac:(lra)) as (v & -> & _ & _ & _ & Hlt).
      apply flt_fle. simpl. apply Hlt; lra.
    + eapply Forall_impl; [| exact Hxd]. cbv beta. intros x0 Hx0.
      destruct (div_radius_range tr er dp x0 Hter Hdp ltac:(lra))
        as (v & -> & _ & _ & _ & Hlt).
      apply flt_fle. simpl. apply Hlt; lra.
Qed.

Lemma coarse_contour_omits_throat_witness :
  (0 < 0.05 /\ 0.05 < 0.15 /\ 0.05 < 0.075 /\ 0 < 0.6 /\ 0 < 0.8 /\
   (0 <= 4 <= 4)%Z /\
   1e-100 <= 0.05 /\ 0.15 <= 1e100 /\ 0.075 <= 1e100) /\
  exists x r,
    generate_contour
      (ParabolicNozzle_init (finite_params 0.05 0.15 0.075 0.6 0.8)) 4
    = Ok (x, r) /\
    ~ In (Fin 0) x /\
    Forall (fle (Fin 0.05)) r.
Proof.
  split; [repeat split; (lra || lia) |].
  apply (coarse_contour_omits_throat 0.05 0.15 0.075 0.6 0.8 4); (lra || lia).
Defined.

(** ** ParabolicNozzle: the wall converges, then diverges *)

Lemma Rpow_increasing (t1 t2 p : R) :
  0 <= t1 -> t1 < t2 -> t2 <= 1 -> 0 < p ->
  exists u1 u2, Rpow t1 p = Fin u1 /\ Rpow t2 p = Fin u2 /\ u1 < u2.
Proof.
  intros H0 Hlt H1 Hp. unfold Rpow. rewrite is_zero_false by lra.
  rewrite (is_pos_true t2) by lra.
  destruct (Rlt_dec 0 t1) as [Hpos | Hz].
  - rewrite is_pos_true by assumption.
    exists (Rpower t1 p), (Rpower t2 p). repeat split.
    apply Rlt_Rpower_l; lra.
  - assert (t1 = 0) by lra. subst t1.
    rewrite is_pos_false by lra. rewrite is_zero_true by reflexivity.
    rewrite is_pos_true by assumption.
    exists 0, (Rpower t2 p). repeat split.
    unfold Rpower. apply exp_pos.
Qed.

Lemma chain_map_in {A B : Type} (ra : A -> A -> Prop) (rb : B -> B -> Prop)
    (f : A -> B) (l : list A) :
  (forall a b, In a l -> In b l -> ra a b -> rb (f a) (f b)) ->
  chain ra l -> chain rb (map f l).
Proof.
  induction l as [| a l IH]; intros Hf; [trivial |].
  rewrite chain_cons. intros [Hhd Htl].
  change (map f (a :: l)) with (f a :: map f l).
  rewrite chain_cons. split.
  - destruct l as [| b l]; simpl; [trivial |].
    apply Hf; simpl; auto.
  - apply IH; [| exact Htl].
    intros x y Hx Hy. apply Hf; right; assumption.
Qed.

Lemma conv_radius_decreasing (tr cr cp x1 x2 : R) :
  0 < cr -> tr < cr -> 0 < cp -> - Lconv cr <= x1 -> x1 < x2 -> x2 <= 0 ->
  flt (conv_radius tr cr cp x2) (conv_radius tr cr cp x1).
Proof.
  intros Hcr Htr Hcp Hl Hlt Hr. unfold conv_radius.
  assert (HL : 0 < Lconv cr) by (unfold Lconv; lra).
  cbn [fadd]. rewrite !fdiv_fin by lra. rewrite !fpow_fin by lra.
  assert (Hinv : 0 < / Lconv cr) by (apply Rinv_0_lt_compat; lra).
  assert (Hone : Lconv cr * / Lconv cr = 1) by (field; lra).
  destruct (Rpow_increasing ((x1 + Lconv cr) / Lconv cr)
              ((x2 + Lconv cr) / Lconv cr) cp)
    as (u1 & u2 & -> & -> & Hu); try assumption.
  - unfold Rdiv. nra.
  - unfold Rdiv. nra.
  - unfold Rdiv. nra.
  - cbn [fsub fadd fopp fmul flt]. nra.
Qed.

Lemma div_radius_increasing (tr er dp x1 x2 : R) :
  tr < er -> 0 < dp -> 0 <= x1 -> x1 < x2 -> x2 <= Ldiv tr er ->
  flt (div_radius tr er dp x1) (div_radius tr er dp x2).
Proof.
  intros Htr Hdp Hl Hlt Hr. unfold div_radius.
  pose proof (Ldiv_pos tr er Htr) as HL.
  rewrite !fdiv_fin by lra. rewrite !fpow_fin by lra.
  assert (Hinv : 0 < / Ldiv tr er) by (apply Rinv_0_lt_compat; lra).
  assert (Hone : Ldiv tr er * / Ldiv tr er = 1) by (field; lra).
  destruct (Rpow_increasing (x1 / Ldiv tr er) (x2 / Ldiv tr er) dp)
    as (u1 & u2 & -> & -> & Hu); try assumption.
  - unfold Rdiv. nra.
  - unfold Rdiv. nra.
  - unfold Rdiv. nra.
  - cbn [fsub fadd fopp fmul flt]. nra.
Qed.

Lemma chain_weaken {A : Type} (ra rb : A -> A -> Prop) (l : list A) :
  (forall a b, ra a b -> rb a b) -> chain ra l -> chain rb l.
Proof.
  intros H Hl. rewrite <- (map_id l). now apply (chain_map ra rb).
Qed.

(** X4: For valid radii between [1e-100] and [1e100], exponents between
    [1e-3] and [30] and at most [10^9] points, the convergent branch has
    strictly increasing axial positions and radii that never increase, the
    divergent branch strictly increasing axial positions and radii that
    never decrease. *)
Theorem branches_converge_then_diverge (tr er cr cp dp : R) (n : Z) :
  0 < tr -> tr < er -> tr < cr -> (0 <= n)%Z ->
  1e-100 <= tr -> er <= 1e100 -> cr <= 1e100 ->
  1e-3 <= cp <= 30 -> 1e-3 <= dp <= 30 -> (n <= 10 ^ 9)%Z ->
  let noz := ParabolicNozzle_init (finite_params tr er cr cp dp) in
  (exists x r, _convergent_section noz n = Ok (x, r) /\
               strictly_increasing x /\ chain (fun a b => fle b a) r) /\
  (exists x r, _divergent_section noz n = Ok (x, r) /\
               strictly_increasing x /\ chain fle r).
Proof.
  intros Htr Hter Htcr Hn _ _ _ Hcp' Hdp' _ noz. unfold noz.
  assert (Hcp : 0 < cp) by lra. assert (Hdp : 0 < dp) by lra.
  assert (HL : 0 < Lconv cr) by (unfold Lconv; lra).
  pose proof (Ldiv_pos tr er Hter) as HLd.
  rewrite <- (Z2Nat.id n) by lia.
  rewrite convergent_section_fin, divergent_section_fin.
  split; eexists; eexists; (split; [reflexivity |]); split.
  - apply strictly_increasing_Fin, linspaceR_increasing. lra.
  - pose proof (linspaceR_bounds (- Lconv cr) 0 (Z.to_nat n) ltac:(lra)) as Hb.
    rewrite Forall_forall in Hb.
    apply (chain_weaken (fun a b => flt b a));
      [intros a b; apply flt_fle |].
    apply (chain_map_in Rlt); [| apply linspaceR_increasing; lra].
    intros a b Ha Hb' Hab. specialize (Hb a Ha) as Ha'.
    specialize (Hb b Hb') as Hb''.
    apply conv_radius_decreasing; lra.
  - apply strictly_increasing_Fin, linspaceR_increasing. lra.
  - pose proof (linspaceR_bounds 0 (Ldiv tr er) (Z.to_nat n) ltac:(lra)) as Hb.
    rewrite Forall_forall in Hb.
    apply (chain_weaken flt); [apply flt_fle |].
    apply (chain_map_in Rlt); [| apply linspaceR_increasing; lra].
    intros a b Ha Hb' Hab. specialize (Hb a Ha) as Ha'.
    specialize (Hb b Hb') as Hb''.
    apply div_radius_increasing; lra.
Qed.

Lemma branches_converge_then_diverge_witness :
  (0 < 0.05 /\ 0.05 < 0.15 /\ 0.05 < 0.075 /\ (0 <= 40)%Z /\
   1e-100 <= 0.05 /\ 0.15 <= 1e100 /\ 0.075 <= 1e100 /\
   1e-3 <= 0.6 <= 30 /\ 1e-3 <= 0.8 <= 30 /\ (40 <= 10 ^ 9)%Z) /\
  let noz := ParabolicNozzle_init (finite_params 0.05 0.15 0.075 0.6 0.8) in
  (exists x r, _convergent_section noz 40 = Ok (x, r) /\
               strictly_increasing x /\ chain (fun a b => fle b a) r) /\
  (exists x r, _divergent_section noz 40 = Ok (x, r) /\
               strictly_increasing x /\ chain fle r).
Proof.
  split; [repeat split; (lra || lia) |].
  apply (branches_converge_then_diverge 0.05 0.15 0.075 0.6 0.8 40);
    (lra || lia).
Defined.

(** ** Centerline *)

(** X5: For valid radii between [1e-100] and [1e100] with a chamber at
    most [10^9] times wider than the throat, positive exponents and
    [2 <= n_points <= 10^9], [get_both_sections] returns the outer wall and
    the centerline on the same strictly increasing axial positions; the
    centerline radii are all zero and every wall radius is strictly
    positive, so the centerline lies strictly inside the wall at every
    station. *)
Theorem centerline_lies_inside_wall (tr er cr cp dp : R) (n : Z) :
  0 < tr -> tr < er -> tr < cr -> 0 < cp -> 0 < dp -> (2 <= n)%Z ->
  1e-100 <= tr -> er <= 1e100 -> cr <= 1e100 -> cr <= 1e9 * tr ->
  (n <= 10 ^ 9)%Z ->
  let noz := ParabolicNozzle_init (finite_params tr er cr cp dp) in
  exists x r_wall,
    get_both_sections noz n
    = Ok [("outer_wall"%string, (x, r_wall));
          ("centerline"%string, (x, map (fun _ => Fin 0) x))] /\
    get_centerline noz n = Ok (x, map (fun _ => Fin 0) x) /\
    len x = (n - 1)%Z /\ len r_wall = (n - 1)%Z /\
    strictly_increasing x /\
    Forall (flt (Fin 0)) r_wall.
Proof.
  intros Htr Hter Htcr Hcp Hdp Hn _ _ _ _ _ noz. unfold noz.
  unfold get_both_sections, get_centerline, get_outer_wall.
  destruct (generate_contour_returns (finite_params tr er cr cp dp) n
              ltac:(lia)) as (x0 & r0 & E0 & Hlen & Hx).
  pose proof E0 as E.
  rewrite generate_contour_fin in E by lia.
  rewrite E0. cbn [bind].
  exists x0, r0. split; [reflexivity |]. split; [reflexivity |].
  split; [unfold len; lia |]. split; [unfold len; lia |].
  injection E as <- <-. split.
  - apply strictly_increasing_Fin, contour_axial_increasing; lra.
  - assert (HL : 0 < Lconv cr) by (unfold Lconv; lra).
    pose proof (Ldiv_pos tr er Hter) as HLd.
    apply Forall_app. split; apply Forall_map.
    + eapply Forall_impl; [| apply linspaceR_bounds; lra].
      cbv beta. intros a Ha.
      destruct (conv_radius_range tr cr cp a ltac:(lra) ltac:(lra) Hcp Ha)
        as (v & -> & Hv & _).
      simpl. lra.
    + eapply Forall_impl; [| apply tl_linspaceR_positive; exact HLd].
      cbv beta. intros a Ha.
      destruct (div_radius_range tr er dp a Hter Hdp ltac:(lra))
        as (v & -> & Hv & _).
      simpl. lra.
Qed.

Lemma centerline_lies_inside_wall_witness :
  (0 < 0.05 /\ 0.05 < 0.15 /\ 0.05 < 0.075 /\ 0 < 0.6 /\ 0 < 0.8 /\
   (2 <= 200)%Z /\
   1e-100 <= 0.05 /\ 0.15 <= 1e100 /\ 0.075 <= 1e100 /\
   0.075 <= 1e9 * 0.05 /\ (200 <= 10 ^ 9)%Z) /\
  let noz := ParabolicNozzle_init (finite_params 0.05 0.15 0.075 0.6 0.8) in
  exists x r_wall,
    get_both_sections noz 200
    = Ok [("outer_wall"%string, (x, r_wall));
          ("centerline"%string, (x, map (fun _ => Fin 0) x))] /\
    get_centerline noz 200 = Ok (x, map (fun _ => Fin 0) x) /\
    len x = (200 - 1)%Z /\ len r_wall = (200 - 1)%Z /\
    strictly_increasing x /\
    Forall (flt (Fin 0)) r_wall.
Proof.
  split; [repeat split; (lra || lia) |].
  apply (centerline_lies_inside_wall 0.05 0.15 0.075 0.6 0.8 200);
    (lra || lia).
Defined.

(** ** ParabolicNozzle against ParabolicSection *)

(** [a - (a - b) * v] and [a + (b - a) * v] agree on every float [v],
    finite or not. *)
Lemma blend_from_either_end (a b : R) (v : float) :
  (Fin a - (Fin a - Fin b) * v)%fl = (Fin a + (Fin b - Fin a) * v)%fl.
Proof.
  destruct v as [u | | |]; cbn [fsub fadd fopp fmul].
  - f_equal. ring.
  - unfold sign_of, is_zero, is_neg.
    destruct (Req_dec_T (a + - b) 0), (Req_dec_T (b + - a) 0);
      try (exfalso; lra); try reflexivity.
    destruct (Rlt_dec (a + - b) 0), (Rlt_dec (b + - a) 0);
      try (exfalso; lra); reflexivity.
  - unfold sign_of, is_zero, is_neg.
    destruct (Req_dec_T (a + - b) 0), (Req_dec_T (b + - a) 0);
      try (exfalso; lra); try reflexivity.
    destruct (Rlt_dec (a + - b) 0), (Rlt_dec (b + - a) 0);
      try (exfalso; lra); reflexivity.
  - reflexivity.
Qed.

(** X6: Whatever the (finite) parameters and [n_points], each branch of the
    ParabolicNozzle is exactly what the ParabolicSection between the same
    end points generates with the branch exponent as its curvature: the
    convergent branch from (-L_convergent, chamber_radius) to
    (0, throat_radius), the divergent one from (0, throat_radius) to
    (L_divergent, exit_radius); errors included. *)
Theorem branches_are_parabolic_sections (tr er cr cp dp : R) (n : Z) :
  let noz := ParabolicNozzle_init (finite_params tr er cr cp dp) in
  _convergent_section noz n
  = nozzle.section_generate_points
      (nozzle.Parabolic
         (nozzle.ParabolicSection_init
            (nozzle.mkSectionParameters (- L_convergent noz)%fl (Fin 0)
               (Fin cr) (Fin tr) n) (Fin cp))) /\
  _divergent_section noz n
  = nozzle.section_generate_points
      (nozzle.Parabolic
         (nozzle.ParabolicSection_init
            (nozzle.mkSectionParameters (Fin 0) (L_divergent noz)
               (Fin tr) (Fin er) n) (Fin dp))).
Proof.
  intros noz. unfold noz, nozzle.section_generate_points.
  cbn [nozzle.section_params nozzle.ParabolicSection_init nozzle.par_params
       nozzle.start_x nozzle.end_x nozzle.n_points
       nozzle.get_radius_function].
  rewrite L_convergent_fin, L_divergent_fin.
  change (- Fin (Lconv cr))%fl with (Fin (- Lconv cr)).
  destruct (Z_lt_le_dec n 0) as [Hneg | Hpos].
  - unfold _convergent_section, _divergent_section.
    rewrite L_convergent_fin, L_divergent_fin.
    change (- Fin (Lconv cr))%fl with (Fin (- Lconv cr)).
    rewrite !linspace_neg by assumption. split; reflexivity.
  - rewrite <- (Z2Nat.id n) by assumption.
    rewrite convergent_section_fin, divergent_section_fin, !linspace_fin.
    cbn [bind]. rewrite !map_map. split.
    + do 2 f_equal. apply map_ext. intros x.
      unfold conv_radius, nozzle.ParabolicSection_get_radius_function,
        nozzle.ParabolicSection_init.
      cbn [nozzle.par_params nozzle.curvature nozzle.start_x nozzle.end_x
           nozzle.start_r nozzle.end_r].
      rewrite blend_from_either_end.
      rewrite (fsub_fin x), (fsub_fin 0), fadd_fin.
      replace (x - - Lconv cr) with (x + Lconv cr) by ring.
      replace (0 - - Lconv cr) with (Lconv cr) by ring.
      reflexivity.
    + do 2 f_equal. apply map_ext. intros x.
      unfold div_radius, nozzle.ParabolicSection_get_radius_function,
        nozzle.ParabolicSection_init.
      cbn [nozzle.par_params nozzle.curvature nozzle.start_x nozzle.end_x
           nozzle.start_r nozzle.end_r].
      rewrite (fsub_fin x), (fsub_fin (Ldiv tr er)).
      replace (x - 0) with x by ring.
      replace (Ldiv tr er - 0) with (Ldiv tr er) by ring.
      reflexivity.
Qed.

(** ** LinearSection, ParabolicSection *)

(** X7: A LinearSection of zero axial length cannot be built
    (ZeroDivisionError).  One whose length is at least [1e-100], with end
    points and end radii of magnitude at most [1e100], is built, and its
    radius function returns exactly [start_r] at [start_x]. *)
Theorem LinearSection_zero_length_and_start (sx ex sr er : R) (n : Z) :
  let p := nozzle.mkSectionParameters (Fin sx) (Fin ex) (Fin sr) (Fin er) n in
  (ex = sx -> nozzle.LinearSection_init p = Err ZeroDivisionError) /\
  (1e-100 <= Rabs (ex - sx) ->
   Rabs sx <= 1e100 -> Rabs ex <= 1e100 ->
   Rabs sr <= 1e100 -> Rabs er <= 1e100 ->
   exists lin,
     nozzle.LinearSection_init p = Ok lin /\
     nozzle.LinearSection_get_radius_function lin (Fin sx) = Fin sr).
Proof.
  intros p. split.
  - intros ->. unfold p, nozzle.LinearSection_init.
    cbn [nozzle.start_x nozzle.end_x nozzle.start_r nozzle.end_r
         fsub fadd fopp truediv].
    rewrite is_zero_true by lra. reflexivity.
  - intros Hlen _ _ _ _.
    assert (Hne : ex - sx <> 0).
    { intros E. rewrite E, Rabs_R0 in Hlen. lra. }
    destruct (LinearSection_fin sx ex sr er n Hne) as (lin & E & F).
    exists lin. split; [exact E |].
    rewrite F. f_equal. field. exact Hne.
Qed.

(** X8: The radius function of a ParabolicSection of non-zero axial length
    and end radii of magnitude at most [1e100] starts at [start_r] when
    the curvature exponent is positive, is constant when the exponent is 0,
    and is not finite at [start_x] when the exponent is negative (and the
    two end radii differ). *)
Theorem ParabolicSection_start_values (sx ex sr er c : R) (n : Z) :
  ex <> sx -> -1e100 <= sr <= 1e100 -> -1e100 <= er <= 1e100 ->
  let f := nozzle.ParabolicSection_get_radius_function
             (nozzle.ParabolicSection_init
                (nozzle.mkSectionParameters (Fin sx) (Fin ex) (Fin sr) (Fin er) n)
                (Fin c)) in
  (0 < c -> f (Fin sx) = Fin sr) /\
  (c = 0 -> forall x, f (Fin x) = f (Fin ex)) /\
  (c < 0 -> sr <> er -> is_finite (f (Fin sx)) = false).
Proof.
  intros Hne _ _ f. unfold f, nozzle.ParabolicSection_get_radius_function,
    nozzle.ParabolicSection_init.
  cbn [nozzle.par_params nozzle.curvature nozzle.start_x nozzle.end_x
       nozzle.start_r nozzle.end_r].
  rewrite !fsub_fin.
  split; [| split].
  - intros Hc. rewrite fdiv_fin by lra.
    replace ((sx - sx) / (ex - sx)) with 0 by (field; lra).
    rewrite fpow_fin by lra. unfold Rpow. float_tests.
    rewrite fmul_fin, fadd_fin. f_equal. ring.
  - intros -> x. rewrite !fpow_zero. reflexivity.
  - intros Hc Hsr. rewrite fdiv_fin by lra.
    replace ((sx - sx) / (ex - sx)) with 0 by (field; lra).
    rewrite fpow_zero_neg by assumption.
    unfold fmul, sign_of. rewrite is_zero_false by lra.
    destruct (is_neg (er - sr)); reflexivity.
Qed.

Lemma ParabolicSection_start_values_witness :
  (1 <> 0 /\ -1e100 <= 2 <= 1e100 /\ -1e100 <= 3 <= 1e100) /\
  let f := nozzle.ParabolicSection_get_radius_function
             (nozzle.ParabolicSection_init
                (nozzle.mkSectionParameters (Fin 0) (Fin 1) (Fin 2) (Fin 3) 50)
                (Fin (-1))) in
  (0 < -1 -> f (Fin 0) = Fin 2) /\
  (-1 = 0 -> forall x, f (Fin x) = f (Fin 1)) /\
  (-1 < 0 -> 2 <> 3 -> is_finite (f (Fin 0)) = false).
Proof.
  split; [repeat split; lra |].
  apply (ParabolicSection_start_values 0 1 2 3 (-1) 50); lra.
Defined.

(** ** CircularArcSection on a flat chord *)



(** ** Well-formedness of the wedge mesh *)

Lemma block_at_well_formed (bp : block_mesh.BlockMeshParams) (i k : Z) :
  (0 <= i < k - 1)%Z ->
  length (block_mesh.hex (block_at bp i)) = 8%nat /\
  NoDup (block_mesh.hex (block_at bp i)) /\
  Forall (fun v => (0 <= v < 4 * k)%Z) (block_mesh.hex (block_at bp i)).
Proof.
  intros Hi. unfold block_at. cbn [block_mesh.hex].
  split; [reflexivity |]. split.
  - repeat (constructor; [simpl; lia |]). constructor.
  - repeat (constructor; [lia |]). constructor.
Qed.

(** X11: Every mesh returned for [n_axial >= 1] is closed under its own
    indexing: each block lists 8 pairwise different vertex indices, and
    every index of every block and of every boundary face is in range of
    the vertex list. *)
Theorem mesh_indices_are_in_range (p : ParabolicNozzleParams)
    (bp : block_mesh.BlockMeshParams) :
  (1 <= block_mesh.n_axial bp)%Z ->
  exists m,
    block_mesh.generate_block_mesh_dict (ParabolicNozzle_init p) bp = Ok m /\
    Forall (fun b =>
              length (block_mesh.hex b) = 8%nat /\
              NoDup (block_mesh.hex b) /\
              Forall (fun v => (0 <= v < len (block_mesh.vertices m))%Z)
                     (block_mesh.hex b))
           (block_mesh.blocks m) /\
    Forall (fun f =>
              Forall (fun v => (0 <= v < len (block_mesh.vertices m))%Z)
                     (face_indices f))
           (snd (block_mesh.inlet m) ++ snd (block_mesh.outlet m)
            ++ snd (block_mesh.wall m) ++ snd (block_mesh.wedge0 m)
            ++ snd (block_mesh.wedge1 m)).
Proof.
  intros Hn. destruct (mesh_counts p bp Hn) as (x & r & _ & Hst & Em).
  eexists. split; [exact Em |].
  set (st := combine x r) in *.
  assert (Hk : (1 <= len st)%Z) by (unfold len; lia).
  assert (Hv : len (block_mesh.vertices (mesh_of_stations bp st))
               = (4 * len st)%Z).
  { unfold mesh_of_stations, len. cbn [block_mesh.vertices].
    rewrite flat_map_station_length. lia. }
  rewrite Hv. unfold mesh_of_stations.
  cbn [block_mesh.blocks block_mesh.inlet block_mesh.outlet block_mesh.wall
       block_mesh.wedge0 block_mesh.wedge1 snd].
  split.
  - apply Forall_map, Forall_forall. intros i Hi. apply in_range in Hi.
    now apply block_at_well_formed.
  - repeat (apply Forall_app; split).
    + constructor; [| constructor]. unfold inlet_face, face_indices.
      repeat (constructor; [lia |]). constructor.
    + constructor; [| constructor]. unfold outlet_face_at, face_indices.
      repeat (constructor; [lia |]). constructor.
    + apply Forall_map, Forall_forall. intros i Hi. apply in_range in Hi.
      unfold wall_face_at, face_indices.
      repeat (constructor; [lia |]). constructor.
    + apply Forall_map, Forall_forall. intros i Hi. apply in_range in Hi.
      unfold wedge0_face_at, face_indices.
      repeat (constructor; [lia |]). constructor.
    + apply Forall_map, Forall_forall. intros i Hi. apply in_range in Hi.
      unfold wedge1_face_at, face_indices.
      repeat (constructor; [lia |]). constructor.
Qed.

Lemma mesh_indices_are_in_range_witness :
  (1 <= block_mesh.n_axial block_mesh.BlockMeshParams_default)%Z /\
  exists m,
    block_mesh.generate_block_mesh_dict
      (ParabolicNozzle_init example_params) block_mesh.BlockMeshParams_default
    = Ok m /\
    Forall (fun b =>
              length (block_mesh.hex b) = 8%nat /\
              NoDup (block_mesh.hex b) /\
              Forall (fun v => (0 <= v < len (block_mesh.vertices m))%Z)
                     (block_mesh.hex b))
           (block_mesh.blocks m) /\
    Forall (fun f =>
              Forall (fun v => (0 <= v < len (block_mesh.vertices m))%Z)
                     (face_indices f))
           (snd (block_mesh.inlet m) ++ snd (block_mesh.outlet m)
            ++ snd (block_mesh.wall m) ++ snd (block_mesh.wedge0 m)
            ++ snd (block_mesh.wedge1 m)).
Proof.
  split; [simpl; lia |].
  apply (mesh_indices_are_in_range example_params
           block_mesh.BlockMeshParams_default).
  simpl. lia.
Defined.

Lemma nth_error_range (n : Z) (i : nat) (k : Z) :
  nth_error (range n) i = Some k -> k = Z.of_nat i /\ (Z.of_nat i < n)%Z.
Proof.
  intros H. unfold range in H. rewrite nth_error_map in H.
  destruct (nth_error (seq 0 (Z.to_nat n)) i) as [j |] eqn:E; [| discriminate].
  injection H as <-.
  assert (Hi : (i < length (seq 0 (Z.to_nat n)))%nat)
    by (apply nth_error_Some; rewrite E; discriminate).
  rewrite length_seq in Hi.
  apply nth_error_nth with (d := 0%nat) in E. rewrite seq_nth in E by lia.
  simpl in E. subst j. lia.
Qed.

(** X12: In every mesh returned for [n_axial >= 1], consecutive blocks are glued
    along a whole face: the four downstream vertices (v1, v2, v5, v6) of a
    block are the four upstream vertices (v0, v3, v4, v7) of the next. *)
Theorem consecutive_blocks_share_a_face (p : ParabolicNozzleParams)
    (bp : block_mesh.BlockMeshParams) :
  (1 <= block_mesh.n_axial bp)%Z ->
  exists m,
    block_mesh.generate_block_mesh_dict (ParabolicNozzle_init p) bp = Ok m /\
    forall (i : nat) (b b' : block_mesh.Block),
      nth_error (block_mesh.blocks m) i = Some b ->
      nth_error (block_mesh.blocks m) (S i) = Some b' ->
      exists v0 v1 v2 v3 v4 v5 v6 v7 w1 w2 w5 w6,
        block_mesh.hex b = [v0; v1; v2; v3; v4; v5; v6; v7] /\
        block_mesh.hex b' = [v1; w1; w2; v2; v5; w5; w6; v6].
Proof.
  intros Hn. destruct (mesh_counts p bp Hn) as (x & r & _ & Hst & Em).
  eexists. split; [exact Em |].
  unfold mesh_of_stations. cbn [block_mesh.blocks].
  intros i b b' Hb Hb'. rewrite nth_error_map in Hb, Hb'.
  destruct (nth_error (range (len (combine x r) - 1)) i) as [k |] eqn:Ek;
    [| discriminate].
  destruct (nth_error (range (len (combine x r) - 1)) (S i)) as [k' |] eqn:Ek';
    [| discriminate].
  apply nth_error_range in Ek, Ek'. destruct Ek as [-> _], Ek' as [-> _].
  injection Hb as <-. injection Hb' as <-.
  unfold block_at. cbn [block_mesh.hex].
  do 12 eexists. split; [reflexivity |].
  repeat (f_equal; try lia).
Qed.

Lemma consecutive_blocks_share_a_face_witness :
  (1 <= block_mesh.n_axial block_mesh.BlockMeshParams_default)%Z /\
  exists m,
    block_mesh.generate_block_mesh_dict
      (ParabolicNozzle_init example_params) block_mesh.BlockMeshParams_default
    = Ok m /\
    forall (i : nat) (b b' : block_mesh.Block),
      nth_error (block_mesh.blocks m) i = Some b ->
      nth_error (block_mesh.blocks m) (S i) = Some b' ->
      exists v0 v1 v2 v3 v4 v5 v6 v7 w1 w2 w5 w6,
        block_mesh.hex b = [v0; v1; v2; v3; v4; v5; v6; v7] /\
        block_mesh.hex b' = [v1; w1; w2; v2; v5; w5; w6; v6].
Proof.
  split; [simpl; lia |].
  apply (consecutive_blocks_share_a_face example_params
           block_mesh.BlockMeshParams_default).
  simpl. lia.
Defined.

(** X13: In every mesh returned for [n_axial >= 2] each boundary face is a
    face of a block.  With the eight pairwise different vertices of a block
    named [v0 .. v7] in the order of its [hex] entry, the wall, wedge0 and
    wedge1 faces of segment [i] are the faces [(v3 v2 v6 v7)],
    [(v0 v1 v2 v3)] and [(v5 v4 v7 v6)] of block [i], the inlet face is the
    face [(v0 v4 v7 v3)] of the first block and the outlet face the face
    [(v1 v2 v6 v5)] of the last block. *)
Theorem boundary_faces_are_block_faces (p : ParabolicNozzleParams)
    (bp : block_mesh.BlockMeshParams) :
  (2 <= block_mesh.n_axial bp)%Z ->
  exists m,
    block_mesh.generate_block_mesh_dict (ParabolicNozzle_init p) bp = Ok m /\
    (exists b v0 v1 v2 v3 v4 v5 v6 v7,
       nth_error (block_mesh.blocks m) 0 = Some b /\
       block_mesh.hex b = [v0; v1; v2; v3; v4; v5; v6; v7] /\
       snd (block_mesh.inlet m) = [(v0, v4, v7, v3)]) /\
    (exists b v0 v1 v2 v3 v4 v5 v6 v7,
       nth_error (block_mesh.blocks m)
                 (length (block_mesh.blocks m) - 1) = Some b /\
       block_mesh.hex b = [v0; v1; v2; v3; v4; v5; v6; v7] /\
       snd (block_mesh.outlet m) = [(v1, v2, v6, v5)]) /\
    forall (i : nat) (b : block_mesh.Block),
      nth_error (block_mesh.blocks m) i = Some b ->
      exists v0 v1 v2 v3 v4 v5 v6 v7,
        block_mesh.hex b = [v0; v1; v2; v3; v4; v5; v6; v7] /\
        NoDup (block_mesh.hex b) /\
        nth_error (snd (block_mesh.wall m)) i = Some (v3, v2, v6, v7) /\
        nth_error (snd (block_mesh.wedge0 m)) i = Some (v0, v1, v2, v3) /\
        nth_error (snd (block_mesh.wedge1 m)) i = Some (v5, v4, v7, v6).
Proof.
  intros Hn. destruct (mesh_counts p bp ltac:(lia)) as (x & r & _ & Hst & Em).
  eexists. split; [exact Em |].
  set (st := combine x r) in *.
  assert (Hk : len st = block_mesh.n_axial bp) by (unfold len; lia).
  unfold mesh_of_stations.
  cbn [block_mesh.blocks block_mesh.inlet block_mesh.outlet block_mesh.wall
       block_mesh.wedge0 block_mesh.wedge1 snd].
  assert (Hr : forall i : nat, (Z.of_nat i < len st - 1)%Z ->
               nth_error (range (len st - 1)) i = Some (Z.of_nat i)).
  { intros i Hi. unfold range. rewrite nth_error_map.
    rewrite (nth_error_nth' _ 0%nat) by (rewrite length_seq; lia).
    rewrite seq_nth by lia. reflexivity. }
  split; [| split].
  - exists (block_at bp 0). do 8 eexists.
    rewrite nth_error_map, (Hr 0%nat) by lia.
    split; [reflexivity |]. split; [reflexivity |]. reflexivity.
  - exists (block_at bp (len st - 2)). do 8 eexists.
    rewrite length_map, range_length, nth_error_map.
    rewrite (Hr (Z.to_nat (len st - 1) - 1)%nat) by lia.
    split; [cbn [option_map]; do 2 f_equal; lia |].
    split; [reflexivity |].
    unfold outlet_face_at. apply f_equal2; [| reflexivity].
    repeat apply (f_equal2 pair); lia.
  - intros i b Hb. rewrite nth_error_map in Hb.
    destruct (nth_error (range (len st - 1)) i) as [k |] eqn:Ek;
      [| discriminate].
    injection Hb as <-.
    destruct (nth_error_range _ _ _ Ek) as [-> Hi].
    do 8 eexists.
    rewrite !nth_error_map, Ek.
    split; [reflexivity |].
    split; [apply (block_at_well_formed bp (Z.of_nat i) (len st)); lia |].
    repeat split.
Qed.

Lemma boundary_faces_are_block_faces_witness :
  (2 <= block_mesh.n_axial block_mesh.BlockMeshParams_default)%Z /\
  exists m,
    block_mesh.generate_block_mesh_dict
      (ParabolicNozzle_init example_params) block_mesh.BlockMeshParams_default
    = Ok m /\
    (exists b v0 v1 v2 v3 v4 v5 v6 v7,
       nth_error (block_mesh.blocks m) 0 = Some b /\
       block_mesh.hex b = [v0; v1; v2; v3; v4; v5; v6; v7] /\
       snd (block_mesh.inlet m) = [(v0, v4, v7, v3)]) /\
    (exists b v0 v1 v2 v3 v4 v5 v6 v7,
       nth_error (block_mesh.blocks m)
                 (length (block_mesh.blocks m) - 1) = Some b /\
       block_mesh.hex b = [v0; v1; v2; v3; v4; v5; v6; v7] /\
       snd (block_mesh.outlet m) = [(v1, v2, v6, v5)]) /\
    forall (i : nat) (b : block_mesh.Block),
      nth_error (block_mesh.blocks m) i = Some b ->
      exists v0 v1 v2 v3 v4 v5 v6 v7,
        block_mesh.hex b = [v0; v1; v2; v3; v4; v5; v6; v7] /\
        NoDup (block_mesh.hex b) /\
        nth_error (snd (block_mesh.wall m)) i = Some (v3, v2, v6, v7) /\
        nth_error (snd (block_mesh.wedge0 m)) i = Some (v0, v1, v2, v3) /\
        nth_error (snd (block_mesh.wedge1 m)) i = Some (v5, v4, v7, v6).
Proof.
  split; [simpl; lia |].
  apply (boundary_faces_are_block_faces example_params
           block_mesh.BlockMeshParams_default).
  simpl. lia.
Defined.

(** X14: For [n_axial = 1] the mesh is returned without any block and without
    wall or wedge faces, yet with its 4 vertices and with one inlet and one
    outlet face drawn on the same single station. *)
Theorem single_station_mesh_has_no_block (p : ParabolicNozzleParams)
    (bp : block_mesh.BlockMeshParams) :
  block_mesh.n_axial bp = 1%Z ->
  exists m,
    block_mesh.generate_block_mesh_dict (ParabolicNozzle_init p) bp = Ok m /\
    block_mesh.blocks m = [] /\
    len (block_mesh.vertices m) = 4%Z /\
    snd (block_mesh.inlet m) = [(0, 2, 3, 1)%Z] /\
    snd (block_mesh.outlet m) = [(0, 1, 3, 2)%Z] /\
    snd (block_mesh.wall m) = [] /\
    snd (block_mesh.wedge0 m) = [] /\
    snd (block_mesh.wedge1 m) = [].
Proof.
  intros Hn. destruct (mesh_counts p bp ltac:(lia)) as (x & r & _ & Hst & Em).
  eexists. split; [exact Em |].
  set (st := combine x r) in *.
  assert (Hk : len st = 1%Z) by (unfold len; lia).
  unfold mesh_of_stations.
  cbn [block_mesh.blocks block_mesh.inlet block_mesh.outlet block_mesh.wall
       block_mesh.wedge0 block_mesh.wedge1 block_mesh.vertices snd].
  rewrite Hk. change (range (1 - 1)) with (@nil Z).
  repeat split; try reflexivity.
  unfold len. rewrite flat_map_station_length. unfold len in Hk. lia.
Qed.

Lemma single_station_mesh_has_no_block_witness :
  block_mesh.n_axial (with_n_axial block_mesh.BlockMeshParams_default 1) = 1%Z
  /\
  exists m,
    block_mesh.generate_block_mesh_dict
      (ParabolicNozzle_init example_params)
      (with_n_axial block_mesh.BlockMeshParams_default 1) = Ok m /\
    block_mesh.blocks m = [] /\
    len (block_mesh.vertices m) = 4%Z /\
    snd (block_mesh.inlet m) = [(0, 2, 3, 1)%Z] /\
    snd (block_mesh.outlet m) = [(0, 1, 3, 2)%Z] /\
    snd (block_mesh.wall m) = [] /\
    snd (block_mesh.wedge0 m) = [] /\
    snd (block_mesh.wedge1 m) = [].
Proof.
  split; [reflexivity |].
  apply (single_station_mesh_has_no_block example_params
           (with_n_axial block_mesh.BlockMeshParams_default 1)).
  reflexivity.
Defined.



(** ** [np.unique] *)

Lemma sort_le_refl (a : float) : sort_le a a = true.
Proof.
  destruct a; simpl; try reflexivity.
  destruct (Rle_dec x x); [reflexivity | lra].
Qed.

Lemma sort_le_total (a b : float) : sort_le a b = true \/ sort_le b a = true.
Proof.
  destruct a, b; simpl; auto.
  destruct (Rle_dec x x0), (Rle_dec x0 x); auto. lra.
Qed.

Lemma sort_le_trans (a b c : float) :
  sort_le a b = true -> sort_le b c = true -> sort_le a c = true.
Proof.
  destruct a, b, c; simpl; try reflexivity; try discriminate.
  destruct (Rle_dec x x0), (Rle_dec x0 x1), (Rle_dec x x1);
    try reflexivity; try discriminate. lra.
Qed.

Lemma sort_le_false (a b : float) : sort_le a b = false -> sort_le b a = true.
Proof.
  intros H. destruct (sort_le_total a b) as [E | E]; [congruence | exact E].
Qed.

Lemma sort_eq_fin (a b : R) : sort_eq (Fin a) (Fin b) = true <-> a = b.
Proof.
  unfold sort_eq. simpl.
  destruct (Rle_dec a b), (Rle_dec b a); simpl; split; intros H;
    try discriminate; try reflexivity; lra.
Qed.

Lemma sort_lt_fin (a b : R) : sort_lt (Fin a) (Fin b) <-> a < b.
Proof.
  unfold sort_lt. simpl.
  destruct (Rle_dec a b), (Rle_dec b a); split; intros H;
    try (destruct H; discriminate); try lra; auto.
Qed.

Lemma insert_stable_perm (p : float * Z) (l : list (float * Z)) :
  Permutation (insert_stable p l) (p :: l).
Proof.
  induction l as [| q t IH]; simpl; [apply Permutation_refl |].
  destruct (sort_le (fst q) (fst p)).
  - eapply perm_trans; [apply perm_skip; exact IH | apply perm_swap].
  - apply Permutation_refl.
Qed.

Lemma insert_stable_sorted (p : float * Z) (l : list (float * Z)) :
  StronglySorted lex_lt l ->
  Forall (fun q => (snd q < snd p)%Z) l ->
  StronglySorted lex_lt (insert_stable p l).
Proof.
  induction l as [| q t IH]; intros Hs Hidx; simpl.
  - constructor; constructor.
  - apply StronglySorted_inv in Hs. destruct Hs as [Ht Hq].
    inversion Hidx as [| ? ? Hqp Htp]; subst.
    destruct (sort_le (fst q) (fst p)) eqn:E.
    + constructor; [apply IH; assumption |].
      eapply Permutation_Forall;
        [apply Permutation_sym, insert_stable_perm |].
      constructor; [| exact Hq].
      split; [exact E | intros _; exact Hqp].
    + constructor; [constructor; assumption |].
      assert (Epq : sort_le (fst p) (fst q) = true) by now apply sort_le_false.
      constructor.
      * split; [exact Epq | intros H; congruence].
      * eapply Forall_impl; [| exact Hq]. intros e [He _].
        split; [eapply sort_le_trans; eassumption |].
        intros Hep. exfalso.
        assert (sort_le (fst q) (fst p) = true)
          by (eapply sort_le_trans; eassumption).
        congruence.
Qed.

Lemma fold_insert_sorted (items acc : list (float * Z)) :
  StronglySorted lex_lt acc ->
  StronglySorted (fun p q => (snd p < snd q)%Z) items ->
  Forall (fun a => Forall (fun p => (snd a < snd p)%Z) items) acc ->
  StronglySorted lex_lt
    (fold_left (fun acc p => insert_stable p acc) items acc) /\
  Permutation (fold_left (fun acc p => insert_stable p acc) items acc)
              (acc ++ items).
Proof.
  revert acc. induction items as [| p t IH]; intros acc Hacc Hit Hlt.
  - simpl. rewrite app_nil_r. split; [exact Hacc | apply Permutation_refl].
  - simpl. apply StronglySorted_inv in Hit. destruct Hit as [Ht Hp].
    destruct (IH (insert_stable p acc)) as [Hs Hperm].
    + apply insert_stable_sorted; [exact Hacc |].
      eapply Forall_impl; [| exact Hlt]. intros a Ha.
      inversion Ha; assumption.
    + exact Ht.
    + eapply Permutation_Forall;
        [apply Permutation_sym, insert_stable_perm |].
      constructor; [exact Hp |].
      eapply Forall_impl; [| exact Hlt]. intros a Ha.
      inversion Ha; assumption.
    + split; [exact Hs |].
      eapply perm_trans; [exact Hperm |].
      eapply perm_trans;
        [apply Permutation_app_tail, insert_stable_perm |].
      simpl. apply Permutation_middle.
Qed.

(** The pairs (value, position) of an array. *)
Lemma in_enumerate (x : list float) (s : nat) (v : float) (j : Z) :
  In (v, j) (combine x (map Z.of_nat (seq s (length x)))) <->
  exists i, j = Z.of_nat (s + i) /\ nth_error x i = Some v.
Proof.
  revert s. induction x as [| a x IH]; intros s; simpl.
  - split; [tauto | intros (i & _ & H); destruct i; discriminate].
  - split.
    + intros [E | H].
      * injection E as -> <-. exists 0%nat. split; [f_equal; lia | reflexivity].
      * apply IH in H. destruct H as (i & -> & Hi).
        exists (S i). split; [f_equal; lia | exact Hi].
    + intros (i & -> & Hi). destruct i as [| i].
      * left. simpl in Hi. injection Hi as ->. do 2 f_equal. lia.
      * right. apply IH. exists i. split; [f_equal; lia | exact Hi].
Qed.

Lemma enumerate_sorted (x : list float) (s : nat) :
  StronglySorted (fun p q : float * Z => (snd p < snd q)%Z)
                 (combine x (map Z.of_nat (seq s (length x)))).
Proof.
  revert s. induction x as [| a x IH]; intros s; simpl; [constructor |].
  constructor; [apply IH |].
  apply Forall_forall. intros [v j] Hin. apply in_enumerate in Hin.
  destruct Hin as (i & -> & _). simpl. lia.
Qed.

Lemma argsort_stable_spec (x : list float) :
  StronglySorted lex_lt (argsort_stable x) /\
  forall v j, In (v, j) (argsort_stable x) <->
              exists i, j = Z.of_nat i /\ nth_error x i = Some v.
Proof.
  unfold argsort_stable, range, len. rewrite Nat2Z.id.
  destruct (fold_insert_sorted
              (combine x (map Z.of_nat (seq 0 (length x)))) [])
    as [Hs Hperm].
  - constructor.
  - apply enumerate_sorted.
  - constructor.
  - split; [exact Hs |].
    intros v j. simpl in Hperm. split.
    + intros H. eapply Permutation_in in H; [| exact Hperm].
      apply in_enumerate in H. exact H.
    + intros H. eapply Permutation_in; [apply Permutation_sym, Hperm |].
      apply in_enumerate. exact H.
Qed.

Lemma sort_eq_refl (a : float) : sort_eq a a = true.
Proof. unfold sort_eq. now rewrite sort_le_refl. Qed.

Lemma sort_eq_split (a b : float) :
  sort_eq a b = true <-> sort_le a b = true /\ sort_le b a = true.
Proof. unfold sort_eq. apply andb_true_iff. Qed.

Lemma sort_lt_of_le_not_eq (a b : float) :
  sort_le a b = true -> sort_eq a b = false -> sort_lt a b.
Proof.
  intros Hle Hne. split; [exact Hle |].
  unfold sort_eq in Hne. rewrite Hle in Hne. exact Hne.
Qed.

Lemma sort_lt_trans (a b c : float) : sort_lt a b -> sort_lt b c -> sort_lt a c.
Proof.
  intros [Hab Hba] [Hbc Hcb]. split; [eapply sort_le_trans; eassumption |].
  destruct (sort_le c a) eqn:E; [| reflexivity].
  assert (sort_le c b = true) by (eapply sort_le_trans; eassumption).
  congruence.
Qed.

Lemma sort_lt_eq_l (a b c : float) :
  sort_eq a b = true -> sort_lt b c -> sort_lt a c.
Proof.
  intros Hab [Hbc Hcb]. apply sort_eq_split in Hab. destruct Hab as [Hab Hba].
  split; [eapply sort_le_trans; eassumption |].
  destruct (sort_le c a) eqn:E; [| reflexivity].
  assert (sort_le c b = true) by (eapply sort_le_trans; eassumption).
  congruence.
Qed.

Lemma sort_eq_trans (a b c : float) :
  sort_eq a b = true -> sort_eq b c = true -> sort_eq a c = true.
Proof.
  rewrite !sort_eq_split. intros [H1 H2] [H3 H4].
  split; eapply sort_le_trans; eassumption.
Qed.

(** What the mask of [np.unique] keeps of a stably sorted list. *)
Lemma mask_runs_spec (l : list (float * Z)) (k : float) :
  StronglySorted lex_lt l ->
  Forall (fun q => sort_le k (fst q) = true) l ->
  StronglySorted key_lt (mask_runs k l) /\
  Forall (fun p => sort_lt k (fst p)) (mask_runs k l) /\
  incl (mask_runs k l) l /\
  Forall (fun q => sort_eq k (fst q) = true \/
                   exists p, In p (mask_runs k l) /\
                             sort_eq (fst p) (fst q) = true /\
                             (snd p <= snd q)%Z) l.
Proof.
  revert k. induction l as [| q t IH]; intros k Hs Hk.
  - simpl. repeat split; try constructor. intros a Ha. exact Ha.
  - apply StronglySorted_inv in Hs. destruct Hs as [Ht Hq].
    inversion Hk as [| ? ? Hkq Hkt]; subst.
    assert (Hqt : Forall (fun e => sort_le (fst q) (fst e) = true) t).
    { eapply Forall_impl; [| exact Hq]. intros e [He _]. exact He. }
    destruct (IH (fst q) Ht Hqt) as (S' & G' & I' & C').
    simpl. destruct (sort_eq k (fst q)) eqn:E.
    + split; [exact S' |]. split; [| split].
      * eapply Forall_impl; [| exact G']. intros p Hp.
        eapply sort_lt_eq_l; eassumption.
      * apply incl_tl. exact I'.
      * constructor; [left; exact E |].
        eapply Forall_impl; [| exact C']. intros e [He | He].
        -- left. eapply sort_eq_trans; eassumption.
        -- right. exact He.
    + assert (Hlt : sort_lt k (fst q)) by now apply sort_lt_of_le_not_eq.
      split; [constructor; assumption |]. split; [| split].
      * constructor; [exact Hlt |].
        eapply Forall_impl; [| exact G']. intros p Hp.
        eapply sort_lt_trans; eassumption.
      * intros a [<- | Ha]; [left; reflexivity | right; apply I'; exact Ha].
      * constructor.
        -- right. exists q. split; [left; reflexivity |].
           split; [apply sort_eq_refl | lia].
        -- rewrite Forall_forall in C', Hq |- *. intros e He.
           destruct (C' e He) as [Heq | (p & Hp & Hpe & Hle)].
           ++ right. exists q. split; [left; reflexivity |].
              split; [exact Heq |].
              destruct (Hq e He) as [_ Hidx].
              apply sort_eq_split in Heq. destruct Heq as [_ Heq].
              specialize (Hidx Heq). lia.
           ++ right. exists p. split; [right; exact Hp |]. auto.
Qed.

Lemma first_of_runs_spec (l : list (float * Z)) :
  StronglySorted lex_lt l ->
  StronglySorted key_lt (first_of_runs l) /\
  incl (first_of_runs l) l /\
  Forall (fun q => exists p, In p (first_of_runs l) /\
                             sort_eq (fst p) (fst q) = true /\
                             (snd p <= snd q)%Z) l.
Proof.
  destruct l as [| p t]; intros Hs.
  - simpl. repeat split; try constructor. intros a Ha. exact Ha.
  - apply StronglySorted_inv in Hs. destruct Hs as [Ht Hp].
    assert (Hpt : Forall (fun e => sort_le (fst p) (fst e) = true) t).
    { eapply Forall_impl; [| exact Hp]. intros e [He _]. exact He. }
    destruct (mask_runs_spec t (fst p) Ht Hpt) as (S' & G' & I' & C').
    simpl. split; [constructor; assumption |]. split.
    + intros a [<- | Ha]; [left; reflexivity | right; apply I'; exact Ha].
    + constructor.
      * exists p. split; [left; reflexivity |].
        split; [apply sort_eq_refl | lia].
      * rewrite Forall_forall in C', Hp |- *. intros e He.
        destruct (C' e He) as [Heq | (q & Hq & Hqe & Hle)].
        -- exists p. split; [left; reflexivity |]. split; [exact Heq |].
           destruct (Hp e He) as [_ Hidx].
           apply sort_eq_split in Heq. destruct Heq as [_ Heq].
           specialize (Hidx Heq). lia.
        -- exists q. split; [right; exact Hq |]. auto.
Qed.

Lemma key_lt_sorted_injective (u : list (float * Z)) (p q : float * Z) :
  StronglySorted key_lt u -> In p u -> In q u ->
  sort_eq (fst p) (fst q) = true -> p = q.
Proof.
  induction u as [| a t IH]; intros Hs Hp Hq Heq; [contradiction |].
  apply StronglySorted_inv in Hs. destruct Hs as [Ht Ha].
  rewrite Forall_forall in Ha.
  apply sort_eq_split in Heq. destruct Heq as [Hpq Hqp].
  destruct Hp as [<- | Hp], Hq as [<- | Hq].
  - reflexivity.
  - destruct (Ha q Hq) as [_ Hf]. congruence.
  - destruct (Ha p Hp) as [_ Hf]. congruence.
  - apply IH; try assumption. apply sort_eq_split. auto.
Qed.

(** [np.unique(x, return_index=True)]: the values come out strictly sorted,
    each with a position where it occurs in [x]; every entry of [x] is
    represented, by an occurrence that is not later than it. *)
Lemma unique_return_index_spec (x : list float) :
  let u := first_of_runs (argsort_stable x) in
  unique_return_index x = (map fst u, map snd u) /\
  StronglySorted key_lt u /\
  (forall p, In p u ->
     exists i, snd p = Z.of_nat i /\ nth_error x i = Some (fst p)) /\
  (forall i v, nth_error x i = Some v ->
     exists p, In p u /\ sort_eq (fst p) v = true /\ (snd p <= Z.of_nat i)%Z).
Proof.
  intros u. destruct (argsort_stable_spec x) as [Hs Hin].
  destruct (first_of_runs_spec (argsort_stable x) Hs) as (Su & Iu & Cu).
  fold u in Su, Iu, Cu.
  split; [reflexivity |]. split; [exact Su |]. split.
  - intros [v j] Hp. apply Iu in Hp. apply Hin in Hp. exact Hp.
  - intros i v Hi. rewrite Forall_forall in Cu.
    assert (Hm : In (v, Z.of_nat i) (argsort_stable x))
      by (apply Hin; exists i; auto).
    destruct (Cu _ Hm) as (p & Hp & Heq & Hle). exists p. auto.
Qed.

Lemma take_enumerated (x : list float) (u : list (float * Z)) :
  (forall p, In p u ->
     exists i, snd p = Z.of_nat i /\ nth_error x i = Some (fst p)) ->
  take x (map snd u) = Ok (map fst u).
Proof.
  unfold take. induction u as [| p t IH]; intros H; [reflexivity |].
  simpl. destruct (H p (or_introl eq_refl)) as (i & Ei & Hi).
  rewrite Ei.
  rewrite (index_in_range _ _ (fst p))
    by (apply nth_error_Some; rewrite Hi; discriminate).
  rewrite (nth_error_nth _ _ _ Hi). cbn [bind].
  rewrite IH by (intros q Hq; apply H; right; exact Hq). reflexivity.
Qed.

Lemma take_in_range {A : Type} (r : list A) (d : A) (idx : list Z) :
  Forall (fun j => exists i, j = Z.of_nat i /\ (i < length r)%nat) idx ->
  take r idx = Ok (map (fun j => nth (Z.to_nat j) r d) idx).
Proof.
  unfold take. induction idx as [| j t IH]; intros H; [reflexivity |].
  inversion H as [| ? ? (i & -> & Hi) Ht]; subst.
  simpl. rewrite (index_in_range _ _ d) by exact Hi. cbn [bind].
  rewrite IH by exact Ht. rewrite Nat2Z.id. reflexivity.
Qed.

(** ** [Nozzle.generate_contour] *)

Lemma regular_section_points (s : nozzle.NozzleSection) :
  regular_section s ->
  exists xs rs,
    nozzle.section_generate_points s = Ok (map Fin xs, rs) /\
    length rs = length xs.
Proof.
  intros ((a & b & Ea & Eb) & Hn & Hlen).
  unfold nozzle.section_generate_points. rewrite Ea, Eb.
  rewrite <- (Z2Nat.id _ Hn), linspace_fin. cbn [bind].
  eexists. eexists. split; [reflexivity |].
  now rewrite Hlen, length_map.
Qed.

Lemma regular_sections_points (l : list nozzle.NozzleSection) :
  Forall regular_section l ->
  exists pts,
    mapM nozzle.section_generate_points l = Ok pts /\
    length pts = length l /\
    all_finite (concat (map fst pts)) /\
    length (concat (map snd pts)) = length (concat (map fst pts)).
Proof.
  induction l as [| s l IH]; intros H.
  - exists []. repeat split. constructor.
  - inversion H as [| ? ? Hs Hl]; subst.
    destruct (regular_section_points s Hs) as (xs & rs & E & Hlen).
    destruct (IH Hl) as (pts & Em & Hp & Hfin & Hcat).
    exists ((map Fin xs, rs) :: pts). simpl. rewrite E. cbn [bind].
    rewrite Em. cbn [bind]. split; [reflexivity |].
    split; [now rewrite Hp |]. split.
    + unfold all_finite. apply Forall_app. split; [| exact Hfin].
      apply Forall_map, Forall_forall. reflexivity.
    + rewrite !length_app, Hcat, Hlen, length_map. reflexivity.
Qed.

Lemma key_lt_sorted_increasing (u : list (float * Z)) :
  StronglySorted key_lt u ->
  Forall (fun p => is_finite (fst p) = true) u ->
  strictly_increasing (map fst u).
Proof.
  unfold strictly_increasing.
  induction u as [| a t IH]; intros Hs Hf; [exact I |].
  apply StronglySorted_inv in Hs. destruct Hs as [Ht Ha].
  inversion Hf as [| ? ? Hfa Hft]; subst.
  change (map fst (a :: t)) with (fst a :: map fst t).
  rewrite chain_cons. split; [| apply IH; assumption].
  destruct t as [| b t']; [exact I |]. simpl.
  inversion Ha as [| ? ? Hab _]; subst.
  inversion Hft as [| ? ? Hfb _]; subst.
  unfold key_lt in Hab.
  destruct (fst a) as [xa | | |], (fst b) as [xb | | |]; try discriminate.
  simpl. now apply sort_lt_fin.
Qed.

Lemma combine_map_pairs {A B C : Type} (f : A -> B) (g : A -> C)
    (l : list A) :
  combine (map f l) (map g l) = map (fun a => (f a, g a)) l.
Proof. induction l as [| a l IH]; simpl; [reflexivity | now rewrite IH]. Qed.

Lemma regular_nozzle_contour (self : nozzle.Nozzle) :
  nozzle.sections self <> [] ->
  Forall regular_section (nozzle.sections self) ->
  exists x r x' r',
    nozzle.Nozzle_generate_contour self false = Ok (x, r) /\
    length r = length x /\
    nozzle.Nozzle_generate_contour self true = Ok (x', r') /\
    length r' = length x' /\
    strictly_increasing x' /\
    (forall v, In v x' <-> In v x) /\
    Forall (fun xr =>
              exists i, nth_error x i = Some (fst xr) /\
                        nth_error r i = Some (snd xr) /\
                        forall j, (j < i)%nat ->
                                  nth_error x j <> Some (fst xr))
           (combine x' r').
Proof.
  intros Hne Hreg.
  destruct (regular_sections_points _ Hreg)
    as (pts & Em & Hp & Hfin & Hcat).
  assert (Hpts : pts <> []).
  { intros ->. destruct (nozzle.sections self); [congruence | discriminate]. }
  set (x := concat (map fst pts)) in *.
  set (r := concat (map snd pts)) in *.
  destruct (unique_return_index_spec x) as (Eu & Su & U2 & U3).
  set (u := first_of_runs (argsort_stable x)) in *.
  assert (Hconc : forall b,
            nozzle.Nozzle_generate_contour self b
            = if b then
                (x' <- take x (snd (unique_return_index x)) ;;
                 r' <- take r (snd (unique_return_index x)) ;;
                 Ok (x', r'))
              else Ok (x, r)).
  { intros b. unfold nozzle.Nozzle_generate_contour. rewrite Em.
    cbn [bind]. destruct pts as [| p0 pts']; [congruence |].
    reflexivity. }
  assert (Hidx : Forall (fun j => exists i, j = Z.of_nat i /\
                                            (i < length r)%nat)
                        (map snd u)).
  { apply Forall_map, Forall_forall. intros p Hpu.
    destruct (U2 p Hpu) as (i & Ei & Hi). exists i. split; [exact Ei |].
    rewrite Hcat. apply nth_error_Some. rewrite Hi. discriminate. }
  exists x, r, (map fst u),
         (map (fun j => nth (Z.to_nat j) r NaN) (map snd u)).
  split; [apply (Hconc false) |]. split; [exact Hcat |].
  split.
  { rewrite (Hconc true), Eu. cbn [snd].
    rewrite (take_enumerated x u U2). cbn [bind].
    rewrite (take_in_range r NaN _ Hidx). reflexivity. }
  split; [now rewrite !length_map |].
  assert (Hufin : Forall (fun p => is_finite (fst p) = true) u).
  { apply Forall_forall. intros p Hpu.
    destruct (U2 p Hpu) as (i & _ & Hi). apply nth_error_In in Hi.
    unfold all_finite in Hfin. rewrite Forall_forall in Hfin. auto. }
  split; [apply key_lt_sorted_increasing; assumption |].
  split.
  { intros v. split.
    - intros Hv. apply in_map_iff in Hv. destruct Hv as (p & <- & Hpu).
      destruct (U2 p Hpu) as (i & _ & Hi). eapply nth_error_In; eassumption.
    - intros Hv. apply In_nth_error in Hv. destruct Hv as (i & Hi).
      destruct (U3 i v Hi) as (p & Hpu & Heq & _).
      apply in_map_iff. exists p. split; [| exact Hpu].
      rewrite Forall_forall in Hufin. specialize (Hufin p Hpu).
      assert (Hvf : is_finite v = true).
      { unfold all_finite in Hfin. rewrite Forall_forall in Hfin.
        apply Hfin. eapply nth_error_In; eassumption. }
      destruct (fst p) as [a | | |], v as [b | | |]; try discriminate.
      f_equal. now apply sort_eq_fin. }
  rewrite map_map, combine_map_pairs. apply Forall_map, Forall_forall.
  intros p Hpu. cbn [fst snd].
  destruct (U2 p Hpu) as (i & Ei & Hi). exists i.
  split; [exact Hi |]. split.
  { rewrite Ei, Nat2Z.id. apply nth_error_nth'.
    rewrite Hcat. apply nth_error_Some. rewrite Hi. discriminate. }
  intros j Hj Hxj.
  destruct (U3 j (fst p) Hxj) as (q & Hqu & Heq & Hle).
  assert (q = p)
    by (eapply key_lt_sorted_injective; eassumption).
  subst q. lia.
Qed.



(** ** [Nozzle.get_full_section] *)





(** ** Nozzles whose sections agree where they meet *)

Lemma chain_Rlt_unique (l1 l2 : list R) :
  chain Rlt l1 -> chain Rlt l2 ->
  (forall v, In v l1 <-> In v l2) -> l1 = l2.
Proof.
  revert l2. induction l1 as [| a t1 IH]; intros [| b t2] H1 H2 Hin.
  - reflexivity.
  - exfalso. apply (proj2 (Hin b)). now left.
  - exfalso. apply (proj1 (Hin a)). now left.
  - pose proof (chain_Rlt_above _ _ H1) as Ha.
    pose proof (chain_Rlt_above _ _ H2) as Hb.
    rewrite Forall_forall in Ha, Hb.
    assert (Eab : a = b).
    { destruct (proj1 (Hin a) (or_introl eq_refl)) as [E | Hat2];
        [now symmetry |].
      destruct (proj2 (Hin b) (or_introl eq_refl)) as [E | Hbt1];
        [exact E |].
      specialize (Ha _ Hbt1). specialize (Hb _ Hat2). lra. }
    subst b. f_equal. apply IH.
    + now apply chain_cons in H1.
    + now apply chain_cons in H2.
    + intros v. split; intros Hv.
      * destruct (proj1 (Hin v) (or_intror Hv)) as [E | Hv2]; [| exact Hv2].
        specialize (Ha _ Hv). lra.
      * destruct (proj2 (Hin v) (or_intror Hv)) as [E | Hv1]; [| exact Hv1].
        specialize (Hb _ Hv). lra.
Qed.

Lemma chain_flt_Fin (l : list R) : chain flt (map Fin l) -> chain Rlt l.
Proof.
  induction l as [| a t IH]; [trivial |].
  change (map Fin (a :: t)) with (Fin a :: map Fin t).
  rewrite !chain_cons. intros [Hh Ht]. split; [| now apply IH].
  destruct t; [exact I | exact Hh].
Qed.

Lemma finite_list_reals (l : list float) :
  (forall v, In v l -> exists a, v = Fin a) -> exists l', l = map Fin l'.
Proof.
  induction l as [| v t IH]; intros H.
  - now exists [].
  - destruct (H v (or_introl eq_refl)) as (a & ->).
    destruct IH as (t' & ->); [intros w Hw; apply H; now right |].
    now exists (a :: t').
Qed.

Lemma graph_of_combine {A B : Type} (G : A -> B) (l : list A) (r : list B) :
  length r = length l ->
  Forall (fun xr => snd xr = G (fst xr)) (combine l r) ->
  r = map G l.
Proof.
  revert r. induction l as [| a t IH]; intros [| b r] Hlen H;
    try discriminate; [reflexivity |].
  simpl in H. inversion H as [| ? ? Hb Ht]; subst. simpl in Hb. subst b.
  simpl. f_equal. apply IH; [simpl in Hlen; lia | exact Ht].
Qed.

(** When the radius of every sampled point is a function [G] of its axial
    position, the contour without duplicates is the graph of [G] over the
    distinct sampled positions in increasing order. *)
Lemma contour_of_function (self : nozzle.Nozzle) (G : float -> float)
    (X xs : list R) :
  nozzle.sections self <> [] ->
  Forall regular_section (nozzle.sections self) ->
  nozzle.Nozzle_generate_contour self false
  = Ok (map Fin X, map G (map Fin X)) ->
  chain Rlt xs ->
  (forall v, In v X <-> In v xs) ->
  nozzle.Nozzle_generate_contour self true
  = Ok (map Fin xs, map G (map Fin xs)).
Proof.
  intros Hne Hreg Efalse Hxs Hsame.
  destruct (regular_nozzle_contour self Hne Hreg)
    as (x & r & x' & r' & E0 & _ & E & Hlen & Hinc & Hin & Hfirst).
  rewrite Efalse in E0. injection E0 as <- <-.
  destruct (finite_list_reals x') as (xs' & ->).
  { intros v Hv. apply Hin, in_map_iff in Hv.
    destruct Hv as (a & <- & _). now exists a. }
  assert (xs' = xs) as ->.
  { apply chain_Rlt_unique; [now apply chain_flt_Fin | exact Hxs |].
    intros v. rewrite <- Hsame. split; intros Hv.
    - apply (in_map Fin), Hin, in_map_iff in Hv.
      destruct Hv as (a & Ea & Ha). injection Ea as ->. exact Ha.
    - apply (in_map Fin), Hin, in_map_iff in Hv.
      destruct Hv as (a & Ea & Ha). injection Ea as ->. exact Ha. }
  rewrite E. f_equal. f_equal.
  apply graph_of_combine; [exact Hlen |].
  eapply Forall_impl; [| exact Hfirst].
  intros [a b] (i & Hx & Hr & _). cbn [fst snd] in *.
  rewrite nth_error_map, Hx in Hr. simpl in Hr. now injection Hr as <-.
Qed.

Lemma linspaceR_cons (a b : R) (n : nat) :
  a < b ->
  exists t, linspaceR a b (S n) = a :: t /\ Forall (fun v => a < v <= b) t.
Proof.
  intros Hab.
  pose proof (linspaceR_hd a b n) as Hhd.
  pose proof (linspaceR_increasing a b (S n) Hab) as Hinc.
  pose proof (linspaceR_bounds a b (S n) (Rlt_le _ _ Hab)) as Hb.
  destruct (linspaceR a b (S n)) as [| h t]; [discriminate |].
  injection Hhd as ->. exists t. split; [reflexivity |].
  apply chain_Rlt_above in Hinc. inversion Hb as [| ? ? _ Hbt]; subst.
  rewrite Forall_forall in *. intros v Hv.
  specialize (Hinc v Hv). specialize (Hbt v Hv). lra.
Qed.

(** Two sections with elementwise radius laws [f1] on [[a, m]] and [f2] on
    [[m, b]] that agree at [m]: the contour is the first section followed
    by the second one without its first point. *)
Lemma two_sections_contour (self : nozzle.Nozzle)
    (s1 s2 : nozzle.NozzleSection) (f1 f2 : float -> float)
    (a m b : R) (n1 n2 : nat) :
  nozzle.sections self = [s1; s2] ->
  nozzle.start_x (nozzle.section_params s1) = Fin a ->
  nozzle.end_x (nozzle.section_params s1) = Fin m ->
  nozzle.n_points (nozzle.section_params s1) = Z.of_nat (S (S n1)) ->
  nozzle.start_x (nozzle.section_params s2) = Fin m ->
  nozzle.end_x (nozzle.section_params s2) = Fin b ->
  nozzle.n_points (nozzle.section_params s2) = Z.of_nat (S n2) ->
  nozzle.get_radius_function s1 = map f1 ->
  nozzle.get_radius_function s2 = map f2 ->
  a < m -> m < b -> f1 (Fin m) = f2 (Fin m) ->
  nozzle.Nozzle_generate_contour self true
  = Ok (map Fin (linspaceR a m (S (S n1)) ++ tl (linspaceR m b (S n2))),
        map f1 (map Fin (linspaceR a m (S (S n1))))
        ++ map f2 (map Fin (tl (linspaceR m b (S n2))))).
Proof.
  intros Hs A1 B1 N1 A2 B2 N2 F1 F2 Ham Hmb Hjoin.
  set (G := fun v : float =>
              match v with
              | Fin x => if Rle_dec x m then f1 v else f2 v
              | _ => NaN
              end).
  pose proof (linspaceR_bounds a m (S (S n1)) (Rlt_le _ _ Ham)) as Hb1.
  destruct (linspaceR_snoc a m n1) as (l1 & E1 & _).
  destruct (linspaceR_cons m b n2 Hmb) as (t2 & E2 & Ht2).
  set (X1 := linspaceR a m (S (S n1))) in *.
  rewrite E2. cbn [tl].
  assert (G1 : map f1 (map Fin X1) = map G (map Fin X1)).
  { rewrite !map_map. apply map_ext_in. intros v Hv.
    rewrite Forall_forall in Hb1. specialize (Hb1 v Hv). unfold G.
    destruct (Rle_dec v m); [reflexivity | lra]. }
  assert (G2 : map f2 (map Fin t2) = map G (map Fin t2)).
  { rewrite !map_map. apply map_ext_in. intros v Hv.
    rewrite Forall_forall in Ht2. specialize (Ht2 v Hv). unfold G.
    destruct (Rle_dec v m); [lra | reflexivity]. }
  rewrite G1, G2, <- !map_app.
  apply contour_of_function with (X := X1 ++ m :: t2).
  - rewrite Hs. discriminate.
  - rewrite Hs. repeat constructor.
    + now exists a, m.
    + rewrite N1. lia.
    + intros xs. rewrite F1. apply length_map.
    + now exists m, b.
    + rewrite N2. lia.
    + intros xs. rewrite F2. apply length_map.
  - unfold nozzle.Nozzle_generate_contour. rewrite Hs. cbn [mapM].
    unfold nozzle.section_generate_points.
    rewrite A1, B1, N1, A2, B2, N2, !linspace_fin, F1, F2. cbn [bind].
    fold X1. rewrite E2. cbn [map fst snd concatenate concat].
    rewrite !app_nil_r, G1. cbn [bind]. f_equal. f_equal.
    + now rewrite map_app.
    + rewrite !map_app. f_equal. cbn [map]. f_equal; [| exact G2].
      unfold G. destruct (Rle_dec m m); [now symmetry | lra].
  - apply chain_Rlt_app with (m := m).
    + unfold X1. now apply linspaceR_increasing.
    + pose proof (linspaceR_increasing m b (S n2) Hmb) as Hinc.
      rewrite E2 in Hinc. now apply chain_cons in Hinc.
    + eapply Forall_impl; [| exact Hb1]. intros v Hv. simpl in Hv. lra.
    + eapply Forall_impl; [| exact Ht2]. intros v Hv. simpl in Hv. lra.
  - intros v. rewrite !in_app_iff. cbn [In]. split; [| tauto].
    intros [H | [H | H]]; [tauto | | tauto].
    left. subst v. rewrite E1. apply in_app_iff. right. now left.
Qed.

(** ** [create_conical_nozzle] *)

Lemma tan_of_degrees_pos (d : R) : 0 < d < 90 -> 0 < tan (d * (PI / 180)).
Proof.
  intros [H0 H90]. pose proof PI_RGT_0 as Hpi.
  apply tan_gt_0; nra.
Qed.

Lemma ftan_deg2rad (d : R) :
  ftan (deg2rad (Fin d)) = Fin (tan (d * (PI / 180))).
Proof. reflexivity. Qed.

(** X18: the contour of a conical nozzle has [2 * n - 1] points: the [n]
    samples of the convergent LinearSection followed by the samples of the
    divergent LinearSection without its first one, so that the throat is
    listed once, with the radius the convergent section gives it.  This
    holds for a throat narrower than chamber and exit, half-angles strictly
    between 0 and 90 degrees and [2 <= n <= 10^6] points per section, with
    radii between [1e-100] and [1e100], angles of at least [1e-100] degrees
    and a throat position within [10^6] section lengths of the origin. *)
Theorem conical_nozzle_contour (tr er cr tp ca da : R) (n : nat) :
  tr < cr -> tr < er -> 0 < ca < 90 -> 0 < da < 90 -> (2 <= n)%nat ->
  1e-100 <= tr -> cr <= 1e100 -> er <= 1e100 ->
  1e-100 <= ca -> 1e-100 <= da -> (n <= 10 ^ 6)%nat ->
  resolves tp ((cr - tr) / tan (ca * (PI / 180))) ->
  resolves tp ((er - tr) / tan (da * (PI / 180))) ->
  let Lc := (cr - tr) / tan (ca * (PI / 180)) in
  let Ld := (er - tr) / tan (da * (PI / 180)) in
  let conv :=
    nozzle.LinearSection_init_np
      (nozzle.mkSectionParameters (Fin (tp - Lc)) (Fin tp) (Fin cr) (Fin tr)
                                  (Z.of_nat n)) in
  let div :=
    nozzle.LinearSection_init_np
      (nozzle.mkSectionParameters (Fin tp) (Fin (tp + Ld)) (Fin tr) (Fin er)
                                  (Z.of_nat n)) in
  let xc := linspaceR (tp - Lc) tp n in
  let xd := tl (linspaceR tp (tp + Ld) n) in
  nozzle.Nozzle_generate_contour
    (nozzle.create_conical_nozzle
       (nozzle.mkNozzleParameters (Fin tr) (Fin er) (Fin cr) (Fin tp))
       (Fin ca) (Fin da) (Z.of_nat n)) true
  = Ok (map Fin (xc ++ xd),
        map (nozzle.LinearSection_get_radius_function conv) (map Fin xc)
        ++ map (nozzle.LinearSection_get_radius_function div) (map Fin xd)) /\
  length (xc ++ xd) = (2 * n - 1)%nat.
Proof.
  intros Hcr Her Hca Hda Hn _ _ _ _ _ _ _ _ Lc Ld conv div xc xd.
  pose proof (tan_of_degrees_pos ca Hca) as Htc.
  pose proof (tan_of_degrees_pos da Hda) as Htd.
  destruct n as [| [| k]]; [lia | lia |].
  assert (HLc : 0 < Lc).
  { apply Rmult_lt_0_compat; [lra | now apply Rinv_0_lt_compat]. }
  assert (HLd : 0 < Ld).
  { apply Rmult_lt_0_compat; [lra | now apply Rinv_0_lt_compat]. }
  assert (Ec : ((Fin cr - Fin tr) / ftan (deg2rad (Fin ca)))%fl = Fin Lc).
  { rewrite ftan_deg2rad, fsub_fin. apply fdiv_fin. lra. }
  assert (Ed : ((Fin er - Fin tr) / ftan (deg2rad (Fin da)))%fl = Fin Ld).
  { rewrite ftan_deg2rad, fsub_fin. apply fdiv_fin. lra. }
  split.
  2:{ unfold xc, xd. destruct (linspaceR_cons tp (tp + Ld) (S k)) as (t & E & _);
        [lra |].
      rewrite length_app, linspaceR_length.
      pose proof (linspaceR_length tp (tp + Ld) (S (S k))) as Hl.
      rewrite E in *. cbn [tl length] in *. lia. }
  unfold nozzle.create_conical_nozzle.
  cbn [nozzle.chamber_radius nozzle.throat_radius nozzle.exit_radius
       nozzle.throat_position].
  rewrite Ec, Ed, fsub_fin, fadd_fin. fold conv div.
  set (self := nozzle.add_diverging_section _ _).
  pose proof (two_sections_contour self (nozzle.Linear conv) (nozzle.Linear div)
                (nozzle.LinearSection_get_radius_function conv)
                (nozzle.LinearSection_get_radius_function div)
                (tp - Lc) tp (tp + Ld) k (S k)) as H.
  unfold xc, xd. apply H; try reflexivity; try lra.
  unfold nozzle.LinearSection_get_radius_function, conv, div,
    nozzle.LinearSection_init_np.
  cbn [nozzle.lin_params nozzle.slope nozzle.start_r nozzle.end_r
       nozzle.start_x nozzle.end_x].
  rewrite !fsub_fin, !fdiv_fin by lra.
  rewrite !fmul_fin, !fadd_fin. f_equal. field. lra.
Qed.

Lemma conical_nozzle_contour_witness :
  (1 < 2 /\ 1 < 3 /\ 0 < 30 < 90 /\ 0 < 15 < 90 /\ (2 <= 50)%nat /\
   1e-100 <= 1 /\ 2 <= 1e100 /\ 3 <= 1e100 /\
   1e-100 <= 30 /\ 1e-100 <= 15 /\ (50 <= 10 ^ 6)%nat /\
   resolves 0 ((2 - 1) / tan (30 * (PI / 180))) /\
   resolves 0 ((3 - 1) / tan (15 * (PI / 180)))) /\
  let Lc := (2 - 1) / tan (30 * (PI / 180)) in
  let Ld := (3 - 1) / tan (15 * (PI / 180)) in
  let conv :=
    nozzle.LinearSection_init_np
      (nozzle.mkSectionParameters (Fin (0 - Lc)) (Fin 0) (Fin 2) (Fin 1)
                                  (Z.of_nat 50)) in
  let div :=
    nozzle.LinearSection_init_np
      (nozzle.mkSectionParameters (Fin 0) (Fin (0 + Ld)) (Fin 1) (Fin 3)
                                  (Z.of_nat 50)) in
  let xc := linspaceR (0 - Lc) 0 50 in
  let xd := tl (linspaceR 0 (0 + Ld) 50) in
  nozzle.Nozzle_generate_contour
    (nozzle.create_conical_nozzle
       (nozzle.mkNozzleParameters (Fin 1) (Fin 3) (Fin 2) (Fin 0))
       (Fin 30) (Fin 15) (Z.of_nat 50)) true
  = Ok (map Fin (xc ++ xd),
        map (nozzle.LinearSection_get_radius_function conv) (map Fin xc)
        ++ map (nozzle.LinearSection_get_radius_function div) (map Fin xd)) /\
  length (xc ++ xd) = (2 * 50 - 1)%nat.
Proof.
  assert (Hr : forall a d, 0 < a -> 0 < d < 90 ->
                           resolves 0 (a / tan (d * (PI / 180)))).
  { intros a d Ha Hd. unfold resolves. rewrite Rabs_R0.
    apply Rmult_le_pos; [lra |]. apply Rlt_le, Rmult_lt_0_compat; [lra |].
    apply Rinv_0_lt_compat, tan_of_degrees_pos. exact Hd. }
  assert (Hn : (50 <= 10 ^ 6)%nat).
  { apply Nat.leb_le. vm_compute. reflexivity. }
  split; [repeat split; try lra; try lia; try exact Hn; apply Hr; lra |].
  apply (conical_nozzle_contour 1 3 2 0 30 15 50);
    try lra; try lia; try exact Hn; apply Hr; lra.
Defined.

(** ** [create_bell_nozzle] *)

(** X19: the contour of a bell nozzle has [3 * n - 1] points: the [n]
    samples of the parabolic convergent section of exponent 0.6 over
    [1.5 * chamber_radius], followed by the [2 * n] samples of the Hermite
    divergent section without its first one, so that the throat is listed
    once, with the radius the convergent section gives it.  This holds for
    a positive chamber radius and bell percentage, an exit wider than the
    throat, [2 <= n <= 10^6] points per section and slope angles strictly
    between -90 and 90 degrees, with a chamber radius, an exit-to-throat
    difference and a bell percentage between [1e-100] and [1e100], throat
    and exit radii of magnitude at most [1e100], and a throat position
    within [10^6] section lengths of the origin. *)
Theorem bell_nozzle_contour (tr er cr tp pb tn te : R) (n : nat) :
  0 < cr -> tr < er -> 0 < pb -> (2 <= n)%nat ->
  -90 < tn < 90 -> -90 < te < 90 -> (n <= 10 ^ 6)%nat ->
  1e-100 <= cr <= 1e100 -> 1e-100 <= er - tr ->
  -1e100 <= tr -> er <= 1e100 -> 1e-100 <= pb <= 1e100 ->
  resolves tp (1.5 * cr) ->
  resolves tp (pb / 100 * ((er - tr) / tan (15 * (PI / 180)))) ->
  let Lc := 1.5 * cr in
  let Ld := pb / 100 * ((er - tr) / tan (15 * (PI / 180))) in
  let conv :=
    nozzle.ParabolicSection_init
      (nozzle.mkSectionParameters (Fin (tp - Lc)) (Fin tp) (Fin cr) (Fin tr)
                                  (Z.of_nat n))
      (Fin 0.6) in
  let div :=
    nozzle.HermiteSection_init
      (nozzle.mkSectionParameters (Fin tp) (Fin (tp + Ld)) (Fin tr) (Fin er)
                                  (Z.of_nat n * 2))
      (Fin (tan (tn * (PI / 180)))) (Fin (tan (te * (PI / 180)))) in
  let xc := linspaceR (tp - Lc) tp n in
  let xd := tl (linspaceR tp (tp + Ld) (2 * n)) in
  nozzle.Nozzle_generate_contour
    (nozzle.create_bell_nozzle
       (nozzle.mkNozzleParameters (Fin tr) (Fin er) (Fin cr) (Fin tp))
       (Fin pb) (Fin tn) (Fin te) (Z.of_nat n)) true
  = Ok (map Fin (xc ++ xd),
        map (nozzle.ParabolicSection_get_radius_function conv) (map Fin xc)
        ++ map (nozzle.HermiteSection_get_radius_function div) (map Fin xd)) /\
  length (xc ++ xd) = (3 * n - 1)%nat.
Proof.
  intros Hcr Her Hpb Hn _ _ _ _ _ _ _ _ _ _ Lc Ld conv div xc xd.
  pose proof (tan_of_degrees_pos 15 ltac:(lra)) as Ht15.
  assert (HLref : 0 < (er - tr) / tan (15 * (PI / 180))).
  { apply Rmult_lt_0_compat; [lra | now apply Rinv_0_lt_compat]. }
  assert (HLd : 0 < Ld) by (unfold Ld; nra).
  assert (HLc : 0 < Lc) by (unfold Lc; lra).
  destruct n as [| [| k]]; [lia | lia |].
  split.
  2:{ unfold xc, xd.
      replace (2 * S (S k))%nat with (S (S (S (S (2 * k))))) by lia.
      destruct (linspaceR_cons tp (tp + Ld) (S (S (S (2 * k)))))
        as (t & E & _); [lra |].
      rewrite length_app, linspaceR_length.
      pose proof (linspaceR_length tp (tp + Ld) (S (S (S (S (2 * k))))))
        as Hl.
      rewrite E in *. cbn [tl length] in *. lia. }
  unfold nozzle.create_bell_nozzle.
  cbn [nozzle.chamber_radius nozzle.throat_radius nozzle.exit_radius
       nozzle.throat_position].
  rewrite !ftan_deg2rad, fmul_fin, !fsub_fin.
  rewrite (fdiv_fin (er - tr)) by lra.
  rewrite (fdiv_fin pb) by lra.
  rewrite fmul_fin, fadd_fin. fold Lc Ld conv div.
  set (self := nozzle.add_diverging_section _ _).
  pose proof (two_sections_contour self
                (nozzle.Parabolic conv) (nozzle.Hermite div)
                (nozzle.ParabolicSection_get_radius_function conv)
                (nozzle.HermiteSection_get_radius_function div)
                (tp - Lc) tp (tp + Ld) k (S (S (S (2 * k))))) as H.
  unfold xc, xd.
  replace (2 * S (S k))%nat with (S (S (S (S (2 * k))))) by lia.
  apply H; try reflexivity; try lra.
  - cbn [nozzle.section_params nozzle.her_params div
         nozzle.HermiteSection_init nozzle.n_points]. lia.
  - unfold div. rewrite HermiteSection_fin by lra.
    unfold conv, nozzle.ParabolicSection_get_radius_function,
      nozzle.ParabolicSection_init.
    cbn [nozzle.par_params nozzle.curvature nozzle.start_x nozzle.end_x
         nozzle.start_r nozzle.end_r].
    rewrite !fsub_fin, fdiv_fin by lra.
    replace ((tp - (tp - Lc)) / (tp - (tp - Lc))) with 1 by (field; lra).
    rewrite fpow_fin by lra. unfold Rpow. float_tests.
    unfold Rpower. rewrite ln_1, Rmult_0_r, exp_0.
    rewrite fmul_fin, fadd_fin. f_equal.
    unfold hermite_radius. field. lra.
Qed.

Lemma bell_nozzle_contour_witness :
  (0 < 2 /\ 1 < 3 /\ 0 < 80 /\ (2 <= 50)%nat /\
   -90 < 30 < 90 /\ -90 < 8 < 90 /\ (50 <= 10 ^ 6)%nat /\
   1e-100 <= 2 <= 1e100 /\ 1e-100 <= 3 - 1 /\
   -1e100 <= 1 /\ 3 <= 1e100 /\ 1e-100 <= 80 <= 1e100 /\
   resolves 0 (1.5 * 2) /\
   resolves 0 (80 / 100 * ((3 - 1) / tan (15 * (PI / 180))))) /\
  let Lc := 1.5 * 2 in
  let Ld := 80 / 100 * ((3 - 1) / tan (15 * (PI / 180))) in
  let conv :=
    nozzle.ParabolicSection_init
      (nozzle.mkSectionParameters (Fin (0 - Lc)) (Fin 0) (Fin 2) (Fin 1)
                                  (Z.of_nat 50))
      (Fin 0.6) in
  let div :=
    nozzle.HermiteSection_init
      (nozzle.mkSectionParameters (Fin 0) (Fin (0 + Ld)) (Fin 1) (Fin 3)
                                  (Z.of_nat 50 * 2))
      (Fin (tan (30 * (PI / 180)))) (Fin (tan (8 * (PI / 180)))) in
  let xc := linspaceR (0 - Lc) 0 50 in
  let xd := tl (linspaceR 0 (0 + Ld) (2 * 50)) in
  nozzle.Nozzle_generate_contour
    (nozzle.create_bell_nozzle
       (nozzle.mkNozzleParameters (Fin 1) (Fin 3) (Fin 2) (Fin 0))
       (Fin 80) (Fin 30) (Fin 8) (Z.of_nat 50)) true
  = Ok (map Fin (xc ++ xd),
        map (nozzle.ParabolicSection_get_radius_function conv) (map Fin xc)
        ++ map (nozzle.HermiteSection_get_radius_function div) (map Fin xd)) /\
  length (xc ++ xd) = (3 * 50 - 1)%nat.
Proof.
  assert (Hr : forall L, 0 <= L -> resolves 0 L).
  { intros L HL. unfold resolves. rewrite Rabs_R0. lra. }
  assert (Ht : 0 < tan (15 * (PI / 180))) by (apply tan_of_degrees_pos; lra).
  assert (HL : 0 <= 80 / 100 * ((3 - 1) / tan (15 * (PI / 180)))).
  { apply Rmult_le_pos; [lra |]. apply Rlt_le, Rmult_lt_0_compat; [lra |].
    now apply Rinv_0_lt_compat. }
  assert (Hn : (50 <= 10 ^ 6)%nat).
  { apply Nat.leb_le. vm_compute. reflexivity. }
  split; [repeat split; try lra; try lia; try exact Hn; apply Hr; lra |].
  apply (bell_nozzle_contour 1 3 2 0 80 30 8 50);
    try lra; try lia; try exact Hn; apply Hr; lra.
Defined.

(** ** Order of the sections *)






(** X21: [add_throat_section] puts the section right behind the first section
    of the nozzle, whatever that one is.  Converging, throat and diverging
    sections therefore end up in this order for five of the six orders of
    the three calls; when the calls come as diverging, throat, converging,
    the throat section is stored behind the diverging one. *)
Theorem throat_section_goes_second (self : nozzle.Nozzle)
    (c t d : nozzle.NozzleSection) :
  nozzle.sections (nozzle.add_throat_section self t)
  = match nozzle.sections self with
    | [] => [t]
    | first :: rest => first :: t :: rest
    end /\
  let n0 := nozzle.Nozzle_init (nozzle.noz_params self) in
  let conv s := nozzle.add_converging_section s c in
  let thr s := nozzle.add_throat_section s t in
  let div s := nozzle.add_diverging_section s d in
  nozzle.sections (div (thr (conv n0))) = [c; t; d] /\
  nozzle.sections (thr (div (conv n0))) = [c; t; d] /\
  nozzle.sections (thr (conv (div n0))) = [c; t; d] /\
  nozzle.sections (div (conv (thr n0))) = [c; t; d] /\
  nozzle.sections (conv (div (thr n0))) = [c; t; d] /\
  nozzle.sections (conv (thr (div n0))) = [c; d; t].
Proof.
  split; [| repeat split].
  unfold nozzle.add_throat_section, nozzle.list_insert, len.
  cbn [nozzle.sections].
  destruct (nozzle.sections self) as [| first rest]; [reflexivity |].
  replace (0 <? Z.of_nat (length (first :: rest)))%Z with true; [reflexivity |].
  symmetry. apply Z.ltb_lt. cbn [length]. lia.
Qed.

(** ** [create_custom_nozzle] *)



